(** * HIMLoco training core: rollout storage, actor-critic and PPO update

    A shallow embedding of
    - [rsl_rl/storage/him_rollout_storage.py] (module [Storage]),
    - [rsl_rl/modules/him_actor_critic.py]    (module [ActorCritic]),
    - [rsl_rl/algorithms/him_ppo.py]          (module [PPO]),
    - the constructor of [HIMActorCritic]     (module [Architecture]),
    - [legged_gym/utils/helpers.py]           (module [Helpers]),
    followed by the properties established about them.

    Tensors are idealised: a float is a real number, a tensor of shape
    [T, N, d] is a list of T rows of N vectors of d reals, and a tensor of
    shape [T, N, 1] is a list of T rows of N reals.  The only non-finite
    float the model tracks is the NaN that [torch.mean] and [torch.std]
    return on too few samples (type [value]).  Python's [None], exceptions
    and in-place mutation are explicit: optional fields, a result type, and
    a state-and-exception monad in which the state survives a raise. *)

From Stdlib Require Import Reals Lra Lia ZArith List String Permutation.
From stdpp Require Import base list strings gmap.
From Stdlib Require Import Ascii.
From stdpp Require Import pretty.
Import ListNotations.

(** ** Python exceptions and mutable state *)

Inductive exn : Type :=
| AssertionError (msg : string)
| TypeError
| AttributeError
| ZeroDivisionError
| UnboundLocalError
| IndexError.

Inductive result (A : Type) : Type :=
| Ok (a : A)
| Raise (e : exn).
Arguments Ok {A} a.
Arguments Raise {A} e.

(** A method of an object with state [S]: it returns or raises, and either
    way leaves the state as mutated so far. *)
Definition M (S A : Type) : Type := S -> result A * S.

Definition ret {S A} (a : A) : M S A := fun s => (Ok a, s).
Definition raise {S A} (e : exn) : M S A := fun s => (Raise e, s).
Definition bind {S A B} (m : M S A) (k : A -> M S B) : M S B :=
  fun s => match m s with
           | (Ok a, s') => k a s'
           | (Raise e, s') => (Raise e, s')
           end.
Definition get {S} : M S S := fun s => (Ok s, s).
Definition modify {S} (f : S -> S) : M S unit := fun s => (Ok tt, f s).

(** The state a method leaves behind. *)
Definition exec {S A} (m : M S A) (s : S) : S := snd (m s).

Declare Scope py_scope.
Delimit Scope py_scope with py.
Notation "x <- m ;; k" := (bind m (fun x => k))
  (at level 100, m at next level, right associativity) : py_scope.
Notation "m ;; k" := (bind m (fun _ => k))
  (at level 100, right associativity) : py_scope.

(** ** Tensors *)

(** A float that may be the NaN of an undefined statistic. *)
Inductive value : Type :=
| Fin (r : R)
| NaN.

Definition vector : Type := list R.

Module Tensor.
Local Open Scope R_scope.

Definition sum (l : list R) : R := fold_right Rplus 0 l.

(** [t.mean()]: 0/0 on an empty tensor. *)
Definition mean (l : list R) : value :=
  match l with
  | [] => NaN
  | _ => Fin (sum l / INR (length l))
  end.

(** [t.std()], torch's default: Bessel's correction, so the sum of
    squared deviations is divided by [n - 1]; 0/0 on a single element. *)
Definition std (l : list R) : value :=
  match mean l with
  | NaN => NaN
  | Fin m =>
      if (length l <=? 1)%nat then NaN
      else Fin (sqrt (sum (map (fun x => (x - m) * (x - m)) l)
                      / INR (length l - 1)))
  end.

(** All entries, when none is NaN. *)
Fixpoint finite (l : list value) : option (list R) :=
  match l with
  | [] => Some []
  | Fin r :: l' => option_map (cons r) (finite l')
  | NaN :: _ => None
  end.


Definition xadd (a b : value) : value :=
  match a, b with
  | Fin x, Fin y => Fin (x + y)
  | _, _ => NaN
  end.

Definition xsub (a b : value) : value :=
  match a, b with
  | Fin x, Fin y => Fin (x - y)
  | _, _ => NaN
  end.

(** [c * t] for a Python float [c]. *)
Definition xscale (c : R) (a : value) : value :=
  match a with
  | Fin x => Fin (c * x)
  | NaN => NaN
  end.

(** Elementwise operations on tensors of equal shape. *)
Definition add (a b : list R) : list R := zip_with Rplus a b.
Definition sub (a b : list R) : list R := zip_with Rminus a b.
Definition mul (a b : list R) : list R := zip_with Rmult a b.
Definition scale (c : R) (a : list R) : list R := map (Rmult c) a.

(** [t.flatten(0, 1)] *)
Definition flatten {A} (t : list (list A)) : list A := concat t.

(** [t[idx]] with a tensor of indices. *)
Definition gather {A} (d : A) (t : list A) (idx : list nat) : list A :=
  map (fun i => nth i t d) idx.

(** [t[start:end]] *)
Definition slice {A} (t : list A) (start stop : nat) : list A :=
  firstn (stop - start) (skipn start t).

(** [torch.zeros] *)
Definition zeros1 (n : nat) : list R := repeat 0 n.
Definition zeros2 (n d : nat) : list vector := repeat (zeros1 d) n.
End Tensor.

(** ** Rollout storage ([HIMRolloutStorage]) *)

Module Storage.

(** [HIMRolloutStorage.Transition]: every field starts as [None]. *)
Record Transition : Type := mkTransition {
  tr_observations : option (list vector);
  tr_critic_observations : option (list vector);
  tr_actions : option (list vector);
  tr_rewards : option (list R);
  tr_dones : option (list Z);
  tr_values : option (list R);
  tr_actions_log_prob : option (list R);
  tr_action_mean : option (list vector);
  tr_action_sigma : option (list vector);
  tr_next_critic_observations : option (list vector)
}.

(** [Transition.__init__] *)
Definition empty_transition : Transition :=
  mkTransition None None None None None None None None None None.

(** [Transition.clear]: runs [__init__] again. *)
Definition transition_clear (_ : Transition) : Transition := empty_transition.

(** Assignments to one attribute of a transition. *)
Definition with_observations v (t : Transition) :=
  let 'mkTransition _ b c d e f g h i j := t in mkTransition v b c d e f g h i j.
Definition with_critic_observations v (t : Transition) :=
  let 'mkTransition a _ c d e f g h i j := t in mkTransition a v c d e f g h i j.
Definition with_actions v (t : Transition) :=
  let 'mkTransition a b _ d e f g h i j := t in mkTransition a b v d e f g h i j.
Definition with_rewards v (t : Transition) :=
  let 'mkTransition a b c _ e f g h i j := t in mkTransition a b c v e f g h i j.
Definition with_dones v (t : Transition) :=
  let 'mkTransition a b c d _ f g h i j := t in mkTransition a b c d v f g h i j.
Definition with_values v (t : Transition) :=
  let 'mkTransition a b c d e _ g h i j := t in mkTransition a b c d e v g h i j.
Definition with_actions_log_prob v (t : Transition) :=
  let 'mkTransition a b c d e f _ h i j := t in mkTransition a b c d e f v h i j.
Definition with_action_mean v (t : Transition) :=
  let 'mkTransition a b c d e f g _ i j := t in mkTransition a b c d e f g v i j.
Definition with_action_sigma v (t : Transition) :=
  let 'mkTransition a b c d e f g h _ j := t in mkTransition a b c d e f g h v j.
Definition with_next_critic_observations v (t : Transition) :=
  let 'mkTransition a b c d e f g h i _ := t in mkTransition a b c d e f g h i v.

Record HIMRolloutStorage : Type := mkStorage {
  observations : list (list vector);
  privileged_observations : option (list (list vector));
  next_privileged_observations : option (list (list vector));
  rewards : list (list R);
  actions : list (list vector);
  dones : list (list Z);
  actions_log_prob : list (list R);
  values : list (list R);
  returns : list (list R);
  advantages : list (list value);
  mu : list (list vector);
  sigma : list (list vector);
  num_transitions_per_env : nat;
  num_envs : nat;
  step : nat
}.

(** Assignments to one attribute of [self]. *)
Definition set_observations v (s : HIMRolloutStorage) :=
  let 'mkStorage _ b c d e f g h i j k l m n o := s in mkStorage v b c d e f g h i j k l m n o.
Definition set_privileged_observations v (s : HIMRolloutStorage) :=
  let 'mkStorage a _ c d e f g h i j k l m n o := s in mkStorage a v c d e f g h i j k l m n o.
Definition set_next_privileged_observations v (s : HIMRolloutStorage) :=
  let 'mkStorage a b _ d e f g h i j k l m n o := s in mkStorage a b v d e f g h i j k l m n o.
Definition set_rewards v (s : HIMRolloutStorage) :=
  let 'mkStorage a b c _ e f g h i j k l m n o := s in mkStorage a b c v e f g h i j k l m n o.
Definition set_actions v (s : HIMRolloutStorage) :=
  let 'mkStorage a b c d _ f g h i j k l m n o := s in mkStorage a b c d v f g h i j k l m n o.
Definition set_dones v (s : HIMRolloutStorage) :=
  let 'mkStorage a b c d e _ g h i j k l m n o := s in mkStorage a b c d e v g h i j k l m n o.
Definition set_actions_log_prob v (s : HIMRolloutStorage) :=
  let 'mkStorage a b c d e f _ h i j k l m n o := s in mkStorage a b c d e f v h i j k l m n o.
Definition set_values v (s : HIMRolloutStorage) :=
  let 'mkStorage a b c d e f g _ i j k l m n o := s in mkStorage a b c d e f g v i j k l m n o.
Definition set_returns v (s : HIMRolloutStorage) :=
  let 'mkStorage a b c d e f g h _ j k l m n o := s in mkStorage a b c d e f g h v j k l m n o.
Definition set_advantages v (s : HIMRolloutStorage) :=
  let 'mkStorage a b c d e f g h i _ k l m n o := s in mkStorage a b c d e f g h i v k l m n o.
Definition set_mu v (s : HIMRolloutStorage) :=
  let 'mkStorage a b c d e f g h i j _ l m n o := s in mkStorage a b c d e f g h i j v l m n o.
Definition set_sigma v (s : HIMRolloutStorage) :=
  let 'mkStorage a b c d e f g h i j k _ m n o := s in mkStorage a b c d e f g h i j k v m n o.
Definition set_step v (s : HIMRolloutStorage) :=
  let 'mkStorage a b c d e f g h i j k l m n _ := s in mkStorage a b c d e f g h i j k l m n v.

(** [__init__]: every buffer is allocated with [num_transitions_per_env]
    rows of [num_envs] zero entries; the privileged buffers exist only
    when a privileged observation shape is given. *)
Definition init (num_envs num_transitions_per_env obs_dim : nat)
    (privileged_obs_dim : option nat) (actions_dim : nat) : HIMRolloutStorage :=
  let T := num_transitions_per_env in
  let N := num_envs in
  {| observations := repeat (Tensor.zeros2 N obs_dim) T;
     privileged_observations :=
       match privileged_obs_dim with
       | Some d => Some (repeat (Tensor.zeros2 N d) T)
       | None => None
       end;
     next_privileged_observations :=
       match privileged_obs_dim with
       | Some d => Some (repeat (Tensor.zeros2 N d) T)
       | None => None
       end;
     rewards := repeat (Tensor.zeros1 N) T;
     actions := repeat (Tensor.zeros2 N actions_dim) T;
     dones := repeat (repeat 0%Z N) T;
     actions_log_prob := repeat (Tensor.zeros1 N) T;
     values := repeat (Tensor.zeros1 N) T;
     returns := repeat (Tensor.zeros1 N) T;
     advantages := repeat (repeat (Fin 0) N) T;
     mu := repeat (Tensor.zeros2 N actions_dim) T;
     sigma := repeat (Tensor.zeros2 N actions_dim) T;
     num_transitions_per_env := T;
     num_envs := N;
     step := 0 |}.

(** [dst.copy_(src)] with [src = None] is a [TypeError]. *)
Definition copy_arg {A} (src : option A) : M HIMRolloutStorage A :=
  match src with
  | Some t => ret t
  | None => raise TypeError
  end.

(** [src.view(-1, 1)] with [src = None] is an [AttributeError]. *)
Definition view_arg {A} (src : option A) : M HIMRolloutStorage A :=
  match src with
  | Some t => ret t
  | None => raise AttributeError
  end.

(** Conversion into the [uint8] buffer of done flags. *)
Definition to_byte (d : Z) : Z := (d mod 256)%Z.

Local Open Scope py_scope.

Definition add_transitions (transition : Transition) : M HIMRolloutStorage unit :=
  self <- get ;;
  if (num_transitions_per_env self <=? step self)%nat
  then raise (AssertionError "Rollout buffer overflow")
  else
    src <- copy_arg (tr_observations transition) ;;
    modify (fun s => set_observations (<[step s := src]> (observations s)) s) ;;
    (match privileged_observations self with
     | Some _ =>
         src <- copy_arg (tr_critic_observations transition) ;;
         modify (fun s => set_privileged_observations
                            (insert (step s) src <$> privileged_observations s) s)
     | None => ret tt
     end) ;;
    (match next_privileged_observations self with
     | Some _ =>
         src <- copy_arg (tr_next_critic_observations transition) ;;
         modify (fun s => set_next_privileged_observations
                            (insert (step s) src <$> next_privileged_observations s) s)
     | None => ret tt
     end) ;;
    src <- copy_arg (tr_actions transition) ;;
    modify (fun s => set_actions (<[step s := src]> (actions s)) s) ;;
    src <- view_arg (tr_rewards transition) ;;
    modify (fun s => set_rewards (<[step s := src]> (rewards s)) s) ;;
    src <- view_arg (tr_dones transition) ;;
    modify (fun s => set_dones (<[step s := map to_byte src]> (dones s)) s) ;;
    src <- copy_arg (tr_values transition) ;;
    modify (fun s => set_values (<[step s := src]> (values s)) s) ;;
    src <- view_arg (tr_actions_log_prob transition) ;;
    modify (fun s => set_actions_log_prob (<[step s := src]> (actions_log_prob s)) s) ;;
    src <- copy_arg (tr_action_mean transition) ;;
    modify (fun s => set_mu (<[step s := src]> (mu s)) s) ;;
    src <- copy_arg (tr_action_sigma transition) ;;
    modify (fun s => set_sigma (<[step s := src]> (sigma s)) s) ;;
    modify (fun s => set_step (step s + 1)%nat s).

Definition clear : M HIMRolloutStorage unit :=
  modify (set_step 0%nat).

Local Close Scope py_scope.

(** *** Returns and advantages *)

Local Open Scope R_scope.

(** The local [advantage] of [compute_returns]: the Python number [0]
    before the loop, a tensor of shape [N, 1] from the first pass on. *)
Inductive accumulator : Type :=
| Scalar (r : R)
| Row (v : list R).

(** [t * advantage], broadcasting a scalar. *)
Definition mul_accumulator (t : list R) (a : accumulator) : list R :=
  match a with
  | Scalar r => map (fun x => x * r) t
  | Row v => Tensor.mul t v
  end.

(** [t * c] for a Python float [c]. *)
Definition mul_float (t : list R) (c : R) : list R := map (fun x => x * c) t.

(** One pass of the loop body of [compute_returns]; the pair is the local
    [advantage] and the buffer [self.returns]. *)
Definition gae_step (self : HIMRolloutStorage) (last_values : list R) (gamma lam : R)
    (acc : accumulator * list (list R)) (step : nat) : accumulator * list (list R) :=
  let '(advantage, returns) := acc in
  let next_values :=
    if (step =? num_transitions_per_env self - 1)%nat then last_values
    else nth (step + 1) (values self) [] in
  let next_is_not_terminal := map (fun d => 1 - IZR d) (nth step (dones self) []) in
  let delta :=
    Tensor.sub
      (Tensor.add (nth step (rewards self) [])
                  (Tensor.mul (mul_float next_is_not_terminal gamma) next_values))
      (nth step (values self) []) in
  let advantage :=
    Tensor.add delta
      (mul_accumulator (mul_float (mul_float next_is_not_terminal gamma) lam) advantage) in
  (Row advantage, <[step := Tensor.add advantage (nth step (values self) [])]> returns).

(** [(advantages - advantages.mean()) / (advantages.std() + 1e-8)] *)
Definition normalize (adv : list (list R)) : list (list value) :=
  let flat := Tensor.flatten adv in
  match Tensor.mean flat, Tensor.std flat with
  | Fin m, Fin s => map (map (fun a => Fin ((a - m) / (s + 1e-8)))) adv
  | _, _ => map (map (fun _ => NaN)) adv
  end.

Definition compute_returns (last_values : list R) (gamma lam : R)
    : M HIMRolloutStorage unit :=
  modify (fun self =>
    let '(_, returns) :=
      fold_left (gae_step self last_values gamma lam)
                (rev (seq 0 (num_transitions_per_env self)))
                (Scalar 0, returns self) in
    let self := set_returns returns self in
    let advantages := zip_with Tensor.sub (Storage.returns self) (values self) in
    set_advantages (normalize advantages) self).

Local Close Scope R_scope.

(** *** Statistics *)

(** [flat_dones.nonzero()[:, 0]]: the positions of the nonzero flags. *)
Definition nonzero (flat : list Z) : list Z :=
  map Z.of_nat
    (filter (fun i => negb (Z.eqb (nth i flat 0%Z) 0)) (seq 0 (length flat))).

(** [get_statistics] writes 1 into the last row of [self.dones], which
    [done] aliases, then reads the flags environment by environment. *)
Definition get_statistics : M HIMRolloutStorage (value * value) :=
  bind get (fun self =>
  let rows := length (dones self) in
  if (rows =? 0)%nat then raise IndexError
  else
    bind (modify (fun s =>
            set_dones (<[rows - 1 := map (fun _ => 1%Z) (nth (rows - 1) (dones s) [])]>
                         (dones s)) s))
      (fun _ =>
    bind get (fun self =>
      let done := dones self in
      let flat_dones :=
        flat_map (fun n => map (fun row => nth n row 0%Z) done)
                 (seq 0 (num_envs self)) in
      let done_indices := (-1)%Z :: nonzero flat_dones in
      let trajectory_lengths :=
        zip_with Z.sub (tail done_indices) (removelast done_indices) in
      ret (Tensor.mean (map IZR trajectory_lengths),
           Tensor.mean (Tensor.flatten (rewards self)))))).

(** *** Minibatches *)

(** The tuple yielded by [mini_batch_generator], in the order of the
    [yield] statement. *)
Record MiniBatch : Type := mkMiniBatch {
  obs_batch : list vector;
  critic_observations_batch : list vector;
  actions_batch : list vector;
  next_critic_observations_batch : list vector;
  target_values_batch : list R;
  advantages_batch : list value;
  returns_batch : list R;
  old_actions_log_prob_batch : list R;
  old_mu_batch : list vector;
  old_sigma_batch : list vector
}.

(** The flattened critic observations and next critic observations: the
    privileged buffers when there are any, else the observations. *)
Definition critic_views (self : HIMRolloutStorage)
    : result (list vector * list vector) :=
  match privileged_observations self with
  | Some p =>
      match next_privileged_observations self with
      | Some q => Ok (Tensor.flatten p, Tensor.flatten q)
      | None => Raise AttributeError
      end
  | None =>
      Ok (Tensor.flatten (observations self), Tensor.flatten (observations self))
  end.

(** The body of the inner loop after [batch_idx] is known. *)
Definition make_batch (self : HIMRolloutStorage)
    (critic_observations next_critic_observations : list vector)
    (batch_idx : list nat) : MiniBatch :=
  let observations := Tensor.flatten (observations self) in
  {| obs_batch := Tensor.gather [] observations batch_idx;
     critic_observations_batch := Tensor.gather [] critic_observations batch_idx;
     actions_batch := Tensor.gather [] (Tensor.flatten (actions self)) batch_idx;
     next_critic_observations_batch := Tensor.gather [] next_critic_observations batch_idx;
     target_values_batch := Tensor.gather 0%R (Tensor.flatten (values self)) batch_idx;
     advantages_batch := Tensor.gather NaN (Tensor.flatten (advantages self)) batch_idx;
     returns_batch := Tensor.gather 0%R (Tensor.flatten (returns self)) batch_idx;
     old_actions_log_prob_batch :=
       Tensor.gather 0%R (Tensor.flatten (actions_log_prob self)) batch_idx;
     old_mu_batch := Tensor.gather [] (Tensor.flatten (mu self)) batch_idx;
     old_sigma_batch := Tensor.gather [] (Tensor.flatten (sigma self)) batch_idx |}.

(** [indices[start:end]] for each [i] in [range(num_mini_batches)]. *)
Definition index_chunks (indices : list nat) (num_mini_batches mini_batch_size : nat)
    : list (list nat) :=
  map (fun i => Tensor.slice indices (i * mini_batch_size) ((i + 1) * mini_batch_size))
      (seq 0 num_mini_batches).

Section Generator.
(** The state of torch's random generator and [torch.randperm]. *)
Context {rng : Type}.
Variable randperm : nat -> rng -> list nat * rng.

Local Open Scope py_scope.

(** The whole sequence the generator yields.  The storage is only read;
    the state that changes is the random generator's. *)
Definition mini_batch_generator (self : HIMRolloutStorage)
    (num_mini_batches num_epochs : nat) : M rng (list MiniBatch) :=
  let batch_size := (num_envs self * num_transitions_per_env self)%nat in
  if (num_mini_batches =? 0)%nat then raise ZeroDivisionError
  else
    let mini_batch_size := (batch_size / num_mini_batches)%nat in
    indices <- (fun g => let '(p, g') := randperm (num_mini_batches * mini_batch_size) g
                         in (Ok p, g')) ;;
    views <- (fun g => (critic_views self, g)) ;;
    let '(critic_observations, next_critic_observations) := views in
    ret (flat_map
           (fun epoch =>
              map (make_batch self critic_observations next_critic_observations)
                  (index_chunks indices num_mini_batches mini_batch_size))
           (seq 0 num_epochs)).
End Generator.

End Storage.

(** ** Actor-critic with estimator ([HIMActorCritic]) *)

Module ActorCritic.
Local Open Scope R_scope.

(** [torch.distributions.Normal]: its [mean] and [stddev], one row per
    sample of the batch. *)
Record Normal : Type := mkNormal {
  loc : list vector;
  scale : list vector
}.

(** [Normal.log_prob] and [Normal.entropy] for one coordinate. *)
Definition log_prob1 (m s a : R) : R :=
  - ((a - m) * (a - m)) / (2 * (s * s)) - ln s - ln (sqrt (2 * PI)).
Definition entropy1 (s : R) : R := 0.5 + 0.5 * ln (2 * PI) + ln s.

(** [torch.cat((a, b), dim=-1)] *)
Definition cat_last (a b : list vector) : list vector := zip_with app a b.

Section Networks.
(** The weights of the three networks, and the networks as functions
    of their weights and a batch: the actor and critic MLPs built in
    [__init__], and the forward pass of [HIMEstimator], which gives
    the velocity and the latent of every sample. *)
Context {actor_params critic_params estimator_params : Type}.
Variable actor : actor_params -> list vector -> list vector.
Variable critic : critic_params -> list vector -> list R.
Variable estimator : estimator_params -> list vector -> list vector * list vector.

(** The state of torch's random generator and [Normal.sample]. *)
Context {rng : Type}.
Variable sample : Normal -> rng -> list vector * rng.

Record HIMActorCritic : Type := mkActorCritic {
  actor_net : actor_params;
  critic_net : critic_params;
  estimator_net : estimator_params;
  std : vector;
  distribution : option Normal;
  num_one_step_obs : nat
}.

Definition set_distribution (d : option Normal) (self : HIMActorCritic) :=
  let 'mkActorCritic a c e s _ n := self in mkActorCritic a c e s d n.

Local Open Scope py_scope.

(** [reset]: [pass]. *)
Definition reset (dones : option (list Z)) : M HIMActorCritic unit := ret tt.

Definition update_distribution (obs_history : list vector) : M HIMActorCritic unit :=
  modify (fun self =>
    let '(vel, latent) := estimator (estimator_net self) obs_history in
    let actor_input :=
      cat_last (cat_last (map (firstn (num_one_step_obs self)) obs_history) vel)
               latent in
    let mean := actor (actor_net self) actor_input in
    set_distribution
      (Some (mkNormal mean
               (map (fun row => Tensor.add (Storage.mul_float row 0) (std self)) mean)))
      self).

(** The properties read [self.distribution], which is [None] until the
    first [update_distribution]. *)
Definition current_distribution : M HIMActorCritic Normal :=
  self <- get ;;
  match distribution self with
  | Some d => ret d
  | None => raise AttributeError
  end.

Definition action_mean : M HIMActorCritic (list vector) :=
  d <- current_distribution ;; ret (loc d).

Definition action_std : M HIMActorCritic (list vector) :=
  d <- current_distribution ;; ret (scale d).

Definition entropy : M HIMActorCritic (list R) :=
  d <- current_distribution ;;
  ret (map (fun row => Tensor.sum (map entropy1 row)) (scale d)).

(** [act] changes the module (its distribution) and the random
    generator. *)
Definition act (obs_history : list vector) : M (HIMActorCritic * rng) (list vector) :=
  fun '(self, g) =>
    match update_distribution obs_history self with
    | (Raise e, self') => (Raise e, (self', g))
    | (Ok _, self') =>
        match current_distribution self' with
        | (Raise e, self'') => (Raise e, (self'', g))
        | (Ok d, self'') =>
            let '(a, g') := sample d g in (Ok a, (self'', g'))
        end
    end.

Definition get_actions_log_prob (actions : list vector) : M HIMActorCritic (list R) :=
  d <- current_distribution ;;
  ret (zip_with
         (fun ms a =>
            Tensor.sum (zip_with (fun '(m, s) x => log_prob1 m s x)
                                 (zip (fst ms) (snd ms)) a))
         (zip (loc d) (scale d)) actions).

(** [act_inference] assigns nothing. *)
Definition act_inference (self : HIMActorCritic) (obs_history : list vector)
    : list vector :=
  let '(vel, latent) := estimator (estimator_net self) obs_history in
  let actor_input :=
    cat_last (cat_last (map (firstn (num_one_step_obs self)) obs_history) vel)
             latent in
  let mean := actor (actor_net self) actor_input in
  mean.

Definition evaluate (self : HIMActorCritic) (critic_observations : list vector)
    : list R :=
  critic (critic_net self) critic_observations.

End Networks.
End ActorCritic.

(** ** PPO with estimator ([HIMPPO]) *)

Module PPO.
Local Open Scope R_scope.

Definition b2r (b : bool) : R := if b then 1 else 0.

(** [torch.clamp(x, lo, hi)] *)
Definition clamp (x lo hi : R) : R := Rmin (Rmax x lo) hi.

(** One coordinate of the closed-form KL estimate of [update]. *)
Definition kl1 (m s old_m old_s : R) : R :=
  ln (s / old_s + 1e-5) + (old_s * old_s + (old_m - m) * (old_m - m)) / (2.0 * (s * s)) - 0.5.

(** [torch.sum(..., axis=-1)] of the estimate: one number per sample. *)
Definition kl_divergence (mu_batch sigma_batch old_mu_batch old_sigma_batch : list vector)
    : list R :=
  zip_with
    (fun new old =>
       Tensor.sum (zip_with (fun '(m, s) '(om, os) => kl1 m s om os)
                            (zip (fst new) (snd new)) (zip (fst old) (snd old))))
    (zip mu_batch sigma_batch) (zip old_mu_batch old_sigma_batch).

(** The two branches on [kl_mean]; every comparison with NaN is false. *)
Definition adapt_learning_rate (desired_kl : R) (kl_mean : value) (learning_rate : R) : R :=
  match kl_mean with
  | NaN => learning_rate
  | Fin kl =>
      if Rgt_dec kl (desired_kl * 2.0) then Rmax 1e-5 (learning_rate / 1.5)
      else if Rlt_dec kl (desired_kl / 2.0) then
             if Rgt_dec kl 0.0 then Rmin 1e-2 (learning_rate * 1.5)
             else learning_rate
           else learning_rate
  end.

(** [torch.max(surrogate, surrogate_clipped).mean()] *)
Definition surrogate_loss_of (clip_param : R) (advantages_batch : list value)
    (actions_log_prob_batch old_actions_log_prob_batch : list R) : value :=
  let ratio := map exp (Tensor.sub actions_log_prob_batch old_actions_log_prob_batch) in
  match Tensor.finite advantages_batch with
  | None => NaN
  | Some adv =>
      let surrogate := zip_with (fun a r => - a * r) adv ratio in
      let surrogate_clipped :=
        zip_with (fun a r => - a * clamp r (1.0 - clip_param) (1.0 + clip_param))
                 adv ratio in
      Tensor.mean (zip_with Rmax surrogate surrogate_clipped)
  end.

Definition value_loss_of (use_clipped_value_loss : bool) (clip_param : R)
    (value_batch target_values_batch returns_batch : list R) : value :=
  if use_clipped_value_loss then
    let value_clipped :=
      Tensor.add target_values_batch
        (map (fun d => clamp d (- clip_param) clip_param)
             (Tensor.sub value_batch target_values_batch)) in
    let value_losses :=
      map (fun d => d * d) (Tensor.sub value_batch returns_batch) in
    let value_losses_clipped :=
      map (fun d => d * d) (Tensor.sub value_clipped returns_batch) in
    Tensor.mean (zip_with Rmax value_losses value_losses_clipped)
  else
    Tensor.mean (map (fun d => d * d) (Tensor.sub returns_batch value_batch)).

(** [x /= n] for a Python float and an int: a [ZeroDivisionError] is the
    caller's to raise when [n = 0]. *)
Definition div_int (x : value) (n : nat) : value :=
  match x with
  | Fin r => Fin (r / INR n)
  | NaN => NaN
  end.

(** The four running sums of [update], and the loop variables
    [estimation_loss] and [swap_loss], unbound before the first pass. *)
Record Sums : Type := mkSums {
  mean_value_loss : value;
  mean_surrogate_loss : value;
  mean_estimation_loss : value;
  mean_swap_loss : value;
  estimation_loss : option value;
  swap_loss : option value
}.

(** What one pass computes: value, surrogate, estimation and swap loss. *)
Definition Losses : Type := (value * value * value * value)%type.

Definition accumulate (acc : Sums) (l : Losses) : Sums :=
  let '(v, s, e, w) := l in
  {| mean_value_loss := Tensor.xadd (mean_value_loss acc) v;
     mean_surrogate_loss := Tensor.xadd (mean_surrogate_loss acc) s;
     mean_estimation_loss := Tensor.xadd (mean_estimation_loss acc) e;
     mean_swap_loss := Tensor.xadd (mean_swap_loss acc) w;
     estimation_loss := Some e;
     swap_loss := Some w |}.

Definition zero_sums : Sums := mkSums (Fin 0) (Fin 0) (Fin 0) (Fin 0) None None.

Section Algorithm.
Context {actor_params critic_params estimator_params rng adam_state : Type}.
Variable actor : actor_params -> list vector -> list vector.
Variable critic : critic_params -> list vector -> list R.
Variable estimator : estimator_params -> list vector -> list vector * list vector.
Variable sample : ActorCritic.Normal -> rng -> list vector * rng.
Variable randperm : nat -> rng -> list nat * rng.

(** [HIMEstimator.update(obs_history, next_critic_obs, lr)]: one
    gradient step of the estimator, returning the estimation loss and
    the swap loss as Python floats. *)
Variable estimator_update :
  estimator_params -> list vector -> list vector -> R -> (value * value) * estimator_params.

Local Abbreviation HIMActorCritic :=
  (@ActorCritic.HIMActorCritic actor_params critic_params estimator_params).

(** [optim.Adam]: the ['lr'] of every parameter group, and the rest. *)
Record Optimizer : Type := mkOptimizer {
  param_groups : list R;
  moments : adam_state
}.

Record HIMPPO : Type := mkPPO {
  desired_kl : option R;
  schedule : string;
  learning_rate : R;
  actor_critic : HIMActorCritic;
  storage : option Storage.HIMRolloutStorage;
  optimizer : Optimizer;
  transition : Storage.Transition;
  clip_param : R;
  num_learning_epochs : nat;
  num_mini_batches : nat;
  value_loss_coef : R;
  entropy_coef : R;
  gamma : R;
  lam : R;
  max_grad_norm : R;
  use_clipped_value_loss : bool;
  (** torch's global random generator *)
  generator : rng
}.

(** [optimizer.zero_grad(); loss.backward(); clip_grad_norm_(...);
    optimizer.step()] for [loss], the value of the graph built from this
    minibatch: the new module and the new Adam state. *)
Variable gradient_step :
  HIMPPO -> Storage.MiniBatch -> value -> HIMActorCritic * adam_state.

Definition set_learning_rate v (p : HIMPPO) :=
  let 'mkPPO a b _ d e f g h i j k l m n o q r := p in mkPPO a b v d e f g h i j k l m n o q r.
Definition set_actor_critic v (p : HIMPPO) :=
  let 'mkPPO a b c _ e f g h i j k l m n o q r := p in mkPPO a b c v e f g h i j k l m n o q r.
Definition set_storage v (p : HIMPPO) :=
  let 'mkPPO a b c d _ f g h i j k l m n o q r := p in mkPPO a b c d v f g h i j k l m n o q r.
Definition set_optimizer v (p : HIMPPO) :=
  let 'mkPPO a b c d e _ g h i j k l m n o q r := p in mkPPO a b c d e v g h i j k l m n o q r.
Definition set_transition v (p : HIMPPO) :=
  let 'mkPPO a b c d e f _ h i j k l m n o q r := p in mkPPO a b c d e f v h i j k l m n o q r.
Definition set_generator v (p : HIMPPO) :=
  let 'mkPPO a b c d e f g h i j k l m n o q _ := p in mkPPO a b c d e f g h i j k l m n o q v.

(** Running a method of a component inside a method of [self]. *)
Definition on_actor_critic {A} (m : M HIMActorCritic A) : M HIMPPO A :=
  fun self => let '(r, ac) := m (actor_critic self) in (r, set_actor_critic ac self).

Definition on_actor_critic_rng {A} (m : M (HIMActorCritic * rng) A) : M HIMPPO A :=
  fun self =>
    let '(r, (ac, g)) := m (actor_critic self, generator self) in
    (r, set_generator g (set_actor_critic ac self)).

Definition on_generator {A} (m : M rng A) : M HIMPPO A :=
  fun self => let '(r, g) := m (generator self) in (r, set_generator g self).

(** [self.storage] is [None] until [init_storage]. *)
Definition on_storage {A} (m : M Storage.HIMRolloutStorage A) : M HIMPPO A :=
  fun self =>
    match storage self with
    | None => (Raise AttributeError, self)
    | Some st => let '(r, st') := m st in (r, set_storage (Some st') self)
    end.

Definition on_transition (f : Storage.Transition -> Storage.Transition) : M HIMPPO unit :=
  modify (fun self => set_transition (f (transition self)) self).

Local Open Scope py_scope.

Definition init_storage (num_envs num_transitions_per_env actor_obs_dim : nat)
    (critic_obs_dim : option nat) (action_dim : nat) : M HIMPPO unit :=
  modify (set_storage
            (Some (Storage.init num_envs num_transitions_per_env actor_obs_dim
                                critic_obs_dim action_dim))).

Definition act (obs critic_obs : list vector) : M HIMPPO (list vector) :=
  a <- on_actor_critic_rng (ActorCritic.act actor estimator sample obs) ;;
  on_transition (Storage.with_actions (Some a)) ;;
  self <- get ;;
  on_transition (Storage.with_values
                   (Some (ActorCritic.evaluate critic (actor_critic self) critic_obs))) ;;
  lp <- on_actor_critic (ActorCritic.get_actions_log_prob a) ;;
  on_transition (Storage.with_actions_log_prob (Some lp)) ;;
  m <- on_actor_critic ActorCritic.action_mean ;;
  on_transition (Storage.with_action_mean (Some m)) ;;
  s <- on_actor_critic ActorCritic.action_std ;;
  on_transition (Storage.with_action_sigma (Some s)) ;;
  on_transition (Storage.with_observations (Some obs)) ;;
  on_transition (Storage.with_critic_observations (Some critic_obs)) ;;
  ret a.

(** [self.transition.rewards += self.gamma * squeeze(values * time_outs)]:
    [None * tensor] and [None += tensor] are [TypeError]s. *)
Definition bootstrap_time_outs (time_outs : list bool) : M HIMPPO unit :=
  self <- get ;;
  match Storage.tr_values (transition self), Storage.tr_rewards (transition self) with
  | Some values, Some rewards =>
      on_transition
        (Storage.with_rewards
           (Some (Tensor.add rewards
                    (Tensor.scale (gamma self)
                       (Tensor.mul values (map b2r time_outs))))))
  | _, _ => raise TypeError
  end.

Definition process_env_step (rewards : list R) (dones : list Z)
    (infos : gmap string (list bool)) (next_critic_obs : list vector) : M HIMPPO unit :=
  on_transition (Storage.with_next_critic_observations (Some next_critic_obs)) ;;
  on_transition (Storage.with_rewards (Some rewards)) ;;
  on_transition (Storage.with_dones (Some dones)) ;;
  (match infos !! "time_outs"%string with
   | Some time_outs => bootstrap_time_outs time_outs
   | None => ret tt
   end) ;;
  self <- get ;;
  on_storage (Storage.add_transitions (transition self)) ;;
  on_transition Storage.transition_clear ;;
  on_actor_critic (ActorCritic.reset (Some dones)).

Definition compute_returns (last_critic_obs : list vector) : M HIMPPO unit :=
  self <- get ;;
  let last_values := ActorCritic.evaluate critic (actor_critic self) last_critic_obs in
  on_storage (Storage.compute_returns last_values (gamma self) (lam self)).

(** The block under [# KL]: runs only with a target and the adaptive
    schedule; it ends by writing the rate into every parameter group. *)
Definition schedule_learning_rate (b : Storage.MiniBatch)
    (mu_batch sigma_batch : list vector) : M HIMPPO unit :=
  self <- get ;;
  match desired_kl self with
  | Some target =>
      if String.eqb (schedule self) "adaptive" then
        let kl := kl_divergence mu_batch sigma_batch
                    (Storage.old_mu_batch b) (Storage.old_sigma_batch b) in
        let kl_mean := Tensor.mean kl in
        modify (set_learning_rate
                  (adapt_learning_rate target kl_mean (learning_rate self))) ;;
        modify (fun self =>
                  set_optimizer
                    (mkOptimizer (map (fun _ => learning_rate self)
                                      (param_groups (optimizer self)))
                                 (moments (optimizer self)))
                    self)
      else ret tt
  | None => ret tt
  end.

(** [# Estimator Update] *)
Definition update_estimator (b : Storage.MiniBatch) : M HIMPPO (value * value) :=
  self <- get ;;
  let ac := actor_critic self in
  let '(losses, e) :=
    estimator_update (ActorCritic.estimator_net ac) (Storage.obs_batch b)
      (Storage.next_critic_observations_batch b) (learning_rate self) in
  modify (set_actor_critic
            (ActorCritic.mkActorCritic (ActorCritic.actor_net ac)
               (ActorCritic.critic_net ac) e (ActorCritic.std ac)
               (ActorCritic.distribution ac) (ActorCritic.num_one_step_obs ac))) ;;
  ret losses.

(** [# Gradient step] *)
Definition apply_gradient_step (b : Storage.MiniBatch) (loss : value) : M HIMPPO unit :=
  modify (fun self =>
    let '(ac, st) := gradient_step self b loss in
    set_optimizer (mkOptimizer (param_groups (optimizer self)) st)
                  (set_actor_critic ac self)).

(** The body of the loop of [update] for one minibatch. *)
Definition minibatch_step (b : Storage.MiniBatch) : M HIMPPO Losses :=
  on_actor_critic_rng (ActorCritic.act actor estimator sample (Storage.obs_batch b)) ;;
  actions_log_prob_batch <-
    on_actor_critic (ActorCritic.get_actions_log_prob (Storage.actions_batch b)) ;;
  self <- get ;;
  let value_batch :=
    ActorCritic.evaluate critic (actor_critic self) (Storage.critic_observations_batch b) in
  mu_batch <- on_actor_critic ActorCritic.action_mean ;;
  sigma_batch <- on_actor_critic ActorCritic.action_std ;;
  entropy_batch <- on_actor_critic ActorCritic.entropy ;;
  schedule_learning_rate b mu_batch sigma_batch ;;
  losses <- update_estimator b ;;
  self <- get ;;
  let surrogate_loss :=
    surrogate_loss_of (clip_param self) (Storage.advantages_batch b)
      actions_log_prob_batch (Storage.old_actions_log_prob_batch b) in
  let value_loss :=
    value_loss_of (use_clipped_value_loss self) (clip_param self) value_batch
      (Storage.target_values_batch b) (Storage.returns_batch b) in
  let loss :=
    Tensor.xsub
      (Tensor.xadd surrogate_loss (Tensor.xscale (value_loss_coef self) value_loss))
      (Tensor.xscale (entropy_coef self) (Tensor.mean entropy_batch)) in
  apply_gradient_step b loss ;;
  ret (value_loss, surrogate_loss, fst losses, snd losses).

(** The [for] loop of [update] over the batches the generator yields. *)
Fixpoint sweep (batches : list Storage.MiniBatch) (acc : Sums) : M HIMPPO Sums :=
  match batches with
  | [] => ret acc
  | b :: rest => l <- minibatch_step b ;; sweep rest (accumulate acc l)
  end.

Definition update : M HIMPPO Losses :=
  self <- get ;;
  batches <-
    (match storage self with
     | None => raise AttributeError
     | Some st =>
         on_generator
           (Storage.mini_batch_generator randperm st
              (num_mini_batches self) (num_learning_epochs self))
     end) ;;
  acc <- sweep batches zero_sums ;;
  self <- get ;;
  let num_updates := (num_learning_epochs self * num_mini_batches self)%nat in
  if (num_updates =? 0)%nat then raise ZeroDivisionError
  else
    let mean_value_loss := div_int (mean_value_loss acc) num_updates in
    let mean_surrogate_loss := div_int (mean_surrogate_loss acc) num_updates in
    let mean_estimation_loss := div_int (mean_estimation_loss acc) num_updates in
    let mean_swap_loss := div_int (mean_swap_loss acc) num_updates in
    on_storage Storage.clear ;;
    match estimation_loss acc, swap_loss acc with
    | Some estimation_loss, Some swap_loss =>
        ret (mean_value_loss, mean_surrogate_loss, estimation_loss, swap_loss)
    | _, _ => raise UnboundLocalError
    end.

End Algorithm.
End PPO.

(** ** The networks built by [HIMActorCritic.__init__] *)

Module Architecture.

(** An entry of the list handed to [nn.Sequential]: [nn.Linear] with its
    two sizes, or the activation. *)
Inductive layer : Type :=
| Linear (in_features out_features : nat)
| Activation.

(** The list [actor_layers] (and [critic_layers]) as the constructor
    builds it; [hidden_dims[0]] on an empty list is an [IndexError]. *)
Definition mlp_layers (input_dim : nat) (hidden_dims : list nat) (output_dim : nat)
    : result (list layer) :=
  match hidden_dims with
  | [] => Raise IndexError
  | first :: _ =>
      Ok (fold_left
            (fun layers l =>
               if (l =? length hidden_dims - 1)%nat
               then layers ++ [Linear (nth l hidden_dims 0%nat) output_dim]
               else layers ++ [Linear (nth l hidden_dims 0%nat)
                                      (nth (l + 1) hidden_dims 0%nat);
                               Activation])
            (seq 0 (length hidden_dims))
            [Linear input_dim first; Activation])
  end.

(** What [__init__] computes before any weight is drawn. *)
Record HIMActorCriticShape : Type := mkShape {
  history_size : nat;
  actor : list layer;
  critic : list layer;
  std : list R
}.

(** [__init__]: [int(num_actor_obs / num_one_step_obs)] divides by zero
    when there are no one-step observations. The lookup of the
    activation and the constructor of [HIMEstimator], which are not part
    of this file, are taken to return. *)
Definition init (num_actor_obs num_critic_obs num_one_step_obs num_actions : nat)
    (actor_hidden_dims critic_hidden_dims : list nat) (init_noise_std : R)
    : result HIMActorCriticShape :=
  if (num_one_step_obs =? 0)%nat then Raise ZeroDivisionError
  else
    let history_size := (num_actor_obs / num_one_step_obs)%nat in
    let mlp_input_dim_a := (num_one_step_obs + 3 + 16)%nat in
    let mlp_input_dim_c := num_critic_obs in
    match mlp_layers mlp_input_dim_a actor_hidden_dims num_actions with
    | Raise e => Raise e
    | Ok actor_layers =>
        match mlp_layers mlp_input_dim_c critic_hidden_dims 1 with
        | Raise e => Raise e
        | Ok critic_layers =>
            Ok (mkShape history_size actor_layers critic_layers
                  (map (Rmult init_noise_std) (repeat 1%R num_actions)))
        end
    end.

End Architecture.

(** ** Run directories and command line overrides ([legged_gym.utils.helpers]) *)

Module Helpers.
Local Open Scope string_scope.

(** The exceptions of this module. *)
Inductive error : Type :=
| ValueError (msg : string)
| IndexError
| OSError
| TypeError.

Inductive outcome (A : Type) : Type :=
| Return (a : A)
| Throw (e : error).
Arguments Return {A} a.
Arguments Throw {A} e.

Definition and_then {A B} (x : outcome A) (k : A -> outcome B) : outcome B :=
  match x with
  | Return a => k a
  | Throw e => Throw e
  end.

(** [os.path.isabs] and [os.path.join] of [posixpath], for two
    components. *)
Definition isabs (path : string) : bool :=
  match path with
  | String "/"%char _ => true
  | _ => false
  end.

Fixpoint endswith_sep (path : string) : bool :=
  match path with
  | EmptyString => false
  | String c EmptyString => Ascii.eqb c "/"%char
  | String _ rest => endswith_sep rest
  end.

Definition join (a b : string) : string :=
  if isabs b then b
  else if String.eqb a "" || endswith_sep a then a ++ b
  else a ++ "/" ++ b.

(** [needle in s] for strings. *)
Fixpoint contains (needle s : string) : bool :=
  String.prefix needle s
  || match s with
     | EmptyString => false
     | String _ rest => contains needle rest
     end.

(** ['{0:0>15}'.format(m)]: [m] right-aligned in a field of 15
    characters filled with ['0']; a longer [m] is left as it is. *)
Fixpoint zeros (n : nat) : string :=
  match n with
  | O => ""
  | S n' => String "0"%char (zeros n')
  end.

Definition pad15 (m : string) : string := zeros (15 - String.length m) ++ m.

(** [list.sort(key=...)]: a stable sort, in the order of [str]. *)
Fixpoint insert_by (key : string -> string) (x : string) (sorted : list string)
    : list string :=
  match sorted with
  | [] => [x]
  | y :: rest =>
      if String.leb (key x) (key y) then x :: sorted
      else y :: insert_by key x rest
  end.

Definition sort_by (key : string -> string) (l : list string) : list string :=
  fold_right (insert_by key) [] l.

(** [list.remove(x)], for a list that holds [x]. *)
Fixpoint remove_first (x : string) (l : list string) : list string :=
  match l with
  | [] => []
  | y :: rest => if String.eqb x y then rest else y :: remove_first x rest
  end.

(** [l[-1]] *)
Definition last_item (l : list string) : outcome string :=
  match l with
  | [] => Throw IndexError
  | _ => Return (List.last l "")
  end.

Section FileSystem.
(** [os.listdir]: the names in a directory, or an [OSError]. *)
Variable listdir : string -> outcome (list string).

(** The [try] block of [get_load_path]. *)
Definition last_run (root : string) : outcome string :=
  and_then (listdir root) (fun runs =>
    let runs := sort_by (fun name => name) runs in
    let runs :=
      if existsb (String.eqb "exported") runs then remove_first "exported" runs
      else runs in
    and_then (last_item runs) (fun last => Return (join root last))).

(** [load_run] and [checkpoint] are the integer [-1] or, respectively,
    the name of a run and the number of a checkpoint. The two [print]s
    are left out. *)
Definition get_load_path (root : string) (load_run : Z + string) (checkpoint : Z)
    : outcome string :=
  and_then
    (match load_run with
     | inl number =>
         if (number =? -1)%Z then
           match last_run root with
           | Return last_run => Return last_run
           | Throw _ => Throw (ValueError ("No runs in this directory: " ++ root))
           end
         else Throw TypeError
     | inr name =>
         if isabs name then Return name else Return (join root name)
     end)
    (fun load_run =>
       and_then
         (if (checkpoint =? -1)%Z then
            and_then (listdir load_run) (fun files =>
              let models := List.filter (contains "model") files in
              let models := sort_by pad15 models in
              last_item models)
          else Return ("model_" ++ pretty checkpoint ++ ".pt"))
         (fun model => Return (join load_run model))).

End FileSystem.

(** The fields of the command line that [update_cfg_from_args] reads;
    [None] is an option that was not given. *)
Record Args : Type := mkArgs {
  arg_num_envs : option Z;
  arg_seed : option Z;
  arg_recover_mode : option bool;
  arg_max_iterations : option Z;
  arg_resume : option bool;
  arg_experiment_name : option string;
  arg_run_name : option string;
  arg_load_run : option string;
  arg_checkpoint : option Z
}.

(** The attributes of the two configurations that it assigns. *)
Record EnvCfg : Type := mkEnvCfg {
  env_num_envs : Z;
  env_seed : Z;
  domain_rand_recover_mode : bool
}.

Record RunnerCfg : Type := mkRunnerCfg {
  max_iterations : Z;
  resume : bool;
  experiment_name : string;
  run_name : string;
  load_run : Z + string;
  checkpoint : Z
}.

Record TrainCfg : Type := mkTrainCfg {
  train_seed : Z;
  runner : RunnerCfg
}.

(** [if x is not None: target = x] *)
Definition override {A} (x : option A) (target : A) : A :=
  match x with
  | Some v => v
  | None => target
  end.

(** The truth value of [args.resume]. *)
Definition truthy (x : option bool) : bool :=
  match x with
  | Some true => true
  | _ => false
  end.

Definition update_cfg_from_args (env_cfg : option EnvCfg) (cfg_train : option TrainCfg)
    (args : Args) : option EnvCfg * option TrainCfg :=
  (match env_cfg with
   | Some env_cfg =>
       Some (mkEnvCfg (override (arg_num_envs args) (env_num_envs env_cfg))
                      (override (arg_seed args) (env_seed env_cfg))
                      (override (arg_recover_mode args)
                                (domain_rand_recover_mode env_cfg)))
   | None => None
   end,
   match cfg_train with
   | Some cfg_train =>
       let r := runner cfg_train in
       Some (mkTrainCfg
               (override (arg_seed args) (train_seed cfg_train))
               (mkRunnerCfg
                  (override (arg_max_iterations args) (max_iterations r))
                  (if truthy (arg_resume args) then true else resume r)
                  (override (arg_experiment_name args) (experiment_name r))
                  (override (arg_run_name args) (run_name r))
                  (override (inr <$> arg_load_run args) (load_run r))
                  (override (arg_checkpoint args) (checkpoint r))))
   | None => None
   end).

(** A command line without options. *)
Definition no_args : Args :=
  mkArgs None None None None None None None None None.

(** A directory tree for examples: two runs and an export directory
    under ["logs"], and three checkpoints in the later run. *)
Definition example_listdir (path : string) : outcome (list string) :=
  if String.eqb path "logs" then Return ["Nov01"; "exported"; "Nov02"]
  else if String.eqb path "logs/Nov02"
       then Return ["model_900.pt"; "events.out"; "model_1000.pt"; "model_50.pt"]
       else Throw OSError.

End Helpers.


(** * Properties *)

(** ** Vocabulary *)

Module Spec.
Import Storage.

(** Every buffer has its [num_transitions_per_env] rows, as allocated by
    the constructor, and the counter is within them. *)
Record wf (s : HIMRolloutStorage) : Prop := mkWf {
  wf_observations : length (observations s) = num_transitions_per_env s;
  wf_privileged : forall p, privileged_observations s = Some p ->
                            length p = num_transitions_per_env s;
  wf_next_privileged : forall p, next_privileged_observations s = Some p ->
                                 length p = num_transitions_per_env s;
  wf_rewards : length (rewards s) = num_transitions_per_env s;
  wf_actions : length (actions s) = num_transitions_per_env s;
  wf_dones : length (dones s) = num_transitions_per_env s;
  wf_actions_log_prob : length (actions_log_prob s) = num_transitions_per_env s;
  wf_values : length (values s) = num_transitions_per_env s;
  wf_returns : length (returns s) = num_transitions_per_env s;
  wf_advantages : length (advantages s) = num_transitions_per_env s;
  wf_mu : length (mu s) = num_transitions_per_env s;
  wf_sigma : length (sigma s) = num_transitions_per_env s;
  wf_step : step s <= num_transitions_per_env s
}.

(** A transition with every field assigned. *)
Definition complete (t : Transition) : Prop :=
  is_Some (tr_observations t) /\ is_Some (tr_critic_observations t) /\
  is_Some (tr_actions t) /\ is_Some (tr_rewards t) /\ is_Some (tr_dones t) /\
  is_Some (tr_values t) /\ is_Some (tr_actions_log_prob t) /\
  is_Some (tr_action_mean t) /\ is_Some (tr_action_sigma t) /\
  is_Some (tr_next_critic_observations t).






(** Every row of the buffers read by [compute_returns] has one entry per
    environment. *)
Definition shaped (s : HIMRolloutStorage) : Prop :=
  Forall (fun row => length row = num_envs s) (rewards s) /\
  Forall (fun row => length row = num_envs s) (values s) /\
  Forall (fun row => length row = num_envs s) (dones s).

(** Generalized advantage estimation as the recursion reads, for one
    environment [n]: the quantities of time [t], and the accumulated
    advantage after the passes for times [t], ..., [T - 1], of which there
    are [k]. *)
Section GAE.
Variable s : HIMRolloutStorage.
Variable last_values : list R.
Variables gamma lam : R.
Local Open Scope R_scope.

Definition reward_at (t n : nat) : R := nth n (nth t (rewards s) []) 0.
Definition value_at (t n : nat) : R := nth n (nth t (values s) []) 0.
Definition done_at (t n : nat) : R := IZR (nth n (nth t (dones s) []) 0%Z).

Definition next_value (t n : nat) : R :=
  if (t =? num_transitions_per_env s - 1)%nat then nth n last_values 0
  else value_at (t + 1) n.

Definition mask (t n : nat) : R := 1 - done_at t n.

Definition delta (t n : nat) : R :=
  reward_at t n + mask t n * gamma * next_value t n - value_at t n.

Fixpoint gae_advantage (k t n : nat) : R :=
  match k with
  | O => 0
  | S k' => delta t n + mask t n * gamma * lam * gae_advantage k' (S t) n
  end.

Definition gae_return (t n : nat) : R :=
  gae_advantage (num_transitions_per_env s - t) t n + value_at t n.

(** [returns - values], entry by entry. *)
Definition raw_advantages : list (list R) :=
  map (fun t => map (fun n => gae_return t n - value_at t n) (seq 0 (num_envs s)))
      (seq 0 (num_transitions_per_env s)).
End GAE.

(** Entry [n] of the local [advantage], and its shape once it is a
    tensor. *)
Definition entry (a : accumulator) (n : nat) : R :=
  match a with
  | Scalar r => r
  | Row v => nth n v 0%R
  end.

Definition row_of (N : nat) (a : accumulator) : Prop :=
  match a with
  | Scalar _ => True
  | Row v => length v = N
  end.

(** Two small rollouts of one step, filled through [add_transitions]:
    one environment, and two environments; every episode ends at the
    step. *)
Definition single_sample_transition : Transition :=
  {| tr_observations := Some [[0%R]];
     tr_critic_observations := Some [[0%R]];
     tr_actions := Some [[0%R]];
     tr_rewards := Some [1%R];
     tr_dones := Some [1%Z];
     tr_values := Some [0.5%R];
     tr_actions_log_prob := Some [0%R];
     tr_action_mean := Some [[0%R]];
     tr_action_sigma := Some [[1%R]];
     tr_next_critic_observations := Some [[0%R]] |}.

Definition single_sample_storage : HIMRolloutStorage :=
  exec (add_transitions single_sample_transition) (init 1 1 1 None 1).

Definition two_sample_transition : Transition :=
  {| tr_observations := Some [[1%R]; [3%R]];
     tr_critic_observations := Some [[0%R]; [0%R]];
     tr_actions := Some [[0%R]; [0%R]];
     tr_rewards := Some [1%R; 2%R];
     tr_dones := Some [1%Z; 1%Z];
     tr_values := Some [0.5%R; 0.25%R];
     tr_actions_log_prob := Some [0%R; 0%R];
     tr_action_mean := Some [[0%R]; [0%R]];
     tr_action_sigma := Some [[1%R]; [1%R]];
     tr_next_critic_observations := Some [[0%R]; [0%R]] |}.

Definition two_sample_storage : HIMRolloutStorage :=
  exec (add_transitions two_sample_transition) (init 2 1 1 None 1).

(** *** Minibatches *)

(** Every tensor of the tuple has [n] rows. *)
Definition batch_rows (n : nat) (b : MiniBatch) : Prop :=
  length (obs_batch b) = n /\ length (critic_observations_batch b) = n /\
  length (actions_batch b) = n /\ length (next_critic_observations_batch b) = n /\
  length (target_values_batch b) = n /\ length (advantages_batch b) = n /\
  length (returns_batch b) = n /\ length (old_actions_log_prob_batch b) = n /\
  length (old_mu_batch b) = n /\ length (old_sigma_batch b) = n.

(** The index chunks are pairwise disjoint. *)
Definition pairwise_disjoint (chunks : list (list nat)) : Prop :=
  forall i j ci cj x,
    chunks !! i = Some ci -> chunks !! j = Some cj -> i <> j ->
    In x ci -> ~ In x cj.

Section FreshPermutations.
Context {rng : Type}.
Variable randperm : nat -> rng -> list nat * rng.

(** The generator as the specification words it: a fresh permutation is
    drawn for each epoch pass. *)
Fixpoint fresh_epochs (self : HIMRolloutStorage)
    (critic_observations next_critic_observations : list vector)
    (num_mini_batches mini_batch_size num_epochs : nat) : M rng (list MiniBatch) :=
  match num_epochs with
  | O => ret []
  | S epochs =>
      bind (fun g => let '(p, g') := randperm (num_mini_batches * mini_batch_size) g
                     in (Ok p, g'))
        (fun indices =>
           bind (fresh_epochs self critic_observations next_critic_observations
                   num_mini_batches mini_batch_size epochs)
             (fun rest =>
                ret (map (make_batch self critic_observations next_critic_observations)
                         (index_chunks indices num_mini_batches mini_batch_size)
                     ++ rest)))
  end.

Definition fresh_permutation_generator (self : HIMRolloutStorage)
    (num_mini_batches num_epochs : nat) : M rng (list MiniBatch) :=
  let batch_size := num_envs self * num_transitions_per_env self in
  if num_mini_batches =? 0 then raise ZeroDivisionError
  else
    let mini_batch_size := batch_size / num_mini_batches in
    bind (fun g => (critic_views self, g))
      (fun views =>
         fresh_epochs self (fst views) (snd views)
           num_mini_batches mini_batch_size num_epochs).
End FreshPermutations.

(** A random generator for examples: its state counts the draws, and the
    permutation drawn in state [g] is the identity rotated by [g]. *)
Definition counting_randperm (n : nat) (g : nat) : list nat * nat :=
  (rotate g (seq 0 n), S g).

(** A storage of three samples. *)
Definition three_sample_storage : HIMRolloutStorage := init 3 1 1 None 1.

(** *** PPO *)

(** The reward recorded for one environment, as the specification words
    it: bootstrapped on a set time-out flag, unchanged otherwise. *)
Definition recorded_reward (gamma reward value : R) (timed_out : option bool) : R :=
  match timed_out with
  | Some true => (reward + gamma * value)%R
  | _ => reward
  end.

(** The components of what one pass computes. *)
Definition value_loss_of_pass (l : PPO.Losses) : value := fst (fst (fst l)).
Definition surrogate_loss_of_pass (l : PPO.Losses) : value := snd (fst (fst l)).
Definition estimation_loss_of_pass (l : PPO.Losses) : value := snd (fst l).
Definition swap_loss_of_pass (l : PPO.Losses) : value := snd l.

(** The running sum of one component over the passes, from [0]. *)
Definition total (component : PPO.Losses -> value) (passes : list PPO.Losses) : value :=
  fold_left Tensor.xadd (map component passes) (Fin 0).

(** The mean of one component over the passes. *)
Definition mean_loss (component : PPO.Losses -> value) (passes : list PPO.Losses)
    : value :=
  PPO.div_int (total component passes) (length passes).

(** The last pass of a sweep. *)
Definition last_pass (passes : list PPO.Losses) : PPO.Losses :=
  List.last passes (NaN, NaN, NaN, NaN).

Section Sweep.
Context {actor_params critic_params estimator_params rng adam_state : Type}.
Variable actor : actor_params -> list vector -> list vector.
Variable critic : critic_params -> list vector -> list R.
Variable estimator : estimator_params -> list vector -> list vector * list vector.
Variable sample : ActorCritic.Normal -> rng -> list vector * rng.
Variable estimator_update :
  estimator_params -> list vector -> list vector -> R -> (value * value) * estimator_params.
Variable gradient_step :
  @PPO.HIMPPO actor_params critic_params estimator_params rng adam_state ->
  MiniBatch -> value ->
  @ActorCritic.HIMActorCritic actor_params critic_params estimator_params * adam_state.

(** What the passes over the batches compute, in order, from a state. *)
Fixpoint sweep_losses (batches : list MiniBatch)
    (self : @PPO.HIMPPO actor_params critic_params estimator_params rng adam_state)
    : list PPO.Losses :=
  match batches with
  | [] => []
  | b :: rest =>
      match PPO.minibatch_step actor critic estimator sample estimator_update
              gradient_step b self with
      | (Ok l, self') => l :: sweep_losses rest self'
      | (Raise _, _) => []
      end
  end.
End Sweep.

(** A small instance: networks without weights, an estimator whose loss
    on a batch is the first entry of its first observation, a
    deterministic [sample], and a gradient step that changes nothing. *)
Module Toy.
Definition actor (_ : unit) (x : list vector) : list vector := map (fun _ => [0%R]) x.
Definition critic (_ : unit) (x : list vector) : list R := map (fun _ => 0%R) x.
Definition estimator (_ : unit) (x : list vector) : list vector * list vector :=
  (map (fun _ => []) x, map (fun _ => []) x).
Definition sample (d : ActorCritic.Normal) (g : nat) : list vector * nat :=
  (ActorCritic.loc d, g).
Definition estimator_update (e : unit) (obs next_critic_obs : list vector) (lr : R)
    : (value * value) * unit :=
  ((Fin (nth 0 (nth 0 obs []) 0%R), Fin 0), e).
Definition gradient_step (self : @PPO.HIMPPO unit unit unit nat unit) (b : MiniBatch)
    (loss : value) : @ActorCritic.HIMActorCritic unit unit unit * unit :=
  (PPO.actor_critic self, tt).

(** One epoch of two minibatches over the two-sample rollout, with the
    fixed schedule. *)
Definition ppo : @PPO.HIMPPO unit unit unit nat unit :=
  {| PPO.desired_kl := Some 0.01%R;
     PPO.schedule := "fixed";
     PPO.learning_rate := 1e-3%R;
     PPO.actor_critic := ActorCritic.mkActorCritic tt tt tt [1%R] None 1;
     PPO.storage := Some two_sample_storage;
     PPO.optimizer := PPO.mkOptimizer [1e-3%R] tt;
     PPO.transition := empty_transition;
     PPO.clip_param := 0.2%R;
     PPO.num_learning_epochs := 1;
     PPO.num_mini_batches := 2;
     PPO.value_loss_coef := 1%R;
     PPO.entropy_coef := 0.01%R;
     PPO.gamma := 0.99%R;
     PPO.lam := 0.95%R;
     PPO.max_grad_norm := 1%R;
     PPO.use_clipped_value_loss := true;
     PPO.generator := 0 |}.
(** The same with the adaptive schedule. *)
Definition adaptive : @PPO.HIMPPO unit unit unit nat unit :=
  PPO.mkPPO (Some 0.01%R) "adaptive" 1e-3%R
    (ActorCritic.mkActorCritic tt tt tt [1%R] None 1)
    (Some two_sample_storage) (PPO.mkOptimizer [1e-3%R] tt) empty_transition
    0.2%R 1 2 1%R 0.01%R 0.99%R 0.95%R 1%R true 0.

(** A state between [act] and [process_env_step]: an empty storage of
    one step for two environments, and the fields of [act] in the
    transition. *)
Definition acting : @PPO.HIMPPO unit unit unit nat unit :=
  PPO.mkPPO (Some 0.01%R) "fixed" 1e-3%R
    (ActorCritic.mkActorCritic tt tt tt [1%R] None 1)
    (Some (init 2 1 1 None 1)) (PPO.mkOptimizer [1e-3%R] tt)
    (mkTransition (Some [[1%R]; [3%R]]) (Some [[1%R]; [3%R]]) (Some [[0%R]; [0%R]])
       None None (Some [0.5%R; 0.25%R]) (Some [0%R; 0%R])
       (Some [[0%R]; [0%R]]) (Some [[1%R]; [1%R]]) None)
    0.2%R 1 2 1%R 0.01%R 0.99%R 0.95%R 1%R true 0.
End Toy.

End Spec.

(** ** Further vocabulary *)

Module Notions.
Import Spec.
Import Storage.

(** *** Rollout storage *)

(** A buffer after a call that may only have touched row [i]. *)
Definition same_except {A} (i : nat) (before after : list A) : Prop :=
  length after = length before /\ forall j, j <> i -> after !! j = before !! j.




(** The returns of the backward recursion, as a buffer. *)
Definition gae_returns (s : HIMRolloutStorage) (last_values : list R) (gamma lam : R)
    : list (list R) :=
  map (fun t => map (gae_return s last_values gamma lam t) (seq 0 (num_envs s)))
      (seq 0 (num_transitions_per_env s)).

(** The return that follows time [t] in a buffer of returns: the
    bootstrap value after the last step. *)
Definition next_return (s : HIMRolloutStorage) (last_values : list R)
    (returns : list (list R)) (t n : nat) : R :=
  if (t =? num_transitions_per_env s - 1)%nat then nth n last_values 0%R
  else nth n (nth (t + 1) returns []) 0%R.

(** The done flags environment by environment, as [get_statistics] reads
    them. *)
Definition env_major (done : list (list Z)) (num_envs : nat) : list Z :=
  flat_map (fun n => map (fun row => nth n row 0%Z) done) (seq 0 num_envs).

(** Every row of every buffer has one entry per environment. *)
Definition uniform {A} (N : nat) (buffer : list (list A)) : Prop :=
  Forall (fun row => length row = N) buffer.

Definition shaped_all (s : HIMRolloutStorage) : Prop :=
  uniform (num_envs s) (observations s) /\
  uniform (num_envs s) (actions s) /\
  uniform (num_envs s) (values s) /\
  uniform (num_envs s) (advantages s) /\
  uniform (num_envs s) (returns s) /\
  uniform (num_envs s) (actions_log_prob s) /\
  uniform (num_envs s) (mu s) /\
  uniform (num_envs s) (sigma s).

(** Sample [i] of the flattened buffers: environment [i mod N] at time
    [i / N]. *)
Definition sample_of {A} (d : A) (buffer : list (list A)) (N i : nat) : A :=
  nth (i mod N) (nth (i / N) buffer []) d.

End Notions.

(** *** The training loop *)

Module Loop.
Section Loop.
Context {actor_params critic_params estimator_params rng adam_state : Type}.
Variable actor : actor_params -> list vector -> list vector.
Variable critic : critic_params -> list vector -> list R.
Variable estimator : estimator_params -> list vector -> list vector * list vector.
Variable sample : ActorCritic.Normal -> rng -> list vector * rng.
Variable randperm : nat -> rng -> list nat * rng.
Variable estimator_update :
  estimator_params -> list vector -> list vector -> R -> (value * value) * estimator_params.
Variable gradient_step :
  @PPO.HIMPPO actor_params critic_params estimator_params rng adam_state ->
  Storage.MiniBatch -> value ->
  @ActorCritic.HIMActorCritic actor_params critic_params estimator_params * adam_state.






(** The target of the adaptive schedule, when it is in force. *)
Definition adaptive_target
    (self : @PPO.HIMPPO actor_params critic_params estimator_params rng adam_state)
    : option R :=
  match PPO.desired_kl self with
  | Some target =>
      if String.eqb (PPO.schedule self) "adaptive" then Some target else None
  | None => None
  end.

End Loop.
End Loop.

(** *** Small instances *)

Module Cases.
Import Storage.

(** The instance [Toy.ppo] with no minibatches. *)
Definition no_batches : @PPO.HIMPPO unit unit unit nat unit :=
  PPO.mkPPO (Some 0.01%R) "fixed" 1e-3%R
    (ActorCritic.mkActorCritic tt tt tt [1%R] None 1)
    (Some Spec.two_sample_storage) (PPO.mkOptimizer [1e-3%R] tt) empty_transition
    0.2%R 1 0 1%R 0.01%R 0.99%R 0.95%R 1%R true 0.




End Cases.

(** *** Networks, sorted lists *)

Module Shapes.
Import Architecture.

(** A list of layers that takes [input] features to [output] features:
    every [Linear] takes what the one before it gives. *)
Fixpoint chain (input : nat) (layers : list layer) (output : nat) : Prop :=
  match layers with
  | [] => input = output
  | Linear a b :: rest => a = input /\ chain b rest output
  | Activation :: rest => chain input rest output
  end.

Definition is_linear (l : layer) : bool :=
  match l with
  | Linear _ _ => true
  | Activation => false
  end.

(** A list in the order of its keys: no entry has a key above that of a
    later entry. *)
Fixpoint ordered (key : string -> string) (l : list string) : Prop :=
  match l with
  | [] => True
  | x :: rest =>
      (forall y, In y rest -> String.leb (key x) (key y) = true) /\ ordered key rest
  end.

End Shapes.

(** ** Rollout storage: counter and slots *)

Import Storage Spec.

Lemma add_transitions_full t s :
  num_transitions_per_env s <= step s ->
  add_transitions t s = (Raise (AssertionError "Rollout buffer overflow"), s).
Proof.
  intros Hfull. unfold add_transitions, bind, get.
  destruct (Nat.leb_spec (num_transitions_per_env s) (step s)); [reflexivity | lia].
Qed.

(** Unfolding a method of the storage on a state given by its fields. *)
Ltac run_storage :=
  lazy beta iota zeta delta
    [exec fst snd add_transitions clear bind get modify copy_arg view_arg ret raise
     set_observations set_privileged_observations set_next_privileged_observations
     set_rewards set_actions set_dones set_actions_log_prob set_values set_returns
     set_advantages set_mu set_sigma set_step
     step num_transitions_per_env num_envs observations privileged_observations
     next_privileged_observations rewards actions dones actions_log_prob values returns
     advantages mu sigma tr_observations tr_critic_observations tr_actions tr_rewards
     tr_dones tr_values tr_actions_log_prob tr_action_mean tr_action_sigma
     tr_next_critic_observations fmap option_fmap option_map].

(** What a returning call has done, field by field. *)
Lemma add_transitions_returns t s s' :
  add_transitions t s = (Ok tt, s') ->
  step s < num_transitions_per_env s /\
  step s' = step s + 1 /\
  num_transitions_per_env s' = num_transitions_per_env s /\
  num_envs s' = num_envs s /\
  returns s' = returns s /\
  advantages s' = advantages s /\
  (exists x, tr_observations t = Some x /\
             observations s' = <[step s := x]> (observations s)) /\
  (match privileged_observations s with
   | Some p => exists x, tr_critic_observations t = Some x /\
                         privileged_observations s' = Some (<[step s := x]> p)
   | None => privileged_observations s' = None
   end) /\
  (match next_privileged_observations s with
   | Some p => exists x, tr_next_critic_observations t = Some x /\
                         next_privileged_observations s' = Some (<[step s := x]> p)
   | None => next_privileged_observations s' = None
   end) /\
  (exists x, tr_actions t = Some x /\ actions s' = <[step s := x]> (actions s)) /\
  (exists x, tr_rewards t = Some x /\ rewards s' = <[step s := x]> (rewards s)) /\
  (exists x, tr_dones t = Some x /\
             dones s' = <[step s := map to_byte x]> (dones s)) /\
  (exists x, tr_values t = Some x /\ values s' = <[step s := x]> (values s)) /\
  (exists x, tr_actions_log_prob t = Some x /\
             actions_log_prob s' = <[step s := x]> (actions_log_prob s)) /\
  (exists x, tr_action_mean t = Some x /\ mu s' = <[step s := x]> (mu s)) /\
  (exists x, tr_action_sigma t = Some x /\ sigma s' = <[step s := x]> (sigma s)).
Proof.
  destruct s as [o p np r a d lp v rt adv m sg T N st].
  destruct t as [to tc ta tr td tv tlp tm ts tn].
  run_storage.
  destruct (Nat.leb_spec T st) as [|Hlt]; [discriminate|].
  destruct to; [|discriminate].
  destruct p; [destruct tc; [|discriminate]|];
  (destruct np; [destruct tn; [|discriminate]|]);
  (destruct ta; [|discriminate]); (destruct tr; [|discriminate]);
  (destruct td; [|discriminate]); (destruct tv; [|discriminate]);
  (destruct tlp; [|discriminate]); (destruct tm; [|discriminate]);
  (destruct ts; [|discriminate]);
  intros [= <-]; run_storage; repeat split; eauto.
Qed.

Lemma add_transitions_complete t s :
  step s < num_transitions_per_env s -> complete t ->
  exists s', add_transitions t s = (Ok tt, s').
Proof.
  intros Hlt (Ho & Hc & Ha & Hr & Hd & Hv & Hlp & Hm & Hs & Hn).
  destruct s as [o p np r a d lp v rt adv m sg T N st].
  destruct t as [to tc ta tr td tv tlp tm ts tn]. cbn in *.
  destruct Ho as [? ->], Hc as [? ->], Ha as [? ->], Hr as [? ->], Hd as [? ->],
           Hv as [? ->], Hlp as [? ->], Hm as [? ->], Hs as [? ->], Hn as [? ->].
  run_storage.
  destruct (Nat.leb_spec T st); [lia|].
  destruct p, np; run_storage; eauto.
Qed.

Ltac close_wf :=
  run_storage; constructor; run_storage; rewrite ?length_insert;
  try done; try lia; try (intros ? [= <-]; eauto).
Ltac fork x := destruct x; [|solve [close_wf]].

(** The shape of the buffers and the bound on the counter survive every
    call, also one that raises after some of its writes. *)
Lemma add_transitions_wf t s : wf s -> wf (exec (add_transitions t) s).
Proof.
  intros [].
  destruct s as [o p np r a d lp v rt adv m sg T N st].
  destruct t as [to tc ta tr td tv tlp tm ts tn]. cbn in *.
  run_storage.
  destruct (Nat.leb_spec T st) as [|Hlt]; [by constructor|].
  assert (Hp : forall x q, p = Some q -> length (<[st := x]> q) = T)
    by (intros; rewrite length_insert; auto).
  assert (Hnp : forall x q, np = Some q -> length (<[st := x]> q) = T)
    by (intros; rewrite length_insert; auto).
  fork to.
  destruct p; [fork tc|]; (destruct np; [fork tn|]);
    fork ta; fork tr; fork td; fork tv; fork tlp; fork tm; fork ts; close_wf.
Qed.


Lemma gae_loop_length self last_values gamma lam steps acc :
  length (snd (fold_left (gae_step self last_values gamma lam) steps acc))
  = length (snd acc).
Proof.
  revert acc. induction steps as [|t steps IH]; intros [adv rt]; [reflexivity|].
  cbn [fold_left]. rewrite IH. unfold gae_step. cbn. apply length_insert.
Qed.

Lemma normalize_length adv : length (normalize adv) = length adv.
Proof.
  unfold normalize.
  destruct (Tensor.mean _); [destruct (Tensor.std _)|]; apply length_map.
Qed.

Lemma compute_returns_wf last_values gamma lam s :
  wf s -> wf (exec (compute_returns last_values gamma lam) s).
Proof.
  intros [].
  unfold exec, compute_returns, modify. cbn.
  pose proof (gae_loop_length s last_values gamma lam
                (rev (seq 0 (num_transitions_per_env s))) (Scalar 0, returns s)) as Hlen.
  destruct (fold_left _ _ _) as [adv rt]. cbn in Hlen.
  destruct s as [o p np r a d lp v rt0 adv0 m sg T N st]. cbn in *.
  constructor; cbn; try done.
  - lia.
  - rewrite normalize_length, length_zip_with. lia.
Qed.

Lemma get_statistics_state s :
  exec get_statistics s = s \/
  exists row, exec get_statistics s
              = set_dones (<[length (dones s) - 1 := row]> (dones s)) s.
Proof.
  unfold exec, get_statistics, bind, get, modify, ret, raise. cbn [fst snd].
  destruct (length (dones s) =? 0); [by left|]. right. eauto.
Qed.

Lemma get_statistics_wf s : wf s -> wf (exec get_statistics s).
Proof.
  intros Hwf. destruct (get_statistics_state s) as [->|[row ->]]; [done|].
  destruct Hwf. destruct s. cbn in *.
  constructor; cbn; rewrite ?length_insert; done.
Qed.

Lemma init_wf num_envs T obs_dim privileged_obs_dim actions_dim :
  wf (init num_envs T obs_dim privileged_obs_dim actions_dim).
Proof.
  constructor; cbn; rewrite ?repeat_length; try done; try lia;
    destruct privileged_obs_dim; intros ? [= <-]; apply repeat_length.
Qed.






(** C10: a call on a full buffer raises the overflow error and leaves
    the storage, counter and every buffer, exactly as it was. *)
Theorem add_transitions_overflow_unchanged (t : Transition) (s : HIMRolloutStorage) :
  step s >= num_transitions_per_env s ->
  add_transitions t s = (Raise (AssertionError "Rollout buffer overflow"), s) /\
  exec (add_transitions t) s = s.
Proof.
  intros Hfull. unfold exec. rewrite add_transitions_full by lia. auto.
Qed.



Lemma add_transitions_overflow_unchanged_witness :
  step single_sample_storage >= num_transitions_per_env single_sample_storage /\
  add_transitions two_sample_transition single_sample_storage
  = (Raise (AssertionError "Rollout buffer overflow"), single_sample_storage).
Proof.
  assert (H : step single_sample_storage
              >= num_transitions_per_env single_sample_storage) by (cbn; lia).
  split; [exact H|].
  exact (proj1 (add_transitions_overflow_unchanged two_sample_transition
                  single_sample_storage H)).
Defined.


(** ** Returns and advantages *)

Lemma nth_zip_with {A B C} (f : A -> B -> C) (a : list A) (b : list B) n da db dc :
  n < length a -> n < length b ->
  nth n (zip_with f a b) dc = f (nth n a da) (nth n b db).
Proof.
  revert b n. induction a as [|x a IH]; intros [|y b] [|n] Ha Hb; cbn in *;
    try lia; [reflexivity|]. apply IH; lia.
Qed.

Lemma nth_map_lt {A B} (f : A -> B) (l : list A) n d d' :
  n < length l -> nth n (map f l) d' = f (nth n l d).
Proof.
  revert n. induction l as [|x l IH]; intros [|n] Hn; cbn in *;
    try lia; [reflexivity|]. apply IH; lia.
Qed.

Lemma length_add a b : length (Tensor.add a b) = Nat.min (length a) (length b).
Proof. apply length_zip_with. Qed.
Lemma length_sub a b : length (Tensor.sub a b) = Nat.min (length a) (length b).
Proof. apply length_zip_with. Qed.
Lemma length_mul a b : length (Tensor.mul a b) = Nat.min (length a) (length b).
Proof. apply length_zip_with. Qed.
Lemma length_mul_float a c : length (mul_float a c) = length a.
Proof. apply length_map. Qed.

Lemma nth_add a b n :
  n < length a -> n < length b ->
  nth n (Tensor.add a b) 0%R = (nth n a 0 + nth n b 0)%R.
Proof. apply nth_zip_with. Qed.
Lemma nth_sub a b n :
  n < length a -> n < length b ->
  nth n (Tensor.sub a b) 0%R = (nth n a 0 - nth n b 0)%R.
Proof. apply nth_zip_with. Qed.
Lemma nth_mul a b n :
  n < length a -> n < length b ->
  nth n (Tensor.mul a b) 0%R = (nth n a 0 * nth n b 0)%R.
Proof. apply nth_zip_with. Qed.
Lemma nth_mul_float a c n :
  n < length a -> nth n (mul_float a c) 0%R = (nth n a 0 * c)%R.
Proof. intros Hn. unfold mul_float. by rewrite (nth_map_lt _ _ _ 0%R). Qed.

Lemma row_length {A} (rows : list (list A)) N t :
  Forall (fun row => length row = N) rows -> t < length rows ->
  length (nth t rows []) = N.
Proof. intros Hall Ht. by apply (proj1 (Forall_nth _ [] rows) Hall). Qed.

Ltac shape :=
  repeat first [ rewrite length_add | rewrite length_sub | rewrite length_mul
               | rewrite length_mul_float | rewrite List.length_map ].

Lemma fold_left_rev {A B} (f : A -> B -> A) (l : list B) (a : A) :
  fold_left f (rev l) a = fold_right (fun b acc => f acc b) a l.
Proof.
  rewrite <- (rev_involutive l) at 2. by rewrite fold_left_rev_right.
Qed.

Section Returns.
Variable s : HIMRolloutStorage.
Variable last_values : list R.
Variables gamma lam : R.
Hypothesis Hwf : wf s.
Hypothesis Hshaped : shaped s.
Hypothesis Hlast : length last_values = num_envs s.
Local Open Scope R_scope.

Local Abbreviation T := (num_transitions_per_env s).
Local Abbreviation N := (num_envs s).

Lemma rewards_row t : (t < T)%nat -> length (nth t (rewards s) []) = N.
Proof.
  intros Ht. destruct Hshaped as (H & _ & _), Hwf.
  apply row_length; [done | lia].
Qed.

Lemma values_row t : (t < T)%nat -> length (nth t (values s) []) = N.
Proof.
  intros Ht. destruct Hshaped as (_ & H & _), Hwf.
  apply row_length; [done | lia].
Qed.

Lemma dones_row t : (t < T)%nat -> length (nth t (dones s) []) = N.
Proof.
  intros Ht. destruct Hshaped as (_ & _ & H), Hwf.
  apply row_length; [done | lia].
Qed.

(** One pass of the loop, entry by entry. *)
Lemma gae_step_entries acc rt t :
  (t < T)%nat -> row_of N acc ->
  exists v,
    gae_step s last_values gamma lam (acc, rt) t
    = (Row v, <[t := Tensor.add v (nth t (values s) [])]> rt) /\
    length v = N /\
    forall n, (n < N)%nat ->
      nth n v 0 = delta s last_values gamma t n
                  + mask s t n * gamma * lam * entry acc n.
Proof.
  intros Ht Hacc. unfold gae_step. cbv zeta. eexists. split; [reflexivity|].
  pose proof (rewards_row t Ht) as Hr.
  pose proof (values_row t Ht) as Hv.
  pose proof (dones_row t Ht) as Hd.
  assert (Hnv : length (if (t =? T - 1)%nat then last_values
                        else nth (t + 1) (values s) []) = N).
  { destruct (Nat.eqb_spec t (T - 1)); [done|]. apply values_row. lia. }
  assert (Hmacc : forall m, length m = N -> length (mul_accumulator m acc) = N).
  { intros m Hm. destruct acc as [r|v]; cbn in *; shape; lia. }
  assert (Hent : forall m n, length m = N -> (n < N)%nat ->
            nth n (mul_accumulator m acc) 0 = nth n m 0 * entry acc n).
  { intros m n Hm Hn. destruct acc as [r|v]; cbn in *.
    - apply (nth_map_lt (fun x => x * r)). lia.
    - apply nth_mul; lia. }
  split.
  - shape. rewrite Hmacc by (shape; lia). rewrite Hr, Hv, Hd, Hnv. lia.
  - intros n Hn.
    rewrite nth_add; [| shape; rewrite Hr, Hv, Hd, Hnv; lia
                      | rewrite Hmacc by (shape; lia); lia].
    rewrite Hent by (shape; lia).
    rewrite nth_sub by (shape; rewrite ?Hr, ?Hv, ?Hd, ?Hnv; lia).
    rewrite nth_add by (shape; rewrite ?Hr, ?Hv, ?Hd, ?Hnv; lia).
    rewrite nth_mul by (shape; rewrite ?Hr, ?Hv, ?Hd, ?Hnv; lia).
    rewrite !nth_mul_float by (shape; rewrite ?Hd; lia).
    rewrite (nth_map_lt _ _ _ 0%Z) by lia.
    unfold delta, mask, done_at, reward_at, value_at, next_value.
    destruct (Nat.eqb_spec t (T - 1)); reflexivity.
Qed.

Lemma nth_insert_eq {A} (l : list A) i x d :
  (i < length l)%nat -> nth i (<[i := x]> l) d = x.
Proof. intros Hi. by rewrite nth_lookup, list_lookup_insert_eq. Qed.

Lemma nth_insert_ne {A} (l : list A) i j x d :
  i <> j -> nth j (<[i := x]> l) d = nth j l d.
Proof. intros Hij. by rewrite !nth_lookup, list_lookup_insert_ne. Qed.

(** The loop after the passes for times [a + k - 1] down to [a]. *)
Lemma gae_loop k : forall a, (a + k = T)%nat ->
  exists acc rt,
    fold_right (fun t st => gae_step s last_values gamma lam st t)
               (Scalar 0, returns s) (seq a k) = (acc, rt) /\
    row_of N acc /\
    (forall n, (n < N)%nat -> entry acc n = gae_advantage s last_values gamma lam k a n) /\
    length rt = T /\
    (forall t, (a <= t < T)%nat ->
       length (nth t rt []) = N /\
       forall n, (n < N)%nat ->
         nth n (nth t rt []) 0 = gae_return s last_values gamma lam t n) /\
    (forall t, (t < a)%nat -> nth t rt [] = nth t (returns s) []).
Proof.
  induction k as [|k IH]; intros a Hak.
  - exists (Scalar 0), (returns s). cbn. repeat split; try done; try lia.
    apply Hwf.
  - destruct (IH (S a)) as (acc & rt & Hrun & Hrow & Hent & Hlen & Hdone & Hrest);
      [lia|].
    destruct (gae_step_entries acc rt a) as (v & Hstep & Hv & Hentries); [lia|done|].
    exists (Row v), (<[a := Tensor.add v (nth a (values s) [])]> rt).
    cbn [seq fold_right]. rewrite Hrun, Hstep.
    split; [done|]. split; [done|]. split.
    { intros n Hn. cbn [entry gae_advantage]. rewrite Hentries, Hent by done.
      reflexivity. }
    split; [by rewrite length_insert|]. split.
    + intros t Ht. destruct (Nat.eq_dec t a) as [->|Hne].
      * rewrite nth_insert_eq by lia. split.
        { shape. rewrite Hv, values_row by lia. lia. }
        intros n Hn. rewrite nth_add by (rewrite ?Hv, ?values_row; lia).
        rewrite Hentries, Hent by done. unfold gae_return.
        replace (T - a)%nat with (S k) by lia. reflexivity.
      * rewrite nth_insert_ne by lia. apply Hdone. lia.
    + intros t Ht. rewrite nth_insert_ne by lia. apply Hrest. lia.
Qed.

(** What [compute_returns] leaves in [self.returns] and
    [self.advantages]. *)
Lemma compute_returns_buffers :
  let s' := exec (compute_returns last_values gamma lam) s in
  length (returns s') = T /\
  (forall t n, (t < T)%nat -> (n < N)%nat ->
     nth n (nth t (returns s') []) 0 = gae_return s last_values gamma lam t n) /\
  advantages s' = normalize (raw_advantages s last_values gamma lam).
Proof.
  destruct (gae_loop T 0%nat) as (acc & rt & Hrun & _ & _ & Hlen & Hdone & _); [lia|].
  rewrite <- fold_left_rev in Hrun.
  assert (Hs' : exec (compute_returns last_values gamma lam) s
                = set_advantages (normalize (zip_with Tensor.sub rt (values s)))
                                 (set_returns rt s)).
  { unfold exec, compute_returns, modify. cbn [snd]. rewrite Hrun.
    by destruct s. }
  cbv zeta. rewrite Hs'.
  assert (Hraw : zip_with Tensor.sub rt (values s)
                 = raw_advantages s last_values gamma lam).
  { unfold raw_advantages.
    apply (nth_ext _ _ [] []).
    - rewrite length_zip_with, List.length_map, length_seq, Hlen.
      destruct Hwf. lia.
    - intros t Ht.
      rewrite length_zip_with, Hlen in Ht.
      assert (HtT : (t < T)%nat) by lia.
      destruct (Hdone t) as [Hrow Hentries]; [lia|].
      rewrite (nth_zip_with _ _ _ _ [] []) by (destruct Hwf; lia).
      rewrite (nth_map_lt _ _ _ 0%nat) by (rewrite length_seq; lia).
      rewrite seq_nth by lia. cbn [Nat.add].
      apply (nth_ext _ _ 0 0).
      + shape. rewrite length_seq, Hrow, values_row by lia. lia.
      + intros n Hn. rewrite length_sub, Hrow, values_row in Hn by lia.
        rewrite nth_sub by (rewrite ?Hrow, ?values_row; lia).
        rewrite (nth_map_lt _ _ _ 0%nat) by (rewrite length_seq; lia).
        rewrite seq_nth by lia. cbn [Nat.add].
        rewrite Hentries by lia. reflexivity. }
  rewrite Hraw.
  destruct s as [o p np r a d lp v rt0 adv m sg T0 N0 st]. cbn in *.
  split; [done|]. split; [|done].
  intros t n Ht Hn. apply Hdone; lia.
Qed.

End Returns.
(** *** Normalisation *)


Lemma finite_Fin (h : R -> R) l :
  Tensor.finite (map (fun a => Fin (h a)) l) = Some (map h l).
Proof. induction l as [|x l IH]; [reflexivity|]. cbn. by rewrite IH. Qed.



Lemma mean_nonempty (l : list R) :
  0 < length l -> Tensor.mean l = Fin (Tensor.sum l / INR (length l))%R.
Proof. destruct l; [cbn; lia | reflexivity]. Qed.



Lemma flatten_rows_length {A} (t : list (list A)) N :
  Forall (fun row => length row = N) t -> length (Tensor.flatten t) = length t * N.
Proof.
  induction 1 as [|row t Hrow _ IH]; [reflexivity|].
  unfold Tensor.flatten in *. cbn. rewrite length_app, IH, Hrow. lia.
Qed.


(** *** [compute_returns] *)




Lemma two_sample_storage_fields :
  two_sample_storage
  = mkStorage [[[1%R]; [3%R]]] None None [[1%R; 2%R]] [[[0%R]; [0%R]]] [[1%Z; 1%Z]]
              [[0%R; 0%R]] [[0.5%R; 0.25%R]] [[0%R; 0%R]] [[Fin 0; Fin 0]]
              [[[0%R]; [0%R]]] [[[1%R]; [1%R]]] 1 2 1.
Proof. reflexivity. Qed.




(** ** Minibatch generator *)

Section GeneratorFacts.
Import Storage Spec.

Lemma take_add {A} (l : list A) a b :
  firstn (a + b) l = firstn a l ++ firstn b (skipn a l).
Proof.
  revert l. induction a as [|a IH]; intros [|x l]; cbn;
    rewrite ?firstn_nil; try reflexivity. by rewrite IH.
Qed.

(** The chunks, put end to end, are the first [M * size] indices. *)
Lemma concat_index_chunks (indices : list nat) M size :
  concat (index_chunks indices M size) = firstn (M * size) indices.
Proof.
  unfold index_chunks. induction M as [|M IH]; [reflexivity|].
  rewrite seq_S, map_app, concat_app, IH. cbn [map concat Nat.add].
  rewrite app_nil_r. unfold Tensor.slice.
  replace ((M + 1) * size - M * size) with size by lia.
  replace (S M * size) with (M * size + size) by lia.
  by rewrite take_add.
Qed.

Lemma index_chunks_length indices M size :
  length (index_chunks indices M size) = M.
Proof. unfold index_chunks. by rewrite List.length_map, length_seq. Qed.

Lemma index_chunk_lookup indices M size i :
  i < M ->
  index_chunks indices M size !! i
  = Some (Tensor.slice indices (i * size) ((i + 1) * size)).
Proof.
  intros Hi. unfold index_chunks.
  rewrite list_lookup_fmap, lookup_seq_lt by done. reflexivity.
Qed.

Lemma index_chunk_size indices M size :
  length indices = M * size ->
  Forall (fun chunk => length chunk = size) (index_chunks indices M size).
Proof.
  intros Hlen. unfold index_chunks. apply Forall_map, Forall_forall.
  intros i Hi%list_elem_of_In%in_seq. cbn. unfold Tensor.slice.
  rewrite length_firstn, length_skipn, Hlen. nia.
Qed.

(** An element of a slice is an element of the list at a position inside
    the slice. *)
Lemma in_slice (l : list nat) start stop x :
  In x (Tensor.slice l start stop) ->
  exists k, start <= k < stop /\ k < length l /\ nth k l 0 = x.
Proof.
  unfold Tensor.slice. intros Hin.
  destruct (In_nth _ _ 0 Hin) as (a & Ha & Hx).
  rewrite length_firstn, length_skipn in Ha.
  exists (start + a). split; [lia|]. split; [lia|].
  rewrite <- Hx, nth_firstn. 
  destruct (Nat.ltb_spec a (stop - start)); [|lia].
  by rewrite nth_skipn.
Qed.

Lemma index_chunks_disjoint indices M size :
  NoDup indices -> pairwise_disjoint (index_chunks indices M size).
Proof.
  intros Hnd i j ci cj x Hi Hj Hij Hxi Hxj.
  assert (HiM : i < M).
  { apply lookup_lt_Some in Hi. by rewrite index_chunks_length in Hi. }
  assert (HjM : j < M).
  { apply lookup_lt_Some in Hj. by rewrite index_chunks_length in Hj. }
  rewrite index_chunk_lookup in Hi, Hj by done.
  injection Hi as <-. injection Hj as <-.
  destruct (in_slice _ _ _ _ Hxi) as (a & Ha & Hla & Hxa).
  destruct (in_slice _ _ _ _ Hxj) as (b & Hb & Hlb & Hxb).
  assert (a = b).
  { apply (proj1 (List.NoDup_nth indices 0)); try done.
    - by apply NoDup_ListNoDup.
    - congruence. }
  subst b. nia.
Qed.

Lemma flat_map_const {A B} (x : list B) (l : list A) :
  flat_map (fun _ => x) l = concat (repeat x (length l)).
Proof. induction l as [|a l IH]; [reflexivity|]. cbn. by rewrite IH. Qed.

Lemma make_batch_rows self c nc batch_idx :
  batch_rows (length batch_idx) (make_batch self c nc batch_idx).
Proof.
  unfold batch_rows, make_batch, Tensor.gather. cbn.
  rewrite !List.length_map. repeat split.
Qed.

Section AnyGenerator.
Context {rng : Type}.
Variable randperm : nat -> rng -> list nat * rng.

(** The call as one draw followed by [num_epochs] copies of the same
    batches. *)
Lemma mini_batch_generator_run self M E g c nc :
  M <> 0 -> critic_views self = Ok (c, nc) ->
  let size := num_envs self * num_transitions_per_env self / M in
  mini_batch_generator randperm self M E g
  = (Ok (concat (repeat (map (make_batch self c nc)
                             (index_chunks (fst (randperm (M * size) g)) M size))
                        E)),
     snd (randperm (M * size) g)).
Proof.
  intros HM Hviews size. unfold mini_batch_generator, bind, ret.
  destruct (Nat.eqb_spec M 0) as [|_]; [done|].
  fold size. destruct (randperm (M * size) g) as [p g'].
  rewrite Hviews. cbn [fst snd].
  by rewrite flat_map_const, length_seq.
Qed.

Hypothesis randperm_permutation :
  forall n g, Permutation (fst (randperm n g)) (seq 0 n).

Lemma concat_repeat_length {A} (x : list A) E :
  length (concat (repeat x E)) = length x * E.
Proof.
  induction E as [|E IH]; cbn; [lia|]. rewrite length_app, IH. lia.
Qed.

Lemma concat_repeat_Forall {A} (P : A -> Prop) (x : list A) E :
  Forall P x -> Forall P (concat (repeat x E)).
Proof.
  intros Hx. induction E as [|E IH]; cbn; [constructor|].
  by apply Forall_app.
Qed.

(** What every call with a positive number of minibatches yields,
    whether or not that number divides the number of samples. *)
Lemma mini_batch_generator_chunks self M E g c nc :
  0 < M -> critic_views self = Ok (c, nc) ->
  let size := num_envs self * num_transitions_per_env self / M in
  let indices := fst (randperm (M * size) g) in
  let chunks := index_chunks indices M size in
  let batches := concat (repeat (map (make_batch self c nc) chunks) E) in
  mini_batch_generator randperm self M E g
  = (Ok batches, snd (randperm (M * size) g)) /\
  length batches = M * E /\
  Forall (batch_rows size) batches /\
  length chunks = M /\
  Forall (fun chunk => length chunk = size) chunks /\
  pairwise_disjoint chunks /\
  concat chunks = indices /\
  Permutation indices (seq 0 (M * size)) /\
  NoDup indices.
Proof.
  intros HM Hviews size indices chunks batches.
  pose proof (randperm_permutation (M * size) g) as Hperm. fold indices in Hperm.
  assert (Hlen : length indices = M * size).
  { by rewrite (Permutation_length Hperm), length_seq. }
  assert (Hnd : NoDup indices).
  { rewrite Hperm. apply NoDup_seq. }
  assert (Hsizes : Forall (fun chunk => length chunk = size) chunks)
    by by apply index_chunk_size.
  split; [apply mini_batch_generator_run; [lia | done]|].
  split.
  { subst batches. rewrite concat_repeat_length, List.length_map.
    subst chunks. by rewrite index_chunks_length. }
  split.
  { apply concat_repeat_Forall, Forall_map.
    eapply Forall_impl; [exact Hsizes|]. intros chunk <-. apply make_batch_rows. }
  split; [apply index_chunks_length|]. split; [done|].
  split; [by apply index_chunks_disjoint|].
  split; [|done].
  subst chunks. rewrite concat_index_chunks, <- Hlen. apply firstn_all.
Qed.

(** C5: when the number of minibatches M is positive and divides T*N,
    the generator yields M*E minibatches of (T*N)/M rows each; every
    epoch is made of the same M index chunks, which are pairwise disjoint
    and together hold every flattened index exactly once. *)
Theorem mini_batch_generator_partition self M E g c nc :
  0 < M ->
  (num_transitions_per_env self * num_envs self) mod M = 0 ->
  critic_views self = Ok (c, nc) ->
  let total := num_transitions_per_env self * num_envs self in
  exists indices batches g',
    let chunks := index_chunks indices M (total / M) in
    mini_batch_generator randperm self M E g = (Ok batches, g') /\
    length batches = M * E /\
    Forall (batch_rows (total / M)) batches /\
    batches = concat (repeat (map (make_batch self c nc) chunks) E) /\
    length chunks = M /\
    Forall (fun chunk => length chunk = total / M) chunks /\
    pairwise_disjoint chunks /\
    Permutation (concat chunks) (seq 0 total) /\
    NoDup (concat chunks).
Proof.
  intros HM Hdiv Hviews total.
  destruct (mini_batch_generator_chunks self M E g c nc HM Hviews)
    as (Hrun & Hlen & Hrows & HlenM & Hsizes & Hdisj & Hcat & Hperm & Hnd).
  assert (Hcomm : num_envs self * num_transitions_per_env self = total)
    by (subst total; lia).
  rewrite Hcomm in *.
  assert (Hexact : M * (total / M) = total).
  { pose proof (Nat.div_mod_eq total M). subst total. lia. }
  rewrite Hexact in *.
  eexists _, _, _. cbv zeta.
  split; [exact Hrun|]. split; [exact Hlen|]. split; [exact Hrows|].
  split; [reflexivity|]. split; [exact HlenM|]. split; [exact Hsizes|].
  split; [exact Hdisj|]. rewrite Hcat. split; [exact Hperm | exact Hnd].
Qed.

(** C6 (as amended): when M is positive and does not divide T*N nothing
    fails: the generator yields M*E minibatches of floor(T*N / M) rows
    each, whose indices are a permutation of the first
    T*N - (T*N mod M) flattened indices, so that the last T*N mod M
    samples are in no minibatch. *)
Theorem mini_batch_generator_remainder self M E g c nc :
  0 < M ->
  (num_transitions_per_env self * num_envs self) mod M <> 0 ->
  critic_views self = Ok (c, nc) ->
  let total := num_transitions_per_env self * num_envs self in
  exists indices batches g',
    let chunks := index_chunks indices M (total / M) in
    mini_batch_generator randperm self M E g = (Ok batches, g') /\
    length batches = M * E /\
    Forall (batch_rows (total / M)) batches /\
    batches = concat (repeat (map (make_batch self c nc) chunks) E) /\
    Permutation (concat chunks) (seq 0 (total - total mod M)) /\
    forall x, total - total mod M <= x -> ~ In x (concat chunks).
Proof.
  intros HM _ Hviews total.
  destruct (mini_batch_generator_chunks self M E g c nc HM Hviews)
    as (Hrun & Hlen & Hrows & _ & _ & _ & Hcat & Hperm & _).
  assert (Hcomm : num_envs self * num_transitions_per_env self = total)
    by (subst total; lia).
  rewrite Hcomm in *.
  assert (Hfloor : M * (total / M) = total - total mod M).
  { pose proof (Nat.div_mod_eq total M). lia. }
  rewrite Hfloor in *.
  eexists _, _, _. cbv zeta.
  split; [exact Hrun|]. split; [exact Hlen|]. split; [exact Hrows|].
  split; [reflexivity|]. rewrite Hcat. split; [exact Hperm|].
  intros x Hx Hin.
  apply (Permutation_in _ Hperm), in_seq in Hin. lia.
Qed.

(** C2 (as amended): a call draws one permutation, from the state of the
    random generator at the call, and every one of the E epochs uses the
    chunks of that one permutation; a second call draws again, from the
    state the first call left. *)
Theorem mini_batch_generator_one_draw self M E g c nc :
  M <> 0 -> critic_views self = Ok (c, nc) ->
  let size := num_envs self * num_transitions_per_env self / M in
  let first := randperm (M * size) g in
  let second := randperm (M * size) (snd first) in
  let batches_of p := map (make_batch self c nc) (index_chunks p M size) in
  mini_batch_generator randperm self M E g
  = (Ok (concat (repeat (batches_of (fst first)) E)), snd first) /\
  bind (mini_batch_generator randperm self M E)
       (fun b1 => bind (mini_batch_generator randperm self M E)
                       (fun b2 => ret (b1, b2))) g
  = (Ok (concat (repeat (batches_of (fst first)) E),
         concat (repeat (batches_of (fst second)) E)), snd second) /\
  Permutation (fst first) (seq 0 (M * size)) /\
  Permutation (fst second) (seq 0 (M * size)).
Proof.
  intros HM Hviews size first second batches_of.
  pose proof (mini_batch_generator_run self M E g c nc HM Hviews) as H1.
  pose proof (mini_batch_generator_run self M E (snd first) c nc HM Hviews)
    as H2.
  cbv zeta in H1, H2. fold size in H1, H2. fold first in H1. fold second in H2.
  split; [exact H1|]. split.
  - unfold bind at 1. rewrite H1. unfold bind. rewrite H2. reflexivity.
  - split; apply randperm_permutation.
Qed.

End AnyGenerator.
Lemma counting_randperm_permutation n g :
  Permutation (fst (counting_randperm n g)) (seq 0 n).
Proof.
  cbn. unfold rotate. rewrite Permutation_app_comm. by rewrite take_drop.
Qed.

Lemma mini_batch_generator_partition_witness :
  exists indices batches g',
    mini_batch_generator counting_randperm two_sample_storage 2 3 0 = (Ok batches, g') /\
    length batches = 6 /\
    Forall (batch_rows 1) batches /\
    Permutation (concat (index_chunks indices 2 1)) [0; 1].
Proof.
  destruct (mini_batch_generator_partition counting_randperm
              counting_randperm_permutation two_sample_storage 2 3 0
              [[1%R]; [3%R]] [[1%R]; [3%R]])
    as (indices & batches & g' & Hrun & Hlen & Hrows & _ & _ & _ & _ & Hperm & _).
  - lia.
  - reflexivity.
  - reflexivity.
  - exists indices, batches, g'. repeat split; assumption.
Defined.

(** C6, counterexample: three samples and two minibatches. 2 does not
    divide 3, and the generator returns its two batches of one row. *)
Lemma mini_batch_generator_no_failure :
  (num_transitions_per_env three_sample_storage * num_envs three_sample_storage)
    mod 2 <> 0 /\
  exists batches,
    mini_batch_generator counting_randperm three_sample_storage 2 1 0
    = (Ok batches, 1) /\ length batches = 2.
Proof.
  split; [cbn; lia|].
  eexists. split.
  - apply (mini_batch_generator_run counting_randperm three_sample_storage 2 1 0
             (Tensor.flatten (observations three_sample_storage))
             (Tensor.flatten (observations three_sample_storage)));
      [lia | reflexivity].
  - reflexivity.
Qed.

Lemma mini_batch_generator_remainder_witness :
  exists indices batches g',
    mini_batch_generator counting_randperm three_sample_storage 2 1 0
    = (Ok batches, g') /\
    length batches = 2 /\
    Permutation (concat (index_chunks indices 2 1)) [0; 1] /\
    ~ In 2 (concat (index_chunks indices 2 1)).
Proof.
  destruct (mini_batch_generator_remainder counting_randperm
              counting_randperm_permutation three_sample_storage 2 1 0
              (Tensor.flatten (observations three_sample_storage))
              (Tensor.flatten (observations three_sample_storage)))
    as (indices & batches & g' & Hrun & Hlen & _ & _ & Hperm & Hout).
  - lia.
  - cbn. lia.
  - reflexivity.
  - exists indices, batches, g'. repeat split; try assumption.
    apply Hout. cbn. lia.
Defined.

(** C2, counterexample: two epochs over the two-sample storage with one
    minibatch. The call draws once (the generator goes from state 0 to
    state 1) and the second epoch repeats the batch of the first, while
    a generator with a fresh permutation per epoch draws twice. *)
Lemma mini_batch_generator_not_fresh_per_epoch :
  (exists b, mini_batch_generator counting_randperm two_sample_storage 1 2 0
             = (Ok [b; b], 1)) /\
  snd (fresh_permutation_generator counting_randperm two_sample_storage 1 2 0) = 2 /\
  mini_batch_generator counting_randperm two_sample_storage 1 2 0
  <> fresh_permutation_generator counting_randperm two_sample_storage 1 2 0.
Proof.
  assert (Hrun : exists b, mini_batch_generator counting_randperm two_sample_storage 1 2 0
                           = (Ok [b; b], 1)).
  { eexists.
    rewrite (mini_batch_generator_run counting_randperm two_sample_storage 1 2 0
               (Tensor.flatten (observations two_sample_storage))
               (Tensor.flatten (observations two_sample_storage)));
      [reflexivity | lia | reflexivity]. }
  assert (Hfresh : snd (fresh_permutation_generator counting_randperm
                          two_sample_storage 1 2 0) = 2) by reflexivity.
  split; [exact Hrun|]. split; [exact Hfresh|].
  destruct Hrun as [b Hb]. rewrite Hb. intros Heq.
  rewrite <- Heq in Hfresh. discriminate Hfresh.
Qed.

Lemma mini_batch_generator_one_draw_witness :
  exists b,
    mini_batch_generator counting_randperm two_sample_storage 1 2 0 = (Ok [b; b], 1) /\
    snd (bind (mini_batch_generator counting_randperm two_sample_storage 1 2)
              (fun b1 => bind (mini_batch_generator counting_randperm
                                 two_sample_storage 1 2)
                              (fun b2 => ret (b1, b2))) 0) = 2.
Proof.
  destruct (mini_batch_generator_one_draw counting_randperm
              counting_randperm_permutation two_sample_storage 1 2 0
              (Tensor.flatten (observations two_sample_storage))
              (Tensor.flatten (observations two_sample_storage)))
    as (Hone & Htwo & _).
  - lia.
  - reflexivity.
  - eexists. split.
    + rewrite Hone. reflexivity.
    + rewrite Htwo. reflexivity.
Defined.

End GeneratorFacts.

(** ** Actor-critic *)

Section ActorCriticFacts.
Import ActorCritic.
Context {actor_params critic_params estimator_params rng : Type}.
Variable actor : actor_params -> list vector -> list vector.
Variable estimator : estimator_params -> list vector -> list vector * list vector.
Variable sample : Normal -> rng -> list vector * rng.

Local Abbreviation HIMActorCritic :=
  (@ActorCritic.HIMActorCritic actor_params critic_params estimator_params).

(** What [act] does: it installs the distribution and samples from it. *)
Lemma act_run (self : HIMActorCritic) obs_history g :
  exists d,
    update_distribution actor estimator obs_history self
    = (Ok tt, set_distribution (Some d) self) /\
    act actor estimator sample obs_history (self, g)
    = (Ok (fst (sample d g)), (set_distribution (Some d) self, snd (sample d g))).
Proof.
  unfold act, update_distribution, modify, current_distribution, bind, get, ret.
  destruct (estimator (estimator_net self) obs_history) as [vel latent].
  eexists. split; [reflexivity|].
  destruct self as [a c e s d n]. cbn.
  by destruct (sample _ g).
Qed.

(** C9: [act_inference] returns the mean of the distribution that [act]
    builds for the same observation history; it reads the three networks
    and nothing else, so that its result depends neither on the current
    distribution nor on the random generator, and a second call, also
    after calls of [act], returns the same action. *)
Theorem act_inference_deterministic_mean (self : HIMActorCritic)
    (obs_history : list vector) (g : rng) :
  (exists d,
     fst (act actor estimator sample obs_history (self, g)) = Ok (fst (sample d g)) /\
     distribution (fst (exec (act actor estimator sample obs_history) (self, g)))
     = Some d /\
     loc d = act_inference actor estimator self obs_history) /\
  (forall d, act_inference actor estimator (set_distribution d self) obs_history
             = act_inference actor estimator self obs_history) /\
  (forall other g',
     act_inference actor estimator
       (fst (exec (act actor estimator sample other) (self, g'))) obs_history
     = act_inference actor estimator self obs_history).
Proof.
  split; [|split].
  - destruct (act_run self obs_history g) as (d & Hupd & Hact).
    exists d. unfold exec. rewrite Hact. cbn [fst snd].
    split; [reflexivity|]. split; [by destruct self|].
    unfold update_distribution, modify, act_inference in *.
    destruct (estimator (estimator_net self) obs_history) as [vel latent].
    destruct self as [a c e s d0 n]. cbn in *. by injection Hupd as <-.
  - intros d. by destruct self.
  - intros other g'.
    destruct (act_run self other g') as (d & _ & Hact).
    unfold exec. rewrite Hact. cbn. by destruct self.
Qed.

End ActorCriticFacts.

(** ** PPO *)

Lemma bind_ok {S A B} (m : M S A) (k : A -> M S B) s a s' :
  m s = (Ok a, s') -> bind m k s = k a s'.
Proof. intros H. unfold bind. by rewrite H. Qed.

Lemma bind_raise {S A B} (m : M S A) (k : A -> M S B) s e s' :
  m s = (Raise e, s') -> bind m k s = (Raise e, s').
Proof. intros H. unfold bind. by rewrite H. Qed.

(** *** The KL estimate of proper Gaussians is positive *)

Lemma ln_lower_bound (x : R) : (0 < x)%R -> (1 - / x <= ln x)%R.
Proof.
  intros Hx. pose proof (exp_ineq1_le (ln (/ x))) as H.
  rewrite exp_ln in H by (by apply Rinv_0_lt_compat).
  rewrite ln_Rinv in H by done. lra.
Qed.

Lemma kl1_positive (m s old_m old_s : R) :
  (0 < s)%R -> (0 < old_s)%R -> (0 < PPO.kl1 m s old_m old_s)%R.
Proof.
  intros Hs Hos. unfold PPO.kl1.
  assert (Hr : (0 < s / old_s)%R) by (by apply Rdiv_lt_0_compat).
  assert (Hln : (ln (s / old_s) < ln (s / old_s + 1e-5))%R)
    by (apply ln_increasing; lra).
  pose proof (ln_lower_bound _ Hr) as Hlow.
  replace (/ (s / old_s))%R with (old_s / s)%R in Hlow by (field; lra).
  remember (old_s / s)%R as q eqn:Eq.
  assert (Hq : (old_s = q * s)%R) by (subst q; field; lra).
  clear Eq.
  assert (Hquad : ((old_s * old_s + (old_m - m) * (old_m - m)) / (2.0 * (s * s))
                   >= q * q / 2)%R).
  { rewrite Hq. replace 2.0%R with 2%R by lra.
    replace ((q * s * (q * s) + (old_m - m) * (old_m - m)) / (2 * (s * s)))%R
      with (q * q / 2 + (old_m - m) * (old_m - m) / (2 * (s * s)))%R by (field; lra).
    assert (0 <= (old_m - m) * (old_m - m) / (2 * (s * s)))%R; [|lra].
    apply Rmult_le_pos; [apply Rle_0_sqr|].
    apply Rlt_le, Rinv_0_lt_compat.
    apply Rmult_lt_0_compat; [lra | by apply Rmult_lt_0_compat]. }
  replace 0.5%R with (1 / 2)%R by lra.
  assert (Hsq : (0 <= (1 - q) * (1 - q))%R) by apply Rle_0_sqr.
  lra.
Qed.

Lemma sum_positive (l : list R) :
  l <> [] -> Forall (fun x => (0 < x)%R) l -> (0 < Tensor.sum l)%R.
Proof.
  intros Hne Hall. induction Hall as [|x l Hx Hl IH]; [done|].
  change (Tensor.sum (x :: l)) with (x + Tensor.sum l)%R.
  destruct l as [|y l]; [cbn; lra|].
  assert (0 < Tensor.sum (y :: l))%R by (by apply IH). lra.
Qed.

Lemma kl_row_positive : forall (m s old_m old_s : list R),
  Forall (fun x => (0 < x)%R) s -> Forall (fun x => (0 < x)%R) old_s ->
  Forall (fun x => (0 < x)%R)
         (zip_with (fun '(m, s) '(om, os) => PPO.kl1 m s om os)
                   (zip m s) (zip old_m old_s)).
Proof.
  induction m as [|m0 m IH]; intros [|s0 s] [|om0 old_m] [|os0 old_s] Hs Hos;
    cbn; try by constructor.
  inversion Hs; inversion Hos; subst.
  constructor; [by apply kl1_positive | by apply IH].
Qed.

Lemma kl_rows_positive (A : nat) : 0 < A ->
  forall mu sigma old_mu old_sigma : list vector,
  Forall (fun row => length row = A) mu ->
  Forall (fun row => length row = A) old_mu ->
  Forall (fun row => length row = A /\ Forall (fun x => (0 < x)%R) row) sigma ->
  Forall (fun row => length row = A /\ Forall (fun x => (0 < x)%R) row) old_sigma ->
  Forall (fun x => (0 < x)%R) (PPO.kl_divergence mu sigma old_mu old_sigma).
Proof.
  intros HA means. unfold PPO.kl_divergence.
  induction means as [|m means IH]; intros [|s sigmas] [|om old_means] [|os old_sigmas]
    Fmu Fold_mu Fsigma Fold_sigma; cbn; try by constructor.
  inversion Fmu as [|? ? Hm Fmu']; inversion Fold_mu as [|? ? Hom Fold_mu'];
    inversion Fsigma as [|? ? [Hs Ps] Fsigma'];
    inversion Fold_sigma as [|? ? [Hos Pos] Fold_sigma']; subst.
  constructor; [|by apply IH].
  apply sum_positive; [|by apply kl_row_positive].
  destruct m, s, om, os; cbn in *; try lia. discriminate.
Qed.

(** With a nonempty batch, at least one action coordinate and positive
    standard deviations, the mean KL estimate is defined and positive: the
    test [kl_mean > 0.0] of the schedule holds. *)
Lemma kl_mean_positive (mu sigma old_mu old_sigma : list vector) (B A : nat) :
  0 < B -> 0 < A ->
  length mu = B -> length sigma = B -> length old_mu = B -> length old_sigma = B ->
  Forall (fun row => length row = A) mu ->
  Forall (fun row => length row = A) old_mu ->
  Forall (fun row => length row = A /\ Forall (fun x => (0 < x)%R) row) sigma ->
  Forall (fun row => length row = A /\ Forall (fun x => (0 < x)%R) row) old_sigma ->
  exists kl, Tensor.mean (PPO.kl_divergence mu sigma old_mu old_sigma) = Fin kl /\
             (0 < kl)%R.
Proof.
  intros HB HA Hmu Hsigma Hold_mu Hold_sigma Fmu Fold_mu Fsigma Fold_sigma.
  pose proof (kl_rows_positive A HA mu sigma old_mu old_sigma
                Fmu Fold_mu Fsigma Fold_sigma) as Hpos.
  assert (Hlen : length (PPO.kl_divergence mu sigma old_mu old_sigma) = B).
  { unfold PPO.kl_divergence. rewrite !length_zip_with. lia. }
  destruct (PPO.kl_divergence mu sigma old_mu old_sigma) as [|k kl] eqn:Hkl;
    [cbn in Hlen; lia|].
  eexists. split; [reflexivity|].
  apply Rdiv_lt_0_compat.
  - apply sum_positive; done.
  - apply lt_0_INR. cbn. lia.
Qed.

Section PPOFacts.
Import PPO Spec.
Context {actor_params critic_params estimator_params rng adam_state : Type}.
Variable actor : actor_params -> list vector -> list vector.
Variable critic : critic_params -> list vector -> list R.
Variable estimator : estimator_params -> list vector -> list vector * list vector.
Variable sample : ActorCritic.Normal -> rng -> list vector * rng.
Variable randperm : nat -> rng -> list nat * rng.
Variable estimator_update :
  estimator_params -> list vector -> list vector -> R -> (value * value) * estimator_params.

Local Abbreviation HIMPPO :=
  (@PPO.HIMPPO actor_params critic_params estimator_params rng adam_state).
Local Abbreviation HIMActorCritic :=
  (@ActorCritic.HIMActorCritic actor_params critic_params estimator_params).

Variable gradient_step :
  HIMPPO -> Storage.MiniBatch -> value -> HIMActorCritic * adam_state.

Lemma set_actor_critic_same (self : HIMPPO) :
  set_actor_critic (actor_critic self) self = self.
Proof. by destruct self. Qed.

Lemma on_actor_critic_read {A} (m : M HIMActorCritic A) (self : HIMPPO) a :
  m (actor_critic self) = (Ok a, actor_critic self) ->
  on_actor_critic m self = (Ok a, self).
Proof.
  intros H. unfold on_actor_critic. rewrite H. by rewrite set_actor_critic_same.
Qed.

Lemma current_distribution_run (ac : HIMActorCritic) d :
  ActorCritic.distribution ac = Some d ->
  ActorCritic.current_distribution ac = (Ok d, ac).
Proof.
  intros H. unfold ActorCritic.current_distribution, bind, get. by rewrite H.
Qed.

(** The block under [# KL] never raises. *)
Lemma schedule_learning_rate_run b mu_batch sigma_batch (self : HIMPPO) :
  fst (schedule_learning_rate b mu_batch sigma_batch self) = Ok tt.
Proof.
  unfold schedule_learning_rate, bind, get, modify, ret.
  destruct (desired_kl self); [|reflexivity].
  by destruct (String.eqb _ _).
Qed.


Lemma actor_critic_after_act (self : HIMPPO) ac g :
  actor_critic (set_generator g (set_actor_critic ac self)) = ac.
Proof. by destruct self. Qed.

(** One pass over a minibatch never raises. It samples from the fresh
    distribution, runs the schedule, then the estimator with the rate the
    schedule left, then the gradient step on the state so reached. *)
Lemma minibatch_step_run (b : Storage.MiniBatch) (self : HIMPPO) :
  exists d,
    let self1 :=
      set_generator (snd (sample d (generator self)))
        (set_actor_critic (ActorCritic.set_distribution (Some d) (actor_critic self))
                          self) in
    let self2 :=
      exec (schedule_learning_rate b (ActorCritic.loc d) (ActorCritic.scale d)) self1 in
    let self3 := exec (update_estimator estimator_update b) self2 in
    let losses :=
      fst (estimator_update (ActorCritic.estimator_net (actor_critic self2))
             (Storage.obs_batch b) (Storage.next_critic_observations_batch b)
             (learning_rate self2)) in
    exists value_loss surrogate_loss loss,
    minibatch_step actor critic estimator sample estimator_update gradient_step b self
    = (Ok (value_loss, surrogate_loss, fst losses, snd losses),
       exec (apply_gradient_step gradient_step b loss) self3) /\
    learning_rate self3 = learning_rate self2 /\
    optimizer self3 = optimizer self2 /\
    ActorCritic.update_distribution actor estimator (Storage.obs_batch b)
      (actor_critic self)
    = (Ok tt, ActorCritic.set_distribution (Some d) (actor_critic self)).
Proof.
  destruct (act_run actor estimator sample (actor_critic self)
              (Storage.obs_batch b) (generator self)) as (d & Hupd & Hact).
  exists d. cbv zeta.
  set (self1 := set_generator _ _).
  set (self2 := exec _ self1).
  destruct (estimator_update _ _ _ _) as [[est swap] e'] eqn:Hest.
  eexists _, _, _.
  assert (Hac1 : ActorCritic.distribution (actor_critic self1) = Some d).
  { subst self1. rewrite actor_critic_after_act. by destruct (actor_critic self). }
  pose proof (current_distribution_run _ _ Hac1) as Hcur.
  unfold minibatch_step.
  erewrite bind_ok; cycle 1.
  { unfold on_actor_critic_rng. rewrite Hact. reflexivity. }
  fold self1.
  erewrite bind_ok; cycle 1.
  { apply on_actor_critic_read. unfold ActorCritic.get_actions_log_prob.
    erewrite bind_ok by exact Hcur. reflexivity. }
  erewrite bind_ok by reflexivity.
  erewrite bind_ok; cycle 1.
  { apply on_actor_critic_read. unfold ActorCritic.action_mean.
    erewrite bind_ok by exact Hcur. reflexivity. }
  erewrite bind_ok; cycle 1.
  { apply on_actor_critic_read. unfold ActorCritic.action_std.
    erewrite bind_ok by exact Hcur. reflexivity. }
  erewrite bind_ok; cycle 1.
  { apply on_actor_critic_read. unfold ActorCritic.entropy.
    erewrite bind_ok by exact Hcur. reflexivity. }
  erewrite bind_ok; cycle 1.
  { rewrite (surjective_pairing (schedule_learning_rate _ _ _ self1)).
    rewrite schedule_learning_rate_run. reflexivity. }
  fold (exec (schedule_learning_rate b (ActorCritic.loc d) (ActorCritic.scale d)) self1).
  fold self2.
  unfold update_estimator at 1. unfold exec at 2. unfold update_estimator.
  unfold bind at 1. unfold get at 1. unfold bind, get, modify, ret, apply_gradient_step, exec.
  cbn [fst snd]. rewrite Hest. cbn [fst snd].
  split; [reflexivity|]. split; [by destruct self2|]. split; [by destruct self2|].
  exact Hupd.
Qed.

(** A pass leaves the storage and the two loop counts alone. *)
Lemma minibatch_step_frame (b : Storage.MiniBatch) (self : HIMPPO) :
  let self' :=
    exec (minibatch_step actor critic estimator sample estimator_update
            gradient_step b) self in
  storage self' = storage self /\
  num_learning_epochs self' = num_learning_epochs self /\
  num_mini_batches self' = num_mini_batches self.
Proof.
  destruct (minibatch_step_run b self) as (d & v & sl & loss & Hrun & _).
  cbv zeta in *. unfold exec at 1 2 3. rewrite Hrun. cbn [snd].
  unfold exec, apply_gradient_step, update_estimator, schedule_learning_rate,
    bind, get, modify, ret.
  set (self1 := set_generator _ _).
  assert (H1 : storage self1 = storage self /\
               num_learning_epochs self1 = num_learning_epochs self /\
               num_mini_batches self1 = num_mini_batches self)
    by (subst self1; by destruct self).
  clearbody self1. destruct H1 as (<- & <- & <-).
  cbn [fst snd].
  destruct (desired_kl self1); [destruct (String.eqb _ _)|]; cbn [fst snd];
    repeat match goal with
           | |- context [estimator_update ?a ?b ?c ?d] =>
               destruct (estimator_update a b c d) as [[? ?] ?]
           end;
    cbn [fst snd];
    repeat match goal with
           | |- context [gradient_step ?a ?b ?c] => destruct (gradient_step a b c)
           end;
    by destruct self1.
Qed.

Lemma last_cons_any {A} (x : A) (l : list A) d : List.last (x :: l) d = List.last l x.
Proof.
  revert x d. induction l as [|y l IH]; intros x d; [reflexivity|].
  change (List.last (x :: y :: l) d) with (List.last (y :: l) d).
  by rewrite !IH.
Qed.

Lemma total_step (component : Losses -> value) (passes : list Losses) l acc :
  fold_left Tensor.xadd (map component (l :: passes)) acc
  = fold_left Tensor.xadd (map component passes) (Tensor.xadd acc (component l)).
Proof. reflexivity. Qed.

(** The loop of [update] never raises; its sums are the totals of the
    passes on top of the initial sums, and its two loop variables hold
    what the last pass computed. *)
Lemma sweep_run batches : forall (acc : Sums) (self : HIMPPO),
  let passes :=
    sweep_losses actor critic estimator sample estimator_update gradient_step
      batches self in
  exists acc' self',
    sweep actor critic estimator sample estimator_update gradient_step batches acc self
    = (Ok acc', self') /\
    length passes = length batches /\
    mean_value_loss acc'
    = fold_left Tensor.xadd (map value_loss_of_pass passes) (mean_value_loss acc) /\
    mean_surrogate_loss acc'
    = fold_left Tensor.xadd (map surrogate_loss_of_pass passes)
        (mean_surrogate_loss acc) /\
    mean_estimation_loss acc'
    = fold_left Tensor.xadd (map estimation_loss_of_pass passes)
        (mean_estimation_loss acc) /\
    mean_swap_loss acc'
    = fold_left Tensor.xadd (map swap_loss_of_pass passes) (mean_swap_loss acc) /\
    estimation_loss acc'
    = List.last (map (fun l => Some (estimation_loss_of_pass l)) passes)
        (estimation_loss acc) /\
    swap_loss acc'
    = List.last (map (fun l => Some (swap_loss_of_pass l)) passes) (swap_loss acc) /\
    storage self' = storage self /\
    num_learning_epochs self' = num_learning_epochs self /\
    num_mini_batches self' = num_mini_batches self.
Proof.
  induction batches as [|b rest IH]; intros acc self.
  - exists acc, self. cbn. repeat split.
  - cbv zeta. cbn [sweep sweep_losses].
    pose proof (minibatch_step_frame b self) as Hframe.
    destruct (minibatch_step_run b self) as (d & v & sl & loss & Hrun & _).
    cbv zeta in Hrun, Hframe. unfold exec at 1 2 3 in Hframe.
    rewrite Hrun in Hframe |- *. cbn [snd] in Hframe.
    erewrite bind_ok by exact Hrun.
    set (l := (v, sl, _, _)) in *. set (self1 := exec _ _) in *.
    destruct (IH (accumulate acc l) self1)
      as (acc' & self' & Hsweep & Hlen & Hv & Hs & He & Hw & Hle & Hlw & Hst & HE & HM).
    cbv zeta in *.
    exists acc', self'. rewrite Hsweep.
    destruct Hframe as (Hf1 & Hf2 & Hf3).
    split; [reflexivity|]. split; [cbn [length]; by rewrite Hlen|].
    rewrite !total_step.
    split; [rewrite Hv; by destruct l as [[[? ?] ?] ?]|].
    split; [rewrite Hs; by destruct l as [[[? ?] ?] ?]|].
    split; [rewrite He; by destruct l as [[[? ?] ?] ?]|].
    split; [rewrite Hw; by destruct l as [[[? ?] ?] ?]|].
    split.
    { rewrite Hle. cbn [map]. rewrite last_cons_any. by destruct l as [[[? ?] ?] ?]. }
    split.
    { rewrite Hlw. cbn [map]. rewrite last_cons_any. by destruct l as [[[? ?] ?] ?]. }
    split; [by rewrite Hst|]. split; [by rewrite HE | by rewrite HM].
Qed.

Lemma last_map_some (component : Losses -> value) (passes : list Losses) :
  passes <> [] ->
  List.last (map (fun l => Some (component l)) passes) None
  = Some (component (last_pass passes)).
Proof.
  unfold last_pass. generalize (NaN, NaN, NaN, NaN). generalize (@None value).
  induction passes as [|l passes IH]; intros d d' Hne; [done|].
  destruct passes as [|l' passes]; [reflexivity|].
  change (List.last (l :: l' :: passes) d') with (List.last (l' :: passes) d').
  cbn [map]. 
  change (List.last (Some (component l) :: Some (component l')
                     :: map (fun l => Some (component l)) passes) d)
    with (List.last (map (fun l => Some (component l)) (l' :: passes)) d).
  by apply IH.
Qed.

(** What [update] returns when there is a storage and both loop counts
    are positive: the means of the value and surrogate losses over the
    passes, then the estimation loss and the swap loss of the last pass;
    and it leaves the storage cleared. *)
Lemma update_run (self : HIMPPO) st c nc :
  storage self = Some st -> Storage.critic_views st = Ok (c, nc) ->
  0 < num_mini_batches self -> 0 < num_learning_epochs self ->
  let M := num_mini_batches self in
  let E := num_learning_epochs self in
  let size := Storage.num_envs st * Storage.num_transitions_per_env st / M in
  let draw := randperm (M * size) (generator self) in
  let batches :=
    concat (repeat (map (Storage.make_batch st c nc)
                        (Storage.index_chunks (fst draw) M size)) E) in
  let passes :=
    sweep_losses actor critic estimator sample estimator_update gradient_step
      batches (set_generator (snd draw) self) in
  exists self',
    update actor critic estimator sample randperm estimator_update gradient_step self
    = (Ok (mean_loss value_loss_of_pass passes,
           mean_loss surrogate_loss_of_pass passes,
           estimation_loss_of_pass (last_pass passes),
           swap_loss_of_pass (last_pass passes)), self') /\
    length passes = E * M /\
    storage self' = Some (Storage.set_step 0 st).
Proof.
  intros Hst Hviews HM HE M E size draw batches passes.
  unfold update. erewrite bind_ok by reflexivity. rewrite Hst.
  erewrite bind_ok; cycle 1.
  { unfold on_generator.
    rewrite (mini_batch_generator_run randperm st (num_mini_batches self)
               (num_learning_epochs self) (generator self) c nc);
      [reflexivity | lia | done]. }
  fold size draw batches.
  destruct (sweep_run batches zero_sums (set_generator (snd draw) self))
    as (acc' & self' & Hsweep & Hlen & Hv & Hs & _ & _ & Hle & Hlw & Hst' & HE' & HM').
  cbv zeta in *. fold passes in Hlen, Hv, Hs, Hle, Hlw.
  erewrite bind_ok by exact Hsweep.
  erewrite bind_ok by reflexivity.
  assert (HE0 : num_learning_epochs self' = E) by (rewrite HE'; by destruct self).
  assert (HM0 : num_mini_batches self' = M) by (rewrite HM'; by destruct self).
  assert (Hst0 : storage self' = Some st) by (rewrite Hst'; by destruct self).
  assert (Hn : length passes = E * M).
  { rewrite Hlen. subst batches.
    rewrite concat_repeat_length, List.length_map, index_chunks_length. lia. }
  rewrite HE0, HM0.
  destruct (Nat.eqb_spec (E * M) 0) as [|_]; [nia|].
  assert (Hne : passes <> []) by (intros H0; rewrite H0 in Hn; cbn in Hn; nia).
  rewrite (last_map_some _ _ Hne) in Hle. rewrite (last_map_some _ _ Hne) in Hlw.
  erewrite bind_ok; cycle 1.
  { unfold on_storage. rewrite Hst0. reflexivity. }
  rewrite Hle, Hlw, Hv, Hs. unfold ret.
  eexists. split; [|split; [exact Hn|]].
  - unfold mean_loss, total. rewrite Hn. reflexivity.
  - by destruct self'.
Qed.

(** *** Recording a step *)

Ltac run_ppo :=
  lazy beta iota zeta delta
    [process_env_step on_transition bootstrap_time_outs on_storage on_actor_critic
     ActorCritic.reset bind get modify ret raise exec fst snd
     set_transition set_storage set_actor_critic set_learning_rate set_optimizer
     set_generator
     transition storage actor_critic gamma
     Storage.with_observations Storage.with_critic_observations Storage.with_actions
     Storage.with_rewards Storage.with_dones Storage.with_values
     Storage.with_actions_log_prob Storage.with_action_mean Storage.with_action_sigma
     Storage.with_next_critic_observations Storage.transition_clear
     Storage.tr_values Storage.tr_rewards].

Lemma bootstrap_entry (g : R) (rewards values : list R) (time_outs : list bool) i :
  length values = length rewards -> length time_outs = length rewards ->
  i < length rewards ->
  nth i (Tensor.add rewards (Tensor.scale g (Tensor.mul values (map b2r time_outs)))) 0%R
  = recorded_reward g (nth i rewards 0%R) (nth i values 0%R)
      (Some (nth i time_outs false)).
Proof.
  intros Hv Ht Hi.
  rewrite nth_add; [| lia | unfold Tensor.scale; shape; lia].
  unfold Tensor.scale. rewrite (nth_map_lt _ _ _ 0%R) by (shape; lia).
  rewrite nth_mul by (shape; lia).
  rewrite (nth_map_lt _ _ _ false) by lia.
  unfold recorded_reward, b2r. destruct (nth i time_outs false); ring.
Qed.

(** C7: with the fields of [act] in the transition and room in the
    storage, [process_env_step] returns; the rewards it stores in row
    [step] are, for every environment, the reward plus gamma times the
    stored value where [infos] has a [time_outs] flag and the flag is
    set, and the reward itself otherwise; the storage counter has moved
    by one and the transition is cleared. *)
Theorem process_env_step_time_outs (self : HIMPPO) (st : Storage.HIMRolloutStorage)
    (rewards : list R) (dones : list Z) (infos : gmap string (list bool))
    (next_critic_obs : list vector)
    o co a v lp m sg r0 d0 n0 :
  storage self = Some st -> wf st ->
  Storage.step st < Storage.num_transitions_per_env st ->
  transition self
  = Storage.mkTransition (Some o) (Some co) (Some a) r0 d0 (Some v) (Some lp)
      (Some m) (Some sg) n0 ->
  length v = length rewards ->
  (forall time_outs, infos !! "time_outs"%string = Some time_outs ->
                     length time_outs = length rewards) ->
  exists recorded st',
    process_env_step rewards dones infos next_critic_obs self
    = (Ok tt, set_transition Storage.empty_transition (set_storage (Some st') self)) /\
    length recorded = length rewards /\
    (forall i, i < length rewards ->
       nth i recorded 0%R
       = recorded_reward (gamma self) (nth i rewards 0%R) (nth i v 0%R)
           (time_outs ← infos !! "time_outs"%string; Some (nth i time_outs false))) /\
    Storage.add_transitions
      (Storage.mkTransition (Some o) (Some co) (Some a) (Some recorded) (Some dones)
         (Some v) (Some lp) (Some m) (Some sg) (Some next_critic_obs)) st
    = (Ok tt, st') /\
    Storage.rewards st' !! Storage.step st = Some recorded /\
    Storage.step st' = Storage.step st + 1.
Proof.
  intros Hst Hwf Hroom Htr Hv Hto.
  set (recorded :=
         match infos !! "time_outs"%string with
         | Some time_outs =>
             Tensor.add rewards
               (Tensor.scale (gamma self) (Tensor.mul v (map b2r time_outs)))
         | None => rewards
         end).
  set (t := Storage.mkTransition (Some o) (Some co) (Some a) (Some recorded)
              (Some dones) (Some v) (Some lp) (Some m) (Some sg)
              (Some next_critic_obs)).
  destruct (add_transitions_complete t st Hroom) as [st' Hadd].
  { repeat split; eexists; reflexivity. }
  destruct (add_transitions_returns _ _ _ Hadd)
    as (_ & Hstep & _ & _ & _ & _ & _ & _ & _ & _ & (x & Hx & Hrew) & _).
  injection Hx as <-.
  exists recorded, st'.
  split; [|split; [|split; [|split; [exact Hadd|split; [|exact Hstep]]]]].
  - destruct self as [dk sc lr ac sto op tr cp E M vc ec gm lm mg uc gen].
    cbn in Hst, Htr. subst sto tr. subst recorded t. cbn [gamma] in *.
    run_ppo.
    destruct (infos !! "time_outs"%string) as [time_outs|]; run_ppo;
      rewrite Hadd; reflexivity.
  - subst recorded. destruct (infos !! "time_outs"%string) as [time_outs|] eqn:Hi;
      [|reflexivity].
    specialize (Hto _ eq_refl). unfold Tensor.scale. shape. lia.
  - intros i Hi. subst recorded.
    destruct (infos !! "time_outs"%string) as [time_outs|] eqn:Hinfo; [|reflexivity].
    cbn. apply bootstrap_entry; auto.
  - rewrite Hrew. apply list_lookup_insert_eq. destruct Hwf. lia.
Qed.

(** *** The adaptive schedule *)



End PPOFacts.

(** *** The return value of [update] on a small instance *)

Section ToyFacts.
Import Storage PPO Spec.

Lemma toy_estimation_losses batches : forall self,
  map estimation_loss_of_pass
      (sweep_losses Toy.actor Toy.critic Toy.estimator Toy.sample
         Toy.estimator_update Toy.gradient_step batches self)
  = map (fun b => Fin (nth 0 (nth 0 (obs_batch b) []) 0%R)) batches.
Proof.
  induction batches as [|b rest IH]; intros self; [reflexivity|].
  destruct (minibatch_step_run Toy.actor Toy.critic Toy.estimator Toy.sample
              Toy.estimator_update Toy.gradient_step b self)
    as (d & v & sl & loss & Hrun & _).
  cbv zeta in Hrun. cbn [sweep_losses]. rewrite Hrun. cbn [map]. by rewrite IH.
Qed.

(** C3: one epoch of two minibatches whose estimation losses are 1 and
    3. [update] returns 3, the estimation loss of the last minibatch, as
    its third component; the mean of the estimation losses over the
    sweep is 2. *)
Theorem update_returns_last_estimation_loss :
  exists passes self',
    update Toy.actor Toy.critic Toy.estimator Toy.sample counting_randperm
      Toy.estimator_update Toy.gradient_step Toy.ppo
    = (Ok (mean_loss value_loss_of_pass passes,
           mean_loss surrogate_loss_of_pass passes,
           Fin 3,
           swap_loss_of_pass (last_pass passes)), self') /\
    map estimation_loss_of_pass passes = [Fin 1; Fin 3] /\
    mean_loss estimation_loss_of_pass passes = Fin 2 /\
    storage self' = Some (set_step 0 two_sample_storage).
Proof.
  destruct (update_run Toy.actor Toy.critic Toy.estimator Toy.sample counting_randperm
              Toy.estimator_update Toy.gradient_step Toy.ppo two_sample_storage
              (Tensor.flatten (observations two_sample_storage))
              (Tensor.flatten (observations two_sample_storage)))
    as (self' & Hrun & Hlen & Hst); [reflexivity | reflexivity | cbn; lia | cbn; lia |].
  cbv zeta in Hrun, Hlen.
  set (passes := sweep_losses _ _ _ _ _ _ _ _) in *.
  assert (Hest : map estimation_loss_of_pass passes = [Fin 1; Fin 3]).
  { subst passes. rewrite toy_estimation_losses.
    rewrite two_sample_storage_fields. reflexivity. }
  exists passes, self'.
  destruct passes as [|p0 [|p1 [|p2 passes]]]; try discriminate Hest.
  injection Hest as H0 H1.
  split; [|split; [cbn [map]; by rewrite H0, H1|split; [|exact Hst]]].
  - rewrite Hrun. unfold last_pass. cbn [List.last]. by rewrite H1.
  - unfold mean_loss, total. cbn [map fold_left length]. rewrite H0, H1.
    cbn [Tensor.xadd div_int]. f_equal. cbn [INR]. lra.
Qed.

End ToyFacts.

(** *** PPO on the small instance *)

Section PPOInstances.
Import Storage PPO Spec.

Lemma process_env_step_time_outs_witness :
  exists recorded st',
    process_env_step [1%R; 2%R] [1%Z; 0%Z] {["time_outs"%string := [true; false]]}
      [[0%R]; [0%R]] Toy.acting
    = (Ok tt, set_transition empty_transition (set_storage (Some st') Toy.acting)) /\
    nth 0 recorded 0%R = (1 + 0.99 * 0.5)%R /\
    nth 1 recorded 0%R = 2%R /\
    rewards st' !! 0 = Some recorded.
Proof.
  destruct (process_env_step_time_outs Toy.acting (init 2 1 1 None 1)
              [1%R; 2%R] [1%Z; 0%Z] {["time_outs"%string := [true; false]]}
              [[0%R]; [0%R]]
              [[1%R]; [3%R]] [[1%R]; [3%R]] [[0%R]; [0%R]] [0.5%R; 0.25%R]
              [0%R; 0%R] [[0%R]; [0%R]] [[1%R]; [1%R]] None None None)
    as (recorded & st' & Hrun & _ & Hrec & _ & Hrow & _).
  - reflexivity.
  - apply init_wf.
  - cbn. lia.
  - reflexivity.
  - reflexivity.
  - intros time_outs. rewrite lookup_singleton_eq. by intros [= <-].
  - exists recorded, st'. split; [exact Hrun|].
    pose proof (Hrec 0) as H0. pose proof (Hrec 1) as H1.
    rewrite lookup_singleton_eq in H0, H1. cbn in H0, H1.
    split; [apply H0; lia|]. split; [apply H1; lia|]. exact Hrow.
Defined.



End PPOInstances.

(** * Further properties *)

(** ** Rollout storage: calls that raise *)

Import Notions.

Lemma same_except_refl {A} i (l : list A) : same_except i l l.
Proof. by split. Qed.

Lemma same_except_insert {A} i (l : list A) x : same_except i l (<[i := x]> l).
Proof.
  split; [apply length_insert|]. intros j Hj. by apply list_lookup_insert_ne.
Qed.




(** ** Returns: the buffer as a whole *)

Lemma gae_advantage_ext (s1 s2 : HIMRolloutStorage) last_values gamma lam :
  rewards s2 = rewards s1 -> values s2 = values s1 -> dones s2 = dones s1 ->
  num_transitions_per_env s2 = num_transitions_per_env s1 ->
  forall k t n,
    gae_advantage s2 last_values gamma lam k t n
    = gae_advantage s1 last_values gamma lam k t n.
Proof.
  intros Hr Hv Hd HT k. induction k as [|k IH]; intros t n; [reflexivity|].
  cbn [gae_advantage]. rewrite IH.
  unfold delta, mask, done_at, reward_at, next_value, value_at.
  by rewrite Hr, Hv, Hd, HT.
Qed.

Lemma gae_return_ext (s1 s2 : HIMRolloutStorage) last_values gamma lam t n :
  rewards s2 = rewards s1 -> values s2 = values s1 -> dones s2 = dones s1 ->
  num_transitions_per_env s2 = num_transitions_per_env s1 ->
  gae_return s2 last_values gamma lam t n = gae_return s1 last_values gamma lam t n.
Proof.
  intros Hr Hv Hd HT. unfold gae_return.
  rewrite (gae_advantage_ext s1 s2) by done.
  unfold value_at. by rewrite Hv, HT.
Qed.

(** The state [compute_returns] leaves: the two buffers it assigns, in
    closed form, and every other attribute as before. *)
Lemma compute_returns_state s last_values gamma lam :
  wf s -> shaped s -> length last_values = num_envs s ->
  exec (compute_returns last_values gamma lam) s
  = set_advantages (normalize (raw_advantages s last_values gamma lam))
      (set_returns (gae_returns s last_values gamma lam) s).
Proof.
  intros Hwf Hshaped Hlast.
  destruct (gae_loop s last_values gamma lam Hwf Hshaped Hlast
              (num_transitions_per_env s) 0%nat)
    as (acc & rt & Hrun & _ & _ & Hlen & Hdone & _); [lia|].
  rewrite <- fold_left_rev in Hrun.
  pose proof (compute_returns_buffers s last_values gamma lam Hwf Hshaped Hlast)
    as (_ & _ & Hadv).
  assert (Hs' : exec (compute_returns last_values gamma lam) s
                = set_advantages (normalize (zip_with Tensor.sub rt (values s)))
                                 (set_returns rt s)).
  { unfold exec, compute_returns, modify. cbn [snd]. rewrite Hrun.
    by destruct s. }
  assert (Hrt : rt = gae_returns s last_values gamma lam).
  { unfold gae_returns. apply (nth_ext _ _ [] []).
    - by rewrite List.length_map, length_seq.
    - intros t Ht. rewrite Hlen in Ht.
      destruct (Hdone t) as [Hrow Hentries]; [lia|].
      rewrite (nth_map_lt _ _ _ 0%nat) by (rewrite length_seq; lia).
      rewrite seq_nth by lia. cbn [Nat.add].
      apply (nth_ext _ _ 0%R 0%R).
      + by rewrite List.length_map, length_seq.
      + intros n Hn. rewrite Hrow in Hn.
        rewrite (nth_map_lt _ _ _ 0%nat) by (rewrite length_seq; lia).
        rewrite seq_nth by lia. cbn [Nat.add]. by apply Hentries. }
  cbv zeta in Hadv. rewrite Hs' in Hadv |- *. rewrite <- Hrt.
  replace (normalize (zip_with Tensor.sub rt (values s)))
    with (normalize (raw_advantages s last_values gamma lam)); [reflexivity|].
  rewrite <- Hadv. by destruct s.
Qed.

Lemma compute_returns_shaped s last_values gamma lam :
  shaped s -> shaped (exec (compute_returns last_values gamma lam) s).
Proof.
  unfold exec, compute_returns, modify. cbn [snd].
  destruct (fold_left _ _ _) as [acc rt]. by destruct s.
Qed.

(** X2: on a filled buffer a second [compute_returns] with the same
    arguments changes nothing, and the first one has assigned [returns]
    and [advantages] only: with the old two buffers put back the storage
    is the one before the call. *)
Theorem compute_returns_idempotent (s : HIMRolloutStorage) (last_values : list R)
    (gamma lam : R) :
  wf s -> shaped s -> length last_values = num_envs s ->
  let s' := exec (compute_returns last_values gamma lam) s in
  exec (compute_returns last_values gamma lam) s' = s' /\
  set_advantages (advantages s) (set_returns (returns s) s') = s.
Proof.
  intros Hwf Hshaped Hlast s'.
  pose proof (compute_returns_state s last_values gamma lam Hwf Hshaped Hlast) as Hs'.
  fold s' in Hs'.
  assert (Hsame : rewards s' = rewards s /\ values s' = values s /\
                  dones s' = dones s /\
                  num_transitions_per_env s' = num_transitions_per_env s /\
                  num_envs s' = num_envs s).
  { rewrite Hs'. by destruct s. }
  destruct Hsame as (Hr & Hv & Hd & HT & HN).
  split; [|rewrite Hs'; by destruct s].
  rewrite compute_returns_state;
    [| by apply compute_returns_wf | by apply compute_returns_shaped | by rewrite HN].
  assert (Hret : gae_returns s' last_values gamma lam
                 = gae_returns s last_values gamma lam).
  { unfold gae_returns. rewrite HT, HN.
    apply map_ext. intros t. apply map_ext. intros n. by apply gae_return_ext. }
  assert (Hraw : raw_advantages s' last_values gamma lam
                 = raw_advantages s last_values gamma lam).
  { unfold raw_advantages. rewrite HT, HN.
    apply map_ext. intros t. apply map_ext. intros n.
    rewrite (gae_return_ext s s') by done. unfold value_at. by rewrite Hv. }
  rewrite Hret, Hraw. rewrite Hs' at 1 2. by destruct s.
Qed.

Lemma two_sample_storage_shaped : shaped two_sample_storage.
Proof. rewrite two_sample_storage_fields. repeat split; by repeat constructor. Qed.

Lemma two_sample_storage_wf : wf two_sample_storage.
Proof. apply add_transitions_wf, init_wf. Qed.

Lemma compute_returns_idempotent_witness :
  let s' := exec (compute_returns [0%R; 0%R] 0.99 0.95) two_sample_storage in
  exec (compute_returns [0%R; 0%R] 0.99 0.95) s' = s'.
Proof.
  exact (proj1 (compute_returns_idempotent two_sample_storage [0%R; 0%R] 0.99 0.95
                  two_sample_storage_wf two_sample_storage_shaped eq_refl)).
Defined.

(** X3: the returns that [compute_returns] stores satisfy the recursion
    of the lambda-return: the return at time [t] is the reward plus, when
    the step is not terminal, gamma times the mix of the next value and
    the next return with weights [1 - lam] and [lam], both being the
    bootstrap value after the last step. Where the stored done flag is 1
    the return is the reward. *)
Theorem compute_returns_lambda_return (s : HIMRolloutStorage) (last_values : list R)
    (gamma lam : R) :
  wf s -> shaped s -> length last_values = num_envs s ->
  let s' := exec (compute_returns last_values gamma lam) s in
  forall t n, t < num_transitions_per_env s -> n < num_envs s ->
    nth n (nth t (returns s') []) 0%R
    = (reward_at s t n
       + mask s t n * gamma
         * ((1 - lam) * next_value s last_values t n
            + lam * next_return s last_values (returns s') t n))%R /\
    (nth n (nth t (dones s) []) 0%Z = 1%Z ->
     nth n (nth t (returns s') []) 0%R = reward_at s t n).
Proof.
  intros Hwf Hshaped Hlast s' t n Ht Hn.
  destruct (compute_returns_buffers s last_values gamma lam Hwf Hshaped Hlast)
    as (_ & Hret & _).
  fold s' in Hret.
  assert (Hrec : nth n (nth t (returns s') []) 0%R
    = (reward_at s t n
       + mask s t n * gamma
         * ((1 - lam) * next_value s last_values t n
            + lam * next_return s last_values (returns s') t n))%R).
  { rewrite Hret by done. unfold next_return, gae_return.
    replace (num_transitions_per_env s - t) with (S (num_transitions_per_env s - t - 1))
      by lia.
    cbn [gae_advantage]. unfold delta at 1.
    destruct (Nat.eqb_spec t (num_transitions_per_env s - 1)) as [Hend|Hmid].
    - replace (num_transitions_per_env s - t - 1) with 0 by lia.
      cbn [gae_advantage]. unfold next_value.
      destruct (Nat.eqb_spec t (num_transitions_per_env s - 1)); [ring | done].
    - rewrite Hret by lia. unfold gae_return.
      replace (num_transitions_per_env s - (t + 1))
        with (num_transitions_per_env s - t - 1) by lia.
      replace (S t) with (t + 1) by lia.
      unfold next_value.
      destruct (Nat.eqb_spec t (num_transitions_per_env s - 1)); [done | ring]. }
  split; [exact Hrec|].
  intros Hdone. rewrite Hrec. unfold mask, done_at. rewrite Hdone. ring.
Qed.

Lemma compute_returns_lambda_return_witness :
  nth 1 (nth 0 (returns (exec (compute_returns [0%R; 0%R] 0.99 0.95)
                           two_sample_storage)) []) 0%R
  = reward_at two_sample_storage 0 1.
Proof.
  apply (compute_returns_lambda_return two_sample_storage [0%R; 0%R] 0.99 0.95
           two_sample_storage_wf two_sample_storage_shaped eq_refl 0 1).
  - rewrite two_sample_storage_fields. cbn. lia.
  - rewrite two_sample_storage_fields. cbn. lia.
  - by rewrite two_sample_storage_fields.
Defined.

(** ** Statistics *)

(** Entry [i] of a flattened buffer of rows of [N] entries. *)
Lemma nth_concat_uniform {A} (rows : list (list A)) N i d :
  Forall (fun row => length row = N) rows ->
  nth i (concat rows) d = nth (i mod N) (nth (i / N) rows []) d.
Proof.
  intros Hall. destruct (Nat.eq_dec N 0) as [->|HN].
  - assert (Hrow : length (nth (i / 0) rows []) = 0).
    { destruct (Nat.lt_ge_cases (i / 0) (length rows)).
      - by apply row_length.
      - by rewrite List.nth_overflow. }
    rewrite (List.nth_overflow (nth _ rows [])) by lia.
    apply List.nth_overflow.
    pose proof (flatten_rows_length rows 0 Hall) as Hflat.
    unfold Tensor.flatten in Hflat. lia.
  - revert i. induction Hall as [|row rows Hrow _ IH]; intros i.
    + cbn [concat]. destruct (i / N), (i mod N), i; reflexivity.
    + cbn [concat]. destruct (Nat.lt_ge_cases i N) as [Hlt|Hge].
      * rewrite app_nth1 by lia.
        by rewrite Nat.div_small, Nat.mod_small by lia.
      * rewrite app_nth2 by lia. rewrite Hrow, IH.
        destruct (Nat.le_exists_sub N i Hge) as (j & -> & _).
        replace (j + N - N) with j by lia.
        replace (j + N) with (j + 1 * N) by lia.
        rewrite Nat.div_add, Nat.Div0.mod_add by lia.
        by replace (j / N + 1) with (S (j / N)) by lia.
Qed.

Lemma map_const_repeat {A B} (x : B) (l : list A) :
  map (fun _ => x) l = repeat x (length l).
Proof. induction l as [|a l IH]; [reflexivity|]. cbn. by rewrite IH. Qed.

Lemma removelast_cons_length {A} (x : A) (l : list A) :
  length (removelast (x :: l)) = length l.
Proof.
  revert x. induction l as [|y l IH]; intros x; [reflexivity|].
  change (removelast (x :: y :: l)) with (x :: removelast (y :: l)).
  cbn [length]. by rewrite IH.
Qed.

(** The differences of consecutive indices add up to the last index
    minus the first. *)
Lemma trajectory_lengths_sum (l : list Z) (x : Z) :
  Tensor.sum (map IZR (zip_with Z.sub l (removelast (x :: l))))
  = IZR (List.last l x - x).
Proof.
  revert x. induction l as [|y l IH]; intros x.
  - cbn. by rewrite Z.sub_diag.
  - change (removelast (x :: y :: l)) with (x :: removelast (y :: l)).
    cbn [zip_with map].
    change (Tensor.sum (IZR (y - x) :: ?rest)) with (IZR (y - x) + Tensor.sum rest)%R.
    rewrite IH, last_cons_any, <- plus_IZR. f_equal. lia.
Qed.

Lemma env_major_length done N :
  length (env_major done N) = N * length done.
Proof.
  unfold env_major. rewrite flat_map_concat_map.
  rewrite (flatten_rows_length _ (length done)).
  - by rewrite List.length_map, length_seq.
  - apply Forall_map, Forall_forall. intros n _. cbn. by rewrite List.length_map.
Qed.

(** The flags of environment [n] are [T] consecutive entries. *)
Lemma env_major_nth done N n j :
  n < N -> j < length done ->
  nth (n * length done + j) (env_major done N) 0%Z = nth n (nth j done []) 0%Z.
Proof.
  intros Hn Hj. unfold env_major. rewrite flat_map_concat_map.
  rewrite (nth_concat_uniform _ (length done)).
  - replace (n * length done + j) with (j + n * length done) by lia.
    rewrite Nat.div_add, Nat.Div0.mod_add by lia.
    rewrite Nat.div_small, Nat.mod_small by lia. cbn [Nat.add].
    rewrite (nth_map_lt _ _ _ 0) by (rewrite length_seq; lia).
    rewrite seq_nth by lia. cbn [Nat.add].
    by rewrite (nth_map_lt _ _ _ []) by lia.
  - apply Forall_map, Forall_forall. intros m _. cbn. by rewrite List.length_map.
Qed.

Lemma nonzero_length flat : length (nonzero flat) <= length flat.
Proof.
  unfold nonzero. rewrite List.length_map.
  etransitivity; [apply length_filter|]. by rewrite length_seq.
Qed.

Lemma nonzero_elem flat i :
  i < length flat -> nth i flat 0%Z <> 0%Z ->
  i ∈ filter (fun i => negb (Z.eqb (nth i flat 0%Z) 0)) (seq 0 (length flat)).
Proof.
  intros Hi Hnz. apply list_elem_of_filter. split.
  - destruct (Z.eqb_spec (nth i flat 0%Z) 0); [done | exact I].
  - apply elem_of_seq. lia.
Qed.

Lemma nonzero_last flat :
  0 < length flat -> nth (length flat - 1) flat 0%Z <> 0%Z ->
  forall d, List.last (nonzero flat) d = Z.of_nat (length flat - 1).
Proof.
  intros Hlen Hnz d. unfold nonzero.
  replace (length flat) with (S (length flat - 1)) at 1 by lia.
  rewrite seq_S, filter_app, map_app. cbn [Nat.add].
  rewrite filter_cons_True, filter_nil.
  - cbn [map]. apply last_last.
  - destruct (Z.eqb_spec (nth (length flat - 1) flat 0%Z) 0); [done | exact I].
Qed.

(** Positions that hold a nonzero flag are counted. *)
Lemma nonzero_count flat (positions : list nat) :
  NoDup positions ->
  Forall (fun i => i < length flat /\ nth i flat 0%Z <> 0%Z) positions ->
  length positions <= length (nonzero flat).
Proof.
  intros Hnd Hall. unfold nonzero. rewrite List.length_map.
  apply List.NoDup_incl_length; [by apply NoDup_ListNoDup|].
  intros i Hi. apply list_elem_of_In. apply list_elem_of_In in Hi.
  pose proof (proj1 (Forall_forall _ _) Hall i Hi) as [Hlt' Hnz].
  by apply nonzero_elem.
Qed.

Section Statistics.
Variable s : HIMRolloutStorage.
Hypothesis Hwf : wf s.
Hypothesis Hshaped : shaped s.
Hypothesis HT : 0 < num_transitions_per_env s.

Local Abbreviation T := (num_transitions_per_env s).
Local Abbreviation N := (num_envs s).

(** The write [done[-1] = 1] of [get_statistics]. *)
Lemma get_statistics_run :
  exists stats,
    get_statistics s
    = (Ok stats, set_dones (<[T - 1 := repeat 1%Z N]> (dones s)) s) /\
    stats
    = (Tensor.mean
         (map IZR
            (let flat := env_major (<[T - 1 := repeat 1%Z N]> (dones s)) N in
             zip_with Z.sub (nonzero flat) (removelast ((-1)%Z :: nonzero flat)))),
       Tensor.mean (Tensor.flatten (rewards s))).
Proof.
  unfold get_statistics, bind, get, modify, ret, env_major.
  destruct Hwf. rewrite wf_dones0.
  destruct (Nat.eqb_spec T 0) as [|_]; [lia|].
  rewrite map_const_repeat.
  rewrite (row_length (dones s) N) by (try apply Hshaped; lia).
  eexists. split; [reflexivity|]. cbn [tail]. by destruct s.
Qed.

Lemma forced_dones_entry n :
  n < N -> nth n (nth (T - 1) (<[T - 1 := repeat 1%Z N]> (dones s)) []) 0%Z = 1%Z.
Proof.
  intros Hn. destruct Hwf.
  rewrite nth_insert_eq by lia. by apply nth_repeat_lt.
Qed.

End Statistics.

(** X4: on a buffer of at least one step and one environment
    [get_statistics] returns, after writing 1 into every done flag of the
    last row and nothing else. The mean trajectory length it reports is
    the number of samples [N * T] divided by the number of nonzero done
    flags, counting the forced ones; there are between [N] and [N * T] of
    them, so the mean lies between 1 and [T]. The second component is the
    mean of all stored rewards. *)
Theorem get_statistics_mean_length (s : HIMRolloutStorage) :
  wf s -> shaped s -> 0 < num_transitions_per_env s -> 0 < num_envs s ->
  let T := num_transitions_per_env s in
  let N := num_envs s in
  let s' := set_dones (<[T - 1 := repeat 1%Z N]> (dones s)) s in
  let k := length (nonzero (env_major (dones s') N)) in
  get_statistics s
  = (Ok (Fin (INR (N * T) / INR k), Tensor.mean (Tensor.flatten (rewards s))), s') /\
  N <= k <= N * T /\
  (1 <= INR (N * T) / INR k <= INR T)%R.
Proof.
  intros Hwf Hshaped HT HN. cbv zeta.
  destruct (get_statistics_run s Hwf Hshaped HT) as (stats & Hrun & ->).
  pose proof (forced_dones_entry s Hwf HT) as Hentry.
  pose proof (wf_dones s Hwf) as Hdlen.
  assert (Hd' : forall x, dones (set_dones x s) = x) by (intros x; by destruct s).
  rewrite Hd', Hrun. clear Hrun Hd'.
  remember (num_transitions_per_env s) as T eqn:ET.
  remember (num_envs s) as N eqn:EN.
  set (done' := <[T - 1 := repeat 1%Z N]> (dones s)) in *.
  assert (Hlen' : length done' = T).
  { subst done'. by rewrite length_insert. }
  set (flat := env_major done' N) in *.
  assert (Hflat : length flat = N * T).
  { subst flat. rewrite env_major_length. lia. }
  assert (Hends : forall n, n < N -> nth (n * T + (T - 1)) flat 0%Z = 1%Z).
  { intros n Hn. subst flat. rewrite <- Hlen' at 1.
    rewrite env_major_nth by lia. by apply Hentry. }
  set (k := length (nonzero flat)).
  assert (HNT : 1 <= N * T) by nia.
  assert (HkN : N <= k).
  { subst k.
    etransitivity;
      [|apply (nonzero_count flat (map (fun n => n * T + (T - 1)) (seq 0 N)))].
    - by rewrite List.length_map, length_seq.
    - apply NoDup_fmap_2; [intros a b Hab; nia | apply NoDup_seq].
    - apply Forall_map, Forall_forall. intros n Hn%elem_of_seq. cbn.
      split; [nia|]. by rewrite Hends by lia. }
  assert (HkNT : k <= N * T).
  { subst k. rewrite <- Hflat. apply nonzero_length. }
  assert (Hlast : List.last (nonzero flat) (-1)%Z = Z.of_nat (N * T - 1)).
  { rewrite <- Hflat. apply nonzero_last; [lia|]. rewrite Hflat.
    replace (N * T - 1) with ((N - 1) * T + (T - 1)) by nia.
    by rewrite Hends by lia. }
  assert (Hk0 : (0 < INR k)%R) by (apply lt_0_INR; lia).
  split; [|split; [lia|]].
  - f_equal. f_equal.
    rewrite mean_nonempty
      by (rewrite List.length_map, length_zip_with, removelast_cons_length;
          fold k; lia).
    rewrite trajectory_lengths_sum, Hlast.
    rewrite List.length_map, length_zip_with, removelast_cons_length, Nat.min_id.
    fold k. rewrite (INR_IZR_INZ (N * T)).
    replace (Z.of_nat (N * T - 1) - -1)%Z with (Z.of_nat (N * T)) by lia.
    reflexivity.
  - assert (Hle : (INR k <= INR (N * T))%R) by (apply le_INR; lia).
    assert (Hge : (INR (N * T) <= INR T * INR k)%R).
    { rewrite <- mult_INR. apply le_INR. nia. }
    split.
    + apply (Rmult_le_reg_r (INR k)); [done|].
      unfold Rdiv. rewrite Rmult_assoc, Rinv_l by lra. lra.
    + apply (Rmult_le_reg_r (INR k)); [done|].
      unfold Rdiv. rewrite Rmult_assoc, Rinv_l by lra. lra.
Qed.

Lemma get_statistics_mean_length_witness :
  fst (get_statistics two_sample_storage)
  = Ok (Fin (INR (2 * 1)
             / INR (length (nonzero (env_major [repeat 1%Z 2] 2)))),
        Tensor.mean (Tensor.flatten (rewards two_sample_storage))).
Proof.
  destruct (get_statistics_mean_length two_sample_storage
              two_sample_storage_wf two_sample_storage_shaped) as (Hrun & _).
  - rewrite two_sample_storage_fields. cbn. lia.
  - rewrite two_sample_storage_fields. cbn. lia.
  - cbv zeta in Hrun. rewrite Hrun. by rewrite two_sample_storage_fields.
Defined.

Lemma get_statistics_shaped s :
  wf s -> shaped s -> 0 < num_transitions_per_env s ->
  shaped (set_dones (<[num_transitions_per_env s - 1
                       := repeat 1%Z (num_envs s)]> (dones s)) s).
Proof.
  intros Hwf (Hr & Hv & Hd) HT.
  assert (Hd' : Forall (fun row => length row = num_envs s)
                  (<[num_transitions_per_env s - 1
                     := repeat 1%Z (num_envs s)]> (dones s))).
  { apply Forall_insert; [done | apply repeat_length]. }
  destruct s. by repeat split.
Qed.

(** With every flag of the last row at 1 the bootstrap value is masked
    out of the recursion. *)
Lemma gae_advantage_forced (s : HIMRolloutStorage) (lv lv' : list R) gamma lam n :
  (forall t, t = num_transitions_per_env s - 1 ->
             nth n (nth t (dones s) []) 0%Z = 1%Z) ->
  forall k t, t + k = num_transitions_per_env s ->
    gae_advantage s lv gamma lam k t n = gae_advantage s lv' gamma lam k t n.
Proof.
  intros Hlast k. induction k as [|k IH]; intros t Ht; [reflexivity|].
  cbn [gae_advantage]. rewrite (IH (S t)) by lia. f_equal.
  unfold delta, next_value.
  destruct (Nat.eqb_spec t (num_transitions_per_env s - 1)) as [Hend|_]; [|reflexivity].
  unfold mask, done_at. rewrite Hlast by done. ring.
Qed.

(** X5: after [get_statistics], which ends every trajectory at the last
    step, [compute_returns] no longer depends on the bootstrap values it
    is given: any two tensors of last values leave the same storage. *)
Theorem get_statistics_drops_bootstrap (s : HIMRolloutStorage)
    (last_values other_values : list R) (gamma lam : R) :
  wf s -> shaped s -> 0 < num_transitions_per_env s ->
  length last_values = num_envs s -> length other_values = num_envs s ->
  let s' := exec get_statistics s in
  exec (compute_returns last_values gamma lam) s'
  = exec (compute_returns other_values gamma lam) s'.
Proof.
  intros Hwf Hshaped HT Hlv Hlv' s'.
  destruct (get_statistics_run s Hwf Hshaped HT) as (stats & Hrun & _).
  assert (Hs' : s' = set_dones (<[num_transitions_per_env s - 1
                                  := repeat 1%Z (num_envs s)]> (dones s)) s).
  { subst s'. unfold exec. by rewrite Hrun. }
  assert (Hwf' : wf s').
  { subst s'. by apply get_statistics_wf. }
  assert (Hshaped' : shaped s').
  { rewrite Hs'. by apply get_statistics_shaped. }
  assert (Hsame : num_transitions_per_env s' = num_transitions_per_env s /\
                  num_envs s' = num_envs s /\
                  dones s' = <[num_transitions_per_env s - 1
                               := repeat 1%Z (num_envs s)]> (dones s)).
  { rewrite Hs'. by destruct s. }
  destruct Hsame as (HT' & HN' & Hd').
  assert (Hadv : forall k t n, n < num_envs s' ->
            t + k = num_transitions_per_env s' ->
            gae_advantage s' last_values gamma lam k t n
            = gae_advantage s' other_values gamma lam k t n).
  { intros k t n Hn Ht. apply gae_advantage_forced; [|done].
    intros t' ->. rewrite Hd', HT'. apply (forced_dones_entry s Hwf HT). lia. }
  assert (Hret : forall t n, t < num_transitions_per_env s' -> n < num_envs s' ->
            gae_return s' last_values gamma lam t n
            = gae_return s' other_values gamma lam t n).
  { intros t n Ht Hn. unfold gae_return. rewrite Hadv by (done || lia). reflexivity. }
  rewrite !compute_returns_state by (done || lia).
  assert (Hreturns : gae_returns s' last_values gamma lam
                     = gae_returns s' other_values gamma lam).
  { unfold gae_returns. apply map_ext_in. intros t Ht%in_seq.
    apply map_ext_in. intros n Hn%in_seq. apply Hret; lia. }
  assert (Hraw : raw_advantages s' last_values gamma lam
                 = raw_advantages s' other_values gamma lam).
  { unfold raw_advantages. apply map_ext_in. intros t Ht%in_seq.
    apply map_ext_in. intros n Hn%in_seq. rewrite Hret by lia. reflexivity. }
  by rewrite Hreturns, Hraw.
Qed.

Lemma get_statistics_drops_bootstrap_witness :
  let s' := exec get_statistics two_sample_storage in
  exec (compute_returns [0%R; 0%R] 0.99 0.95) s'
  = exec (compute_returns [5%R; 5%R] 0.99 0.95) s'.
Proof.
  apply (get_statistics_drops_bootstrap two_sample_storage [0%R; 0%R] [5%R; 5%R]
           0.99 0.95 two_sample_storage_wf two_sample_storage_shaped).
  - rewrite two_sample_storage_fields. cbn. lia.
  - by rewrite two_sample_storage_fields.
  - by rewrite two_sample_storage_fields.
Defined.

(** ** Minibatches: what a row holds *)

Lemma nth_gather {A} (d : A) (t : list A) (idx : list nat) j :
  j < length idx -> nth j (Tensor.gather d t idx) d = nth (nth j idx 0) t d.
Proof. intros Hj. unfold Tensor.gather. by rewrite (nth_map_lt _ _ _ 0). Qed.

Lemma nth_gather_flatten {A} (d : A) (buffer : list (list A)) N (idx : list nat) j :
  uniform N buffer -> j < length idx ->
  nth j (Tensor.gather d (Tensor.flatten buffer) idx) d
  = sample_of d buffer N (nth j idx 0).
Proof.
  intros Hshape Hj. rewrite nth_gather by done.
  by apply nth_concat_uniform.
Qed.

(** X6: every minibatch the generator yields is gathered at one chunk of
    indices, and row [j] of each of its tensors is the entry of the
    corresponding buffer for one and the same sample: environment
    [i mod N] at time [i / N], where [i] is the [j]-th index of the chunk.
    Without privileged observations both critic tensors are the
    observation tensor. *)
Theorem mini_batch_rows_aligned {rng} (randperm : nat -> rng -> list nat * rng)
    (self : HIMRolloutStorage) (M E : nat) (g : rng) c nc :
  M <> 0 -> critic_views self = Ok (c, nc) -> shaped_all self ->
  exists batches g',
    mini_batch_generator randperm self M E g = (Ok batches, g') /\
    Forall
      (fun b =>
         exists idx,
           b = make_batch self c nc idx /\
           (privileged_observations self = None ->
              critic_observations_batch b = obs_batch b /\
              next_critic_observations_batch b = obs_batch b) /\
           forall j, j < length idx ->
             let i := nth j idx 0 in
             let N := num_envs self in
             nth j (obs_batch b) [] = sample_of [] (observations self) N i /\
             nth j (actions_batch b) [] = sample_of [] (actions self) N i /\
             nth j (target_values_batch b) 0%R = sample_of 0%R (values self) N i /\
             nth j (advantages_batch b) NaN = sample_of NaN (advantages self) N i /\
             nth j (returns_batch b) 0%R = sample_of 0%R (returns self) N i /\
             nth j (old_actions_log_prob_batch b) 0%R
             = sample_of 0%R (actions_log_prob self) N i /\
             nth j (old_mu_batch b) [] = sample_of [] (mu self) N i /\
             nth j (old_sigma_batch b) [] = sample_of [] (sigma self) N i)
      batches.
Proof.
  intros HM Hviews (Ho & Ha & Hv & Hadv & Hr & Hlp & Hmu & Hsg).
  eexists _, _. split; [by apply mini_batch_generator_run|].
  apply concat_repeat_Forall, Forall_map, Forall_forall. intros idx _.
  exists idx. split; [reflexivity|]. split.
  - intros Hnone. unfold critic_views in Hviews. rewrite Hnone in Hviews.
    by injection Hviews as <- <-.
  - intros j Hj. cbv zeta. unfold make_batch. cbn.
    by rewrite !(nth_gather_flatten _ _ (num_envs self)).
Qed.

Lemma two_sample_storage_shaped_all : shaped_all two_sample_storage.
Proof.
  rewrite two_sample_storage_fields. repeat split; by repeat constructor.
Qed.

Lemma mini_batch_rows_aligned_witness :
  exists batches g',
    mini_batch_generator counting_randperm two_sample_storage 2 1 0
    = (Ok batches, g') /\
    Forall (fun b => exists idx,
              b = make_batch two_sample_storage [[1%R]; [3%R]] [[1%R]; [3%R]] idx)
           batches.
Proof.
  destruct (mini_batch_rows_aligned counting_randperm two_sample_storage 2 1 0
              [[1%R]; [3%R]] [[1%R]; [3%R]])
    as (batches & g' & Hrun & Hall).
  - lia.
  - reflexivity.
  - apply two_sample_storage_shaped_all.
  - exists batches, g'. split; [exact Hrun|].
    eapply Forall_impl; [exact Hall|]. intros b (idx & Hb & _). by exists idx.
Defined.

(** ** Actor-critic: the distribution *)

Section DistributionFacts.
Import ActorCritic.
Context {actor_params critic_params estimator_params : Type}.
Variable actor : actor_params -> list vector -> list vector.
Variable estimator : estimator_params -> list vector -> list vector * list vector.

Local Abbreviation HIMActorCritic :=
  (@ActorCritic.HIMActorCritic actor_params critic_params estimator_params).

(** [mean * 0. + self.std] for a row of the width of [self.std]. *)
Lemma broadcast_std (row sd : list R) :
  length row = length sd -> Tensor.add (mul_float row 0) sd = sd.
Proof.
  revert sd. induction row as [|x row IH]; intros [|y sd] Hlen; try done.
  cbn in *. f_equal; [ring|]. apply IH. lia.
Qed.

(** X7: the standard deviation of the policy does not depend on the
    observations. When the actor's output rows have the width of
    [self.std], after [update_distribution] every row of [action_std] is
    [self.std], every entry of [entropy] is the entropy of [self.std]
    summed over the action coordinates, and [action_mean] is what
    [act_inference] returns. *)
Theorem action_std_state_independent (self : HIMActorCritic) (obs_history : list vector) :
  let mean := act_inference actor estimator self obs_history in
  Forall (fun row => length row = length (std self)) mean ->
  let self' := exec (update_distribution actor estimator obs_history) self in
  action_mean self' = (Ok mean, self') /\
  action_std self' = (Ok (map (fun _ => std self) mean), self') /\
  entropy self'
  = (Ok (map (fun _ => Tensor.sum (map entropy1 (std self))) mean), self').
Proof.
  intros mean Hrows self'.
  assert (Hscale : map (fun row => Tensor.add (mul_float row 0) (std self)) mean
                   = map (fun _ => std self) mean).
  { apply map_ext_in. intros row Hrow.
    apply broadcast_std. by apply (proj1 (List.Forall_forall _ _) Hrows). }
  assert (Hd : distribution self' = Some (mkNormal mean (map (fun _ => std self) mean))).
  { subst self' mean. unfold exec, update_distribution, modify, act_inference in *.
    destruct (estimator (estimator_net self) obs_history) as [vel latent].
    cbn [snd]. rewrite Hscale. by destruct self. }
  unfold action_mean, action_std, entropy, current_distribution, bind, get, ret.
  rewrite Hd. cbn [loc scale]. by rewrite List.map_map.
Qed.

End DistributionFacts.

Lemma action_std_state_independent_witness :
  let self := ActorCritic.mkActorCritic tt tt tt [1%R] None 1 in
  ActorCritic.action_std
    (exec (ActorCritic.update_distribution Toy.actor Toy.estimator [[1%R]; [3%R]]) self)
  = (Ok [[1%R]; [1%R]],
     exec (ActorCritic.update_distribution Toy.actor Toy.estimator [[1%R]; [3%R]]) self).
Proof.
  intros self.
  destruct (action_std_state_independent Toy.actor Toy.estimator self [[1%R]; [3%R]])
    as (_ & Hstd & _).
  - by repeat constructor.
  - exact Hstd.
Defined.

(** ** PPO: recording steps *)

Section PPOSteps.
Import PPO Spec Loop.
Context {actor_params critic_params estimator_params rng adam_state : Type}.
Variable actor : actor_params -> list vector -> list vector.
Variable critic : critic_params -> list vector -> list R.
Variable estimator : estimator_params -> list vector -> list vector * list vector.
Variable sample : ActorCritic.Normal -> rng -> list vector * rng.
Variable randperm : nat -> rng -> list nat * rng.
Variable estimator_update :
  estimator_params -> list vector -> list vector -> R -> (value * value) * estimator_params.

Local Abbreviation HIMPPO :=
  (@PPO.HIMPPO actor_params critic_params estimator_params rng adam_state).
Local Abbreviation HIMActorCritic :=
  (@ActorCritic.HIMActorCritic actor_params critic_params estimator_params).

Variable gradient_step :
  HIMPPO -> Storage.MiniBatch -> value -> HIMActorCritic * adam_state.

(** Unfolding a method of [HIMPPO] on a state given by its fields. *)
Ltac step_ppo :=
  lazy beta iota zeta delta
    [act process_env_step on_transition bootstrap_time_outs on_storage on_actor_critic
     on_actor_critic_rng on_generator compute_returns
     ActorCritic.reset ActorCritic.evaluate bind get modify ret raise exec fst snd
     set_transition set_storage set_actor_critic set_learning_rate set_optimizer
     set_generator
     transition storage actor_critic gamma lam generator
     Storage.with_observations Storage.with_critic_observations Storage.with_actions
     Storage.with_rewards Storage.with_dones Storage.with_values
     Storage.with_actions_log_prob Storage.with_action_mean Storage.with_action_sigma
     Storage.with_next_critic_observations Storage.transition_clear
     Storage.tr_values Storage.tr_rewards Storage.tr_dones
     Storage.tr_next_critic_observations].






(** X10: on a full storage [process_env_step] raises the overflow error
    of [add_transitions]. The storage is as it was; the transition is not
    cleared: it holds the fields of [act] and those just assigned. *)
Theorem process_env_step_overflow (self : HIMPPO) (st : Storage.HIMRolloutStorage)
    (rewards : list R) (dones : list Z) (infos : gmap string (list bool))
    (next_critic_obs : list vector) (v : list R) :
  storage self = Some st ->
  Storage.num_transitions_per_env st <= Storage.step st ->
  Storage.tr_values (transition self) = Some v ->
  exists recorded,
    process_env_step rewards dones infos next_critic_obs self
    = (Raise (AssertionError "Rollout buffer overflow"),
       set_transition
         (Storage.with_rewards (Some recorded)
            (Storage.with_dones (Some dones)
               (Storage.with_next_critic_observations (Some next_critic_obs)
                  (transition self))))
         self) /\
    (infos !! "time_outs"%string = None -> recorded = rewards).
Proof.
  intros Hst Hfull Hv.
  destruct self as [dk sc lr ac sto op tr cp E M vc ec gm lm mg uc gen].
  destruct tr as [to tc ta trw td tv tlp tm ts tn].
  cbn in Hst, Hv. subst sto tv.
  step_ppo.
  destruct (infos !! "time_outs"%string) as [time_outs|]; step_ppo;
    rewrite add_transitions_full by done; eexists; (split; [reflexivity|]); done.
Qed.

(** X11: before [init_storage] there is no storage: [compute_returns] and
    [update] raise an [AttributeError] and change nothing, and
    [process_env_step] raises it after assigning its three fields of the
    transition. [init_storage] then installs the empty storage of the
    given shape. *)
Theorem storage_required (self : HIMPPO) :
  storage self = None ->
  (forall last_critic_obs,
     compute_returns critic last_critic_obs self = (Raise AttributeError, self)) /\
  update actor critic estimator sample randperm estimator_update gradient_step self
  = (Raise AttributeError, self) /\
  (forall rewards dones infos next_critic_obs,
     infos !! "time_outs"%string = None ->
     process_env_step rewards dones infos next_critic_obs self
     = (Raise AttributeError,
        set_transition
          (Storage.with_rewards (Some rewards)
             (Storage.with_dones (Some dones)
                (Storage.with_next_critic_observations (Some next_critic_obs)
                   (transition self))))
          self)) /\
  (forall num_envs T obs_dim critic_obs_dim action_dim,
     init_storage num_envs T obs_dim critic_obs_dim action_dim self
     = (Ok tt, set_storage (Some (Storage.init num_envs T obs_dim critic_obs_dim
                                    action_dim)) self)).
Proof.
  intros Hst.
  destruct self as [dk sc lr ac sto op tr cp E M vc ec gm lm mg uc gen].
  cbn in Hst. subst sto.
  split; [|split; [|split]].
  - intros last. reflexivity.
  - reflexivity.
  - intros rewards dones infos next Hinfo.
    destruct tr as [to tc ta trw td tv tlp tm ts tn].
    step_ppo. rewrite Hinfo. reflexivity.
  - reflexivity.
Qed.

End PPOSteps.

Section PPOStepInstances.
Import PPO Spec Loop.


Lemma process_env_step_overflow_witness :
  fst (process_env_step (rng := nat) (adam_state := unit) [1%R; 2%R] [1%Z; 0%Z] ∅
         [[0%R]; [0%R]]
         (set_storage (Some two_sample_storage) Toy.acting))
  = Raise (AssertionError "Rollout buffer overflow").
Proof.
  destruct (process_env_step_overflow
              (set_storage (Some two_sample_storage) Toy.acting) two_sample_storage
              [1%R; 2%R] [1%Z; 0%Z] ∅ [[0%R]; [0%R]] [0.5%R; 0.25%R])
    as (recorded & Hrun & _).
  - reflexivity.
  - rewrite two_sample_storage_fields. cbn. lia.
  - reflexivity.
  - by rewrite Hrun.
Defined.

Lemma storage_required_witness :
  update Toy.actor Toy.critic Toy.estimator Toy.sample counting_randperm
    Toy.estimator_update Toy.gradient_step (set_storage None Toy.ppo)
  = (Raise AttributeError, set_storage None Toy.ppo).
Proof.
  exact (proj1 (proj2 (storage_required Toy.actor Toy.critic Toy.estimator Toy.sample
                         counting_randperm Toy.estimator_update Toy.gradient_step
                         (set_storage None Toy.ppo) eq_refl))).
Defined.

End PPOStepInstances.

(** ** PPO: the update as a whole *)

Section PPOUpdates.
Import PPO Spec Loop.
Context {actor_params critic_params estimator_params rng adam_state : Type}.
Variable actor : actor_params -> list vector -> list vector.
Variable critic : critic_params -> list vector -> list R.
Variable estimator : estimator_params -> list vector -> list vector * list vector.
Variable sample : ActorCritic.Normal -> rng -> list vector * rng.
Variable randperm : nat -> rng -> list nat * rng.
Variable estimator_update :
  estimator_params -> list vector -> list vector -> R -> (value * value) * estimator_params.

Local Abbreviation HIMPPO :=
  (@PPO.HIMPPO actor_params critic_params estimator_params rng adam_state).
Local Abbreviation HIMActorCritic :=
  (@ActorCritic.HIMActorCritic actor_params critic_params estimator_params).

Variable gradient_step :
  HIMPPO -> Storage.MiniBatch -> value -> HIMActorCritic * adam_state.

Local Abbreviation pass :=
  (minibatch_step actor critic estimator sample estimator_update gradient_step).
Local Abbreviation passes :=
  (sweep actor critic estimator sample estimator_update gradient_step).

(** What one pass leaves of the attributes that are not networks. *)
Lemma minibatch_step_fields (b : Storage.MiniBatch) (self : HIMPPO) :
  exists d,
    ActorCritic.update_distribution actor estimator (Storage.obs_batch b)
      (actor_critic self)
    = (Ok tt, ActorCritic.set_distribution (Some d) (actor_critic self)) /\
    let self' := exec (pass b) self in
    let kl_mean :=
      Tensor.mean (kl_divergence (ActorCritic.loc d) (ActorCritic.scale d)
                     (Storage.old_mu_batch b) (Storage.old_sigma_batch b)) in
    desired_kl self' = desired_kl self /\
    schedule self' = schedule self /\
    transition self' = transition self /\
    storage self' = storage self /\
    num_learning_epochs self' = num_learning_epochs self /\
    num_mini_batches self' = num_mini_batches self /\
    gamma self' = gamma self /\ lam self' = lam self /\
    match adaptive_target self with
    | Some target =>
        learning_rate self' = adapt_learning_rate target kl_mean (learning_rate self) /\
        param_groups (optimizer self')
        = map (fun _ => learning_rate self') (param_groups (optimizer self))
    | None =>
        learning_rate self' = learning_rate self /\
        param_groups (optimizer self') = param_groups (optimizer self)
    end.
Proof.
  destruct (minibatch_step_run actor critic estimator sample estimator_update
              gradient_step b self) as (d & v & sl & loss & Hrun & _ & _ & Hupd).
  exists d. split; [exact Hupd|].
  cbv zeta in *.
  set (self' := exec (pass b) self).
  assert (Hself' : self' = exec (apply_gradient_step gradient_step b loss)
             (exec (update_estimator estimator_update b)
                (exec (schedule_learning_rate b (ActorCritic.loc d)
                         (ActorCritic.scale d))
                   (set_generator (snd (sample d (generator self)))
                      (set_actor_critic
                         (ActorCritic.set_distribution (Some d) (actor_critic self))
                         self))))).
  { subst self'. unfold exec at 1. by rewrite Hrun. }
  clearbody self'. subst self'.
  unfold exec, apply_gradient_step, update_estimator, schedule_learning_rate,
    adaptive_target, bind, get, modify, ret.
  set (self1 := set_generator _ _).
  assert (H1 : desired_kl self1 = desired_kl self /\
               schedule self1 = schedule self /\
               transition self1 = transition self /\
               storage self1 = storage self /\
               num_learning_epochs self1 = num_learning_epochs self /\
               num_mini_batches self1 = num_mini_batches self /\
               gamma self1 = gamma self /\ lam self1 = lam self /\
               learning_rate self1 = learning_rate self /\
               optimizer self1 = optimizer self)
    by (subst self1; by destruct self).
  clearbody self1.
  destruct H1 as (<- & <- & <- & <- & <- & <- & <- & <- & <- & <-).
  cbn [fst snd].
  destruct (desired_kl self1) eqn:Hdk; [destruct (String.eqb _ _)|]; cbn [fst snd];
    repeat match goal with
           | |- context [estimator_update ?a ?b ?c ?d] =>
               destruct (estimator_update a b c d) as [[? ?] ?]
           end;
    cbn [fst snd];
    repeat match goal with
           | |- context [gradient_step ?a ?b ?c] => destruct (gradient_step a b c)
           end;
    destruct self1; cbn in Hdk |- *; by subst.
Qed.

(** A property that every pass keeps is kept by the loop. *)
Lemma sweep_invariant (Inv : HIMPPO -> Prop) :
  (forall b self, Inv self -> Inv (exec (pass b) self)) ->
  forall batches acc self, Inv self -> Inv (exec (passes batches acc) self).
Proof.
  intros Hpass batches. induction batches as [|b rest IH]; intros acc self Hinv.
  - exact Hinv.
  - destruct (minibatch_step_run actor critic estimator sample estimator_update
                gradient_step b self) as (d & v & sl & loss & Hrun & _).
    cbv zeta in Hrun.
    specialize (Hpass b self Hinv). unfold exec in Hpass. rewrite Hrun in Hpass.
    unfold exec. cbn [sweep]. erewrite bind_ok by exact Hrun.
    apply IH. exact Hpass.
Qed.

(** The state [update] leaves when there is a storage and both loop
    counts are positive: that of the loop over the batches, with the
    storage cleared. *)
Lemma update_state (self : HIMPPO) st c nc :
  storage self = Some st -> Storage.critic_views st = Ok (c, nc) ->
  0 < num_mini_batches self -> 0 < num_learning_epochs self ->
  let M := num_mini_batches self in
  let E := num_learning_epochs self in
  let size := Storage.num_envs st * Storage.num_transitions_per_env st / M in
  let draw := randperm (M * size) (generator self) in
  let batches :=
    concat (repeat (map (Storage.make_batch st c nc)
                        (Storage.index_chunks (fst draw) M size)) E) in
  exists losses,
    update actor critic estimator sample randperm estimator_update gradient_step self
    = (Ok losses,
       set_storage (Some (Storage.set_step 0 st))
         (exec (passes batches zero_sums) (set_generator (snd draw) self))) /\
    length batches = M * E.
Proof.
  intros Hst Hviews HM HE M E size draw batches.
  assert (Hlen : length batches = M * E).
  { subst batches. by rewrite concat_repeat_length, List.length_map, index_chunks_length. }
  unfold update. erewrite bind_ok by reflexivity. rewrite Hst.
  erewrite bind_ok; cycle 1.
  { unfold on_generator.
    rewrite (mini_batch_generator_run randperm st (num_mini_batches self)
               (num_learning_epochs self) (generator self) c nc);
      [reflexivity | lia | done]. }
  fold size draw batches.
  destruct (sweep_run actor critic estimator sample estimator_update gradient_step
              batches zero_sums (set_generator (snd draw) self))
    as (acc' & self' & Hsweep & Hpasses & _ & _ & _ & _ & Hle & Hlw & Hst' & HE' & HM').
  cbv zeta in *.
  unfold exec. rewrite Hsweep. cbn [snd].
  erewrite bind_ok by exact Hsweep.
  erewrite bind_ok by reflexivity.
  assert (HE0 : num_learning_epochs self' = E) by (rewrite HE'; by destruct self).
  assert (HM0 : num_mini_batches self' = M) by (rewrite HM'; by destruct self).
  assert (Hst0 : storage self' = Some st) by (rewrite Hst'; by destruct self).
  rewrite HE0, HM0.
  destruct (Nat.eqb_spec (E * M) 0) as [|_]; [nia|].
  set (ps := sweep_losses _ _ _ _ _ _ _ _) in *.
  assert (Hne : ps <> []).
  { intros H0. rewrite H0 in Hpasses. cbn in Hpasses. nia. }
  rewrite (last_map_some _ _ Hne) in Hle. rewrite (last_map_some _ _ Hne) in Hlw.
  erewrite bind_ok; cycle 1.
  { unfold on_storage. rewrite Hst0. reflexivity. }
  rewrite Hle, Hlw. unfold ret.
  eexists. split; [|exact Hlen].
  by destruct self'.
Qed.

Lemma sweep_cons (b : Storage.MiniBatch) rest acc (self : HIMPPO) :
  exists acc',
    exec (passes (b :: rest) acc) self = exec (passes rest acc') (exec (pass b) self).
Proof.
  destruct (minibatch_step_run actor critic estimator sample estimator_update
              gradient_step b self) as (d & v & sl & loss & Hrun & _).
  cbv zeta in Hrun. eexists.
  unfold exec. cbn [sweep]. erewrite bind_ok by exact Hrun. by rewrite Hrun.
Qed.

Lemma adaptive_target_ext (x y : HIMPPO) :
  desired_kl x = desired_kl y -> schedule x = schedule y ->
  adaptive_target x = adaptive_target y.
Proof. intros Hd Hs. unfold adaptive_target. by rewrite Hd, Hs. Qed.

(** The schedule keeps a rate that is within its two bounds within
    them. *)
Lemma adapt_learning_rate_bounds (target : R) (kl_mean : value) (rate : R) :
  (1e-5 <= rate <= 1e-2)%R ->
  (1e-5 <= adapt_learning_rate target kl_mean rate <= 1e-2)%R.
Proof.
  intros Hrate. unfold adapt_learning_rate.
  destruct kl_mean as [kl|]; [|done].
  destruct (Rgt_dec kl (target * 2.0)).
  - unfold Rmax. destruct (Rle_dec _ _); lra.
  - destruct (Rlt_dec kl (target / 2.0)); [|done].
    destruct (Rgt_dec kl 0.0); [|done].
    unfold Rmin. destruct (Rle_dec _ _); lra.
Qed.

(** X12: with a storage and positive loop counts, when the schedule is
    not the adaptive one or there is no target, [update] returns and
    leaves the learning rate and the rate of every parameter group of the
    optimizer as they were; the storage is cleared and the transition,
    the target and the schedule are untouched. *)
Theorem update_fixed_schedule (self : HIMPPO) (st : Storage.HIMRolloutStorage) c nc :
  storage self = Some st -> Storage.critic_views st = Ok (c, nc) ->
  0 < num_mini_batches self -> 0 < num_learning_epochs self ->
  adaptive_target self = None ->
  exists losses self',
    update actor critic estimator sample randperm estimator_update gradient_step self
    = (Ok losses, self') /\
    learning_rate self' = learning_rate self /\
    param_groups (optimizer self') = param_groups (optimizer self) /\
    storage self' = Some (Storage.set_step 0 st) /\
    transition self' = transition self /\
    desired_kl self' = desired_kl self /\
    schedule self' = schedule self.
Proof.
  intros Hst Hviews HM HE Hfixed.
  destruct (update_state self st c nc Hst Hviews HM HE) as (losses & Hrun & _).
  cbv zeta in Hrun.
  set (Inv := fun x : HIMPPO =>
         adaptive_target x = None /\
         learning_rate x = learning_rate self /\
         param_groups (optimizer x) = param_groups (optimizer self) /\
         transition x = transition self /\
         desired_kl x = desired_kl self /\
         schedule x = schedule self).
  assert (Hpass : forall b x, Inv x -> Inv (exec (pass b) x)).
  { intros b x (Ha & Hlr & Hpg & Htr & Hdk & Hsc).
    destruct (minibatch_step_fields b x)
      as (d & _ & Hdk' & Hsc' & Htr' & _ & _ & _ & _ & _ & Hrate).
    cbv zeta in Hrate. rewrite Ha in Hrate. destruct Hrate as [Hlr' Hpg'].
    unfold Inv. rewrite Hlr', Hpg', Htr', Hdk', Hsc'.
    split; [|done]. rewrite <- Ha. by apply adaptive_target_ext. }
  set (g := snd (randperm _ (generator self))) in Hrun.
  set (batches := concat _) in Hrun.
  assert (H0 : Inv (set_generator g self)).
  { unfold Inv. rewrite <- Hfixed. by destruct self. }
  pose proof (sweep_invariant Inv Hpass batches zero_sums _ H0)
    as (_ & Hlr & Hpg & Htr & Hdk & Hsc).
  eexists _, _. split; [exact Hrun|].
  rewrite <- Hlr, <- Hpg, <- Htr, <- Hdk, <- Hsc.
  by destruct (exec _ _).
Qed.

(** X13: with a storage and positive loop counts, [update] keeps a
    learning rate that lies between 1e-5 and 1e-2 between these bounds,
    whatever the KL estimates of the passes; the optimizer keeps its
    number of parameter groups, and under the adaptive schedule every
    group ends with the learning rate of [self]. *)
Theorem update_rate_bounds (self : HIMPPO) (st : Storage.HIMRolloutStorage) c nc :
  storage self = Some st -> Storage.critic_views st = Ok (c, nc) ->
  0 < num_mini_batches self -> 0 < num_learning_epochs self ->
  (1e-5 <= learning_rate self <= 1e-2)%R ->
  exists losses self',
    update actor critic estimator sample randperm estimator_update gradient_step self
    = (Ok losses, self') /\
    (1e-5 <= learning_rate self' <= 1e-2)%R /\
    length (param_groups (optimizer self')) = length (param_groups (optimizer self)) /\
    (forall target, adaptive_target self = Some target ->
       Forall (fun rate => rate = learning_rate self') (param_groups (optimizer self'))).
Proof.
  intros Hst Hviews HM HE Hrate.
  destruct (update_state self st c nc Hst Hviews HM HE) as (losses & Hrun & Hlen).
  cbv zeta in Hrun, Hlen.
  set (g := snd (randperm _ (generator self))) in Hrun.
  set (batches := concat _) in *.
  set (Inv := fun x : HIMPPO =>
         (1e-5 <= learning_rate x <= 1e-2)%R /\
         length (param_groups (optimizer x)) = length (param_groups (optimizer self))).
  assert (Hpass : forall b x, Inv x -> Inv (exec (pass b) x)).
  { intros b x (Hlr & Hpg).
    destruct (minibatch_step_fields b x)
      as (d & _ & _ & _ & _ & _ & _ & _ & _ & _ & Hnew).
    cbv zeta in Hnew. unfold Inv.
    destruct (adaptive_target x) as [target|]; destruct Hnew as [-> ->].
    - split; [by apply adapt_learning_rate_bounds|]. by rewrite List.length_map.
    - done. }
  assert (H0 : Inv (set_generator g self)).
  { unfold Inv. by destruct self. }
  pose proof (sweep_invariant Inv Hpass batches zero_sums _ H0) as (Hlr & Hpg).
  eexists _, _. split; [exact Hrun|].
  split; [by destruct (exec _ _)|]. split; [by destruct (exec _ _)|].
  intros target Htarget.
  set (Sync := fun x : HIMPPO =>
         adaptive_target x = Some target /\
         Forall (fun rate => rate = learning_rate x) (param_groups (optimizer x))).
  assert (Hsync : forall b x, adaptive_target x = Some target -> Sync (exec (pass b) x)).
  { intros b x Hx.
    destruct (minibatch_step_fields b x)
      as (d & _ & Hdk' & Hsc' & _ & _ & _ & _ & _ & _ & Hnew).
    cbv zeta in Hnew. rewrite Hx in Hnew. destruct Hnew as [_ Hgroups].
    split; [rewrite <- Hx; by apply adaptive_target_ext|].
    rewrite Hgroups. apply Forall_map, Forall_forall. by intros. }
  destruct batches as [|b rest] eqn:Hb; [cbn in Hlen; nia|].
  destruct (sweep_cons b rest zero_sums (set_generator g self)) as (acc' & ->).
  assert (H1 : Sync (exec (pass b) (set_generator g self))).
  { apply Hsync. rewrite <- Htarget. by destruct self. }
  pose proof (sweep_invariant Sync (fun b x Hx => Hsync b x (proj1 Hx))
                rest acc' _ H1) as (_ & Hall).
  revert Hall. generalize (exec (passes rest acc') (exec (pass b) (set_generator g self))).
  intros x Hall. by destruct x.
Qed.

(** X14: the two loop counts of [update] at zero. With no minibatches
    the generator divides by zero before it draws, and [update] raises a
    [ZeroDivisionError] with nothing changed. With no epochs the
    generator draws its permutation and yields nothing; [update] then
    raises a [ZeroDivisionError] at the division by the number of
    updates: the random generator has advanced and the storage is not
    cleared. *)
Theorem update_zero_counts (self : HIMPPO) (st : Storage.HIMRolloutStorage) c nc :
  storage self = Some st -> Storage.critic_views st = Ok (c, nc) ->
  (num_mini_batches self = 0 ->
   update actor critic estimator sample randperm estimator_update gradient_step self
   = (Raise ZeroDivisionError, self)) /\
  (0 < num_mini_batches self -> num_learning_epochs self = 0 ->
   let M := num_mini_batches self in
   let size := Storage.num_envs st * Storage.num_transitions_per_env st / M in
   update actor critic estimator sample randperm estimator_update gradient_step self
   = (Raise ZeroDivisionError,
      set_generator (snd (randperm (M * size) (generator self))) self)).
Proof.
  intros Hst Hviews. split.
  - intros HM. unfold update. erewrite bind_ok by reflexivity. rewrite Hst.
    erewrite bind_raise; [reflexivity|].
    unfold on_generator, Storage.mini_batch_generator. rewrite HM. cbn.
    by destruct self.
  - intros HM HE M size. unfold update. erewrite bind_ok by reflexivity. rewrite Hst.
    erewrite bind_ok; cycle 1.
    { unfold on_generator.
      rewrite (mini_batch_generator_run randperm st (num_mini_batches self)
                 (num_learning_epochs self) (generator self) c nc);
        [reflexivity | lia | done]. }
    rewrite HE. cbn [repeat concat sweep].
    erewrite bind_ok by reflexivity. erewrite bind_ok by reflexivity.
    replace (num_learning_epochs (set_generator _ self)) with 0
      by (rewrite <- HE; by destruct self).
    reflexivity.
Qed.

(** *** A whole iteration *)

(** The privileged buffers come in pairs. *)
Local Abbreviation paired st :=
  (is_Some (Storage.privileged_observations st) ->
   is_Some (Storage.next_privileged_observations st)).






End PPOUpdates.

Section PPOUpdateInstances.
Import Storage PPO Spec Loop.

Lemma update_fixed_schedule_witness :
  exists losses self',
    update Toy.actor Toy.critic Toy.estimator Toy.sample counting_randperm
      Toy.estimator_update Toy.gradient_step Toy.ppo
    = (Ok losses, self') /\
    learning_rate self' = learning_rate Toy.ppo /\
    param_groups (optimizer self') = param_groups (optimizer Toy.ppo).
Proof.
  destruct (update_fixed_schedule Toy.actor Toy.critic Toy.estimator Toy.sample
              counting_randperm Toy.estimator_update Toy.gradient_step Toy.ppo
              two_sample_storage
              (Tensor.flatten (observations two_sample_storage))
              (Tensor.flatten (observations two_sample_storage)))
    as (losses & self' & Hrun & Hlr & Hpg & _).
  - reflexivity.
  - reflexivity.
  - cbn. lia.
  - cbn. lia.
  - reflexivity.
  - exists losses, self'. split; [exact Hrun|]. split; [exact Hlr | exact Hpg].
Defined.

Lemma update_rate_bounds_witness :
  exists losses self',
    update Toy.actor Toy.critic Toy.estimator Toy.sample counting_randperm
      Toy.estimator_update Toy.gradient_step Toy.adaptive
    = (Ok losses, self') /\
    (1e-5 <= learning_rate self' <= 1e-2)%R /\
    Forall (fun rate => rate = learning_rate self') (param_groups (optimizer self')).
Proof.
  destruct (update_rate_bounds Toy.actor Toy.critic Toy.estimator Toy.sample
              counting_randperm Toy.estimator_update Toy.gradient_step Toy.adaptive
              two_sample_storage
              (Tensor.flatten (observations two_sample_storage))
              (Tensor.flatten (observations two_sample_storage)))
    as (losses & self' & Hrun & Hlr & _ & Hsync).
  - reflexivity.
  - reflexivity.
  - cbn. lia.
  - cbn. lia.
  - change (1e-5 <= 1e-3 <= 1e-2)%R. lra.
  - exists losses, self'. split; [exact Hrun|]. split; [exact Hlr|].
    apply (Hsync 0.01%R). reflexivity.
Defined.

Lemma update_zero_counts_witness :
  update Toy.actor Toy.critic Toy.estimator Toy.sample counting_randperm
    Toy.estimator_update Toy.gradient_step Cases.no_batches
  = (Raise ZeroDivisionError, Cases.no_batches).
Proof.
  apply (update_zero_counts Toy.actor Toy.critic Toy.estimator Toy.sample
           counting_randperm Toy.estimator_update Toy.gradient_step Cases.no_batches
           two_sample_storage
           (Tensor.flatten (observations two_sample_storage))
           (Tensor.flatten (observations two_sample_storage))).
  - reflexivity.
  - reflexivity.
  - reflexivity.
Defined.


End PPOUpdateInstances.

(** ** PPO: the losses *)

Section LossFacts.
Import PPO.
Local Open Scope R_scope.

Lemma sum_between (small large : list R) :
  Forall2 (fun p c => 0 <= p <= c) small large ->
  0 <= Tensor.sum small <= Tensor.sum large.
Proof.
  induction 1 as [|p c small large Hpc _ IH]; [cbn; lra|].
  change (Tensor.sum (p :: small)) with (p + Tensor.sum small).
  change (Tensor.sum (c :: large)) with (c + Tensor.sum large). lra.
Qed.

Lemma clamp_inside (x lo hi : R) : lo <= x <= hi -> clamp x lo hi = x.
Proof.
  intros [Hlo Hhi]. unfold clamp.
  rewrite Rmax_left by lra. by rewrite Rmin_left by lra.
Qed.

(** The two lists of squared errors of the value loss, sample by
    sample. *)
Lemma value_losses_between (clip : R) :
  forall value_batch target_values_batch returns_batch : list R,
  length value_batch = length returns_batch ->
  length target_values_batch = length returns_batch ->
  Forall2 (fun p c => 0 <= p <= c)
    (map (fun d => d * d) (Tensor.sub returns_batch value_batch))
    (zip_with Rmax
       (map (fun d => d * d) (Tensor.sub value_batch returns_batch))
       (map (fun d => d * d)
            (Tensor.sub
               (Tensor.add target_values_batch
                  (map (fun d => clamp d (- clip) clip)
                       (Tensor.sub value_batch target_values_batch)))
               returns_batch))).
Proof.
  induction value_batch as [|v vb IH]; intros [|t tb] [|r rb] Hv Ht;
    cbn in Hv, Ht; try lia; [constructor|].
  cbn. constructor; [|apply IH; lia].
  split; [apply Rle_0_sqr|].
  replace ((r - v) * (r - v)) with ((v - r) * (v - r)) by ring.
  apply Rmax_l.
Qed.

Lemma value_losses_inside (clip : R) :
  forall value_batch target_values_batch returns_batch : list R,
  length value_batch = length returns_batch ->
  Forall2 (fun v t => - clip <= v - t <= clip) value_batch target_values_batch ->
  zip_with Rmax
    (map (fun d => d * d) (Tensor.sub value_batch returns_batch))
    (map (fun d => d * d)
         (Tensor.sub
            (Tensor.add target_values_batch
               (map (fun d => clamp d (- clip) clip)
                    (Tensor.sub value_batch target_values_batch)))
            returns_batch))
  = map (fun d => d * d) (Tensor.sub returns_batch value_batch).
Proof.
  intros vb tb rb Hlen Hin. revert rb Hlen.
  induction Hin as [|v t vb tb Hvt _ IH]; intros [|r rb] Hlen;
    cbn in Hlen; try lia; [reflexivity|].
  cbn. rewrite IH by lia. f_equal.
  rewrite clamp_inside by done.
  replace (t + (v - t) - r) with (v - r) by ring.
  rewrite Rmax_left by lra. ring.
Qed.

(** X16: for batches of one nonempty length, the clipped value loss and
    the plain one are both defined and not negative, and the clipped one
    is never below the plain one; they coincide when every new value is
    within [clip_param] of its target value. *)
Theorem value_loss_clipping (clip : R)
    (value_batch target_values_batch returns_batch : list R) :
  length value_batch = length returns_batch ->
  length target_values_batch = length returns_batch ->
  returns_batch <> [] ->
  exists clipped plain,
    value_loss_of true clip value_batch target_values_batch returns_batch
    = Fin clipped /\
    value_loss_of false clip value_batch target_values_batch returns_batch
    = Fin plain /\
    0 <= plain <= clipped /\
    (Forall2 (fun v t => - clip <= v - t <= clip) value_batch target_values_batch ->
     clipped = plain).
Proof.
  intros Hv Ht Hne.
  pose proof (value_losses_between clip _ _ _ Hv Ht) as Hbetween.
  pose proof (Forall2_length _ _ _ Hbetween) as Hlen.
  pose proof (sum_between _ _ Hbetween) as Hsum.
  unfold value_loss_of.
  set (plain := map (fun d => d * d) (Tensor.sub returns_batch value_batch)) in *.
  set (clipped := zip_with Rmax _ _) in *.
  assert (Hn : (0 < length plain)%nat).
  { subst plain. rewrite List.length_map, length_sub, Hv, Nat.min_id.
    destruct returns_batch; [done|]. cbn [length]. lia. }
  rewrite (mean_nonempty plain) by done.
  rewrite (mean_nonempty clipped) by lia.
  eexists _, _. split; [reflexivity|]. split; [reflexivity|].
  assert (Hpos : 0 < INR (length plain)) by (by apply lt_0_INR).
  rewrite <- Hlen. split.
  - split.
    + apply Rmult_le_pos; [lra|]. apply Rlt_le. by apply Rinv_0_lt_compat.
    + apply Rmult_le_compat_r; [|lra]. apply Rlt_le. by apply Rinv_0_lt_compat.
  - intros Hin. subst clipped plain. by rewrite value_losses_inside.
Qed.

Lemma value_loss_clipping_witness :
  exists clipped plain,
    value_loss_of true 0.2 [1; 2] [1; 1] [0; 0] = Fin clipped /\
    value_loss_of false 0.2 [1; 2] [1; 1] [0; 0] = Fin plain /\
    plain <= clipped.
Proof.
  destruct (value_loss_clipping 0.2 [1; 2] [1; 1] [0; 0])
    as (clipped & plain & Hc & Hp & Hle & _); [reflexivity | reflexivity | done |].
  exists clipped, plain. split; [exact Hc|]. split; [exact Hp | apply Hle].
Defined.

(** The two surrogates, sample by sample. *)
Lemma surrogates_between (clip : R) :
  forall (adv ratio : list R), length ratio = length adv ->
  Forall2 Rle
    (zip_with (fun a r => - a * r) adv ratio)
    (zip_with Rmax
       (zip_with (fun a r => - a * r) adv ratio)
       (zip_with (fun a r => - a * clamp r (1.0 - clip) (1.0 + clip)) adv ratio)).
Proof.
  induction adv as [|a adv IH]; intros [|r ratio] Hlen; cbn in Hlen; try lia;
    [constructor|].
  cbn. constructor; [apply Rmax_l | apply IH; lia].
Qed.

Lemma sum_le (small large : list R) :
  Forall2 Rle small large -> Tensor.sum small <= Tensor.sum large.
Proof.
  induction 1 as [|p c small large Hpc _ IH]; [cbn; lra|].
  change (Tensor.sum (p :: small)) with (p + Tensor.sum small).
  change (Tensor.sum (c :: large)) with (c + Tensor.sum large). lra.
Qed.

Lemma surrogates_at_old_policy (clip : R) : 0 <= clip ->
  forall (adv log_prob : list R), length log_prob = length adv ->
  zip_with Rmax
    (zip_with (fun a r => - a * r) adv (map exp (Tensor.sub log_prob log_prob)))
    (zip_with (fun a r => - a * clamp r (1.0 - clip) (1.0 + clip)) adv
       (map exp (Tensor.sub log_prob log_prob)))
  = map Ropp adv.
Proof.
  intros Hclip. induction adv as [|a adv IH]; intros [|p lp] Hlen; cbn in Hlen;
    try lia; [reflexivity|].
  cbn. rewrite IH by lia. f_equal.
  replace (p - p) with 0 by ring. rewrite exp_0.
  rewrite clamp_inside by lra. rewrite Rmax_left by lra. ring.
Qed.

(** X17: for a nonempty batch with defined advantages the surrogate loss
    is defined and is not below the mean of the unclipped surrogate
    [- advantage * ratio]: clipping can only raise the loss. When the new
    log-probabilities are the old ones, as in the first pass of an
    update, and [clip_param] is not negative, the surrogate loss is minus
    the mean advantage. *)
Theorem surrogate_loss_pessimistic (clip : R) (adv log_prob old_log_prob : list R) :
  length log_prob = length adv -> length old_log_prob = length adv -> adv <> [] ->
  exists loss unclipped,
    surrogate_loss_of clip (map Fin adv) log_prob old_log_prob = Fin loss /\
    Tensor.mean (zip_with (fun a r => - a * r) adv
                   (map exp (Tensor.sub log_prob old_log_prob))) = Fin unclipped /\
    unclipped <= loss /\
    (0 <= clip ->
     surrogate_loss_of clip (map Fin adv) old_log_prob old_log_prob
     = Tensor.mean (map Ropp adv)).
Proof.
  intros Hlp Holp Hne. unfold surrogate_loss_of.
  rewrite (finite_Fin (fun a => a)).
  rewrite List.map_id.
  set (ratio := map exp (Tensor.sub log_prob old_log_prob)).
  assert (Hratio : length ratio = length adv).
  { subst ratio. rewrite List.length_map, length_sub. lia. }
  pose proof (surrogates_between clip adv ratio Hratio) as Hbetween.
  pose proof (Forall2_length _ _ _ Hbetween) as Hlen.
  pose proof (sum_le _ _ Hbetween) as Hsum.
  set (plain := zip_with (fun a r => - a * r) adv ratio) in *.
  set (clipped := zip_with Rmax _ _) in *.
  assert (Hn : (0 < length plain)%nat).
  { subst plain. rewrite length_zip_with, Hratio, Nat.min_id.
    destruct adv; [done|]. cbn [length]. lia. }
  rewrite (mean_nonempty plain) by done.
  rewrite (mean_nonempty clipped) by lia.
  eexists _, _. split; [reflexivity|]. split; [reflexivity|].
  assert (Hpos : 0 < INR (length plain)) by (by apply lt_0_INR).
  rewrite <- Hlen. split.
  - apply Rmult_le_compat_r; [|lra]. apply Rlt_le. by apply Rinv_0_lt_compat.
  - intros Hclip. by rewrite surrogates_at_old_policy.
Qed.

Lemma surrogate_loss_pessimistic_witness :
  surrogate_loss_of 0.2 (map Fin [1; -1]) [0; 0] [0; 0] = Tensor.mean (map Ropp [1; -1]).
Proof.
  destruct (surrogate_loss_pessimistic 0.2 [1; -1] [0; 0] [0; 0])
    as (loss & unclipped & _ & _ & _ & Hold); [reflexivity | reflexivity | done |].
  apply Hold. lra.
Defined.

(** X18: for a nonempty batch of Gaussians with at least one action
    coordinate and positive standard deviations, new and old, the mean of
    the KL estimate is defined and positive, so that the adaptive
    schedule is the three-way rule: the rate is divided by 1.5, and kept
    at or above 1e-5, above twice the target; multiplied by 1.5, and kept
    at or below 1e-2, below half the target; and unchanged in
    between. *)
Theorem adaptive_rate_proper_gaussians (target rate : R)
    (mu_batch sigma_batch old_mu_batch old_sigma_batch : list vector) (B A : nat) :
  (0 < B)%nat -> (0 < A)%nat ->
  length mu_batch = B -> length sigma_batch = B ->
  length old_mu_batch = B -> length old_sigma_batch = B ->
  Forall (fun row => length row = A) mu_batch ->
  Forall (fun row => length row = A) old_mu_batch ->
  Forall (fun row => length row = A /\ Forall (fun x => 0 < x) row) sigma_batch ->
  Forall (fun row => length row = A /\ Forall (fun x => 0 < x) row) old_sigma_batch ->
  exists kl,
    Tensor.mean (kl_divergence mu_batch sigma_batch old_mu_batch old_sigma_batch)
    = Fin kl /\
    0 < kl /\
    (kl > target * 2 ->
     adapt_learning_rate target (Fin kl) rate = Rmax 1e-5 (rate / 1.5)) /\
    (kl < target / 2 ->
     adapt_learning_rate target (Fin kl) rate = Rmin 1e-2 (rate * 1.5)) /\
    (target / 2 <= kl <= target * 2 ->
     adapt_learning_rate target (Fin kl) rate = rate).
Proof.
  intros HB HA Hmu Hsigma Hold_mu Hold_sigma Fmu Fold_mu Fsigma Fold_sigma.
  destruct (kl_mean_positive mu_batch sigma_batch old_mu_batch old_sigma_batch B A)
    as (kl & Hmean & Hpos); try done.
  exists kl. split; [exact Hmean|]. split; [exact Hpos|].
  unfold adapt_learning_rate.
  destruct (Rgt_dec kl (target * 2.0)) as [Hhigh|Hhigh];
    destruct (Rlt_dec kl (target / 2.0)) as [Hlow|Hlow];
    destruct (Rgt_dec kl 0.0) as [Hgt|Hgt];
    repeat split; intros; try reflexivity; lra.
Qed.

Lemma adaptive_rate_proper_gaussians_witness :
  exists kl,
    Tensor.mean (kl_divergence [[0]] [[1]] [[0]] [[1]]) = Fin kl /\ 0 < kl.
Proof.
  destruct (adaptive_rate_proper_gaussians 0.01 1e-3 [[0]] [[1]] [[0]] [[1]] 1 1)
    as (kl & Hmean & Hpos & _);
    try reflexivity; try lia; try (by repeat constructor).
  - repeat constructor. lra.
  - repeat constructor. lra.
  - exists kl. by split.
Defined.

End LossFacts.

(** ** Actor-critic: log-probabilities *)

Section LogProbFacts.
Import ActorCritic.
Context {actor_params critic_params estimator_params : Type}.
Local Open Scope R_scope.

Local Abbreviation HIMActorCritic :=
  (@ActorCritic.HIMActorCritic actor_params critic_params estimator_params).

Lemma log_prob1_mode (m s a : R) : 0 < s -> log_prob1 m s a <= log_prob1 m s m.
Proof.
  intros Hs. unfold log_prob1.
  assert (Hden : 0 < 2 * (s * s)) by nra.
  assert (Hsq : 0 <= (a - m) * (a - m)) by apply Rle_0_sqr.
  assert (Hq : 0 <= (a - m) * (a - m) / (2 * (s * s))).
  { apply Rmult_le_pos; [done|]. apply Rlt_le. by apply Rinv_0_lt_compat. }
  replace ((m - m) * (m - m)) with 0 by ring.
  unfold Rdiv in *. lra.
Qed.

Lemma row_log_prob_mode : forall (m s a : list R),
  length a = length m -> length s = length m -> Forall (fun x => 0 < x) s ->
  Tensor.sum (zip_with (fun '(m, s) x => log_prob1 m s x) (zip m s) a)
  <= Tensor.sum (zip_with (fun '(m, s) x => log_prob1 m s x) (zip m s) m).
Proof.
  induction m as [|m0 m IH]; intros [|s0 s] [|a0 a] Ha Hs Hpos;
    cbn in Ha, Hs; try lia; [cbn; lra|].
  inversion Hpos as [|? ? Hs0 Hpos']; subst.
  cbn [zip zip_with].
  change (Tensor.sum (?x :: ?l)) with (x + Tensor.sum l).
  pose proof (log_prob1_mode m0 s0 a0 Hs0).
  pose proof (IH s a ltac:(lia) ltac:(lia) Hpos'). lra.
Qed.

(** X19: under a distribution with positive standard deviations no
    action has a higher log-probability than the mean: for every sample
    of a batch of actions of the shape of the mean,
    [get_actions_log_prob] gives at most what it gives for
    [action_mean], the action that [act_inference] returns. *)
Theorem mean_action_most_likely (self : HIMActorCritic) (d : Normal)
    (actions : list vector) :
  distribution self = Some d ->
  Forall2 (fun m a => length a = length m) (loc d) actions ->
  Forall2 (fun m s => length s = length m /\ Forall (fun x => 0 < x) s)
          (loc d) (scale d) ->
  exists log_prob best,
    get_actions_log_prob actions self = (Ok log_prob, self) /\
    get_actions_log_prob (loc d) self = (Ok best, self) /\
    Forall2 Rle log_prob best.
Proof.
  intros Hd Hactions Hscale.
  unfold get_actions_log_prob, current_distribution, bind, get, ret. rewrite Hd.
  eexists _, _. split; [reflexivity|]. split; [reflexivity|].
  revert actions Hactions.
  induction Hscale as [|m s means scales [Hs Hpos] _ IH]; intros actions Hactions.
  - inversion Hactions. constructor.
  - inversion Hactions as [|? a ? rest Ha Hrest]; subst.
    cbn [zip zip_with fst snd]. constructor; [|by apply IH].
    by apply row_log_prob_mode.
Qed.

End LogProbFacts.

Lemma mean_action_most_likely_witness :
  exists log_prob best,
    ActorCritic.get_actions_log_prob [[2%R]]
      (ActorCritic.mkActorCritic tt tt tt [1%R]
         (Some (ActorCritic.mkNormal [[0%R]] [[1%R]])) 1)
    = (Ok log_prob,
       ActorCritic.mkActorCritic tt tt tt [1%R]
         (Some (ActorCritic.mkNormal [[0%R]] [[1%R]])) 1) /\
    Forall2 Rle log_prob best.
Proof.
  destruct (mean_action_most_likely
              (ActorCritic.mkActorCritic tt tt tt [1%R]
                 (Some (ActorCritic.mkNormal [[0%R]] [[1%R]])) 1)
              (ActorCritic.mkNormal [[0%R]] [[1%R]]) [[2%R]])
    as (log_prob & best & Hrun & _ & Hle).
  - reflexivity.
  - by repeat constructor.
  - repeat constructor. lra.
  - exists log_prob, best. by split.
Defined.

(** ** Normalisation of equal advantages *)




(** ** The networks of the constructor *)

Section ArchitectureFacts.
Import Architecture Shapes.

Lemma nth_last {A} (l : list A) (d : A) : nth (length l - 1) l d = List.last l d.
Proof.
  induction l as [|x [|y l] IH]; [reflexivity | reflexivity |].
  change (List.last (x :: y :: l) d) with (List.last (y :: l) d).
  rewrite <- IH. cbn [length].
  by replace (S (S (length l)) - 1) with (S (S (length l) - 1)) by lia.
Qed.

Lemma chain_app (layers more : list layer) : forall input middle output,
  chain input layers middle -> chain middle more output ->
  chain input (layers ++ more) output.
Proof.
  induction layers as [|[a b|] layers IH]; intros input middle output H1 H2; cbn in *.
  - by subst.
  - destruct H1 as [-> H1]. split; [done|]. by eapply IH.
  - by eapply IH.
Qed.

Lemma linear_count_app (layers more : list layer) :
  length (List.filter is_linear (layers ++ more))
  = length (List.filter is_linear layers) + length (List.filter is_linear more).
Proof. by rewrite List.filter_app, length_app. Qed.

(** The loop over [range(len(hidden_dims))], pass by pass. *)
Lemma mlp_loop (input output : nat) (hidden_dims : list nat) (first : nat) :
  nth 0 hidden_dims 0 = first ->
  let body := fun layers l =>
    if l =? length hidden_dims - 1
    then layers ++ [Linear (nth l hidden_dims 0) output]
    else layers ++ [Linear (nth l hidden_dims 0) (nth (l + 1) hidden_dims 0);
                    Activation] in
  forall k, k < length hidden_dims ->
    let layers := fold_left body (seq 0 k) [Linear input first; Activation] in
    chain input layers (nth k hidden_dims 0) /\
    length (List.filter is_linear layers) = k + 1.
Proof.
  intros Hfirst body k. induction k as [|k IH]; intros Hk.
  - cbn. by rewrite Hfirst.
  - destruct IH as [Hchain Hcount]; [lia|].
    cbv zeta in Hchain, Hcount |- *.
    rewrite seq_S, fold_left_app. cbn [Nat.add fold_left].
    set (layers := fold_left body (seq 0 k) [Linear input first; Activation]) in *.
    clearbody layers. unfold body.
    destruct (Nat.eqb_spec k (length hidden_dims - 1)) as [|_]; [lia|].
    split.
    + eapply chain_app; [exact Hchain|]. cbn.
      split; [reflexivity|]. by replace (k + 1) with (S k) by lia.
    + rewrite linear_count_app, Hcount. cbn. lia.
Qed.

Lemma mlp_layers_chain (input output : nat) (hidden_dims : list nat) :
  hidden_dims <> [] ->
  exists layers,
    mlp_layers input hidden_dims output = Ok layers /\
    chain input layers output /\
    length (List.filter is_linear layers) = length hidden_dims + 1 /\
    List.last layers Activation = Linear (List.last hidden_dims 0) output.
Proof.
  intros Hne. destruct hidden_dims as [|first rest]; [done|].
  unfold mlp_layers. remember (first :: rest) as hidden_dims eqn:Hh.
  eexists. split; [reflexivity|].
  assert (Hlen : 0 < length hidden_dims) by (rewrite Hh; cbn; lia).
  assert (Hfirst : nth 0 hidden_dims 0 = first) by (by rewrite Hh).
  destruct (mlp_loop input output hidden_dims first Hfirst (length hidden_dims - 1))
    as [Hchain Hcount]; [lia|].
  cbv zeta in Hchain, Hcount.
  replace (seq 0 (length hidden_dims))
    with (seq 0 (length hidden_dims - 1) ++ [length hidden_dims - 1])
    by (rewrite <- seq_S; f_equal; lia).
  rewrite fold_left_app. cbn [fold_left].
  match type of Hchain with
  | chain _ ?l _ => set (layers := l) in *
  end.
  clearbody layers. rewrite Nat.eqb_refl.
  split; [|split].
  - eapply chain_app; [exact Hchain|]. cbn. done.
  - rewrite linear_count_app, Hcount. cbn. lia.
  - rewrite last_last. f_equal. apply nth_last.
Qed.

(** X21: the networks that [HIMActorCritic.__init__] builds. Without
    one-step observations the constructor divides by zero, and with an
    empty list of hidden sizes it raises an [IndexError]. Otherwise the
    actor is a chain of layers from [num_one_step_obs + 3 + 16] features
    to [num_actions], and the critic one from [num_critic_obs] to 1: each
    has one [Linear] more than hidden sizes, every [Linear] takes what
    the one before it gives, and the last layer is a [Linear], with no
    activation after it. The initial standard deviation has one entry per
    action, each equal to [init_noise_std]. *)
Theorem constructed_networks_chain
    (num_actor_obs num_critic_obs num_one_step_obs num_actions : nat)
    (actor_hidden_dims critic_hidden_dims : list nat) (init_noise_std : R) :
  let built :=
    Architecture.init num_actor_obs num_critic_obs num_one_step_obs num_actions
      actor_hidden_dims critic_hidden_dims init_noise_std in
  (num_one_step_obs = 0 -> built = Raise ZeroDivisionError) /\
  (0 < num_one_step_obs -> actor_hidden_dims = [] -> built = Raise IndexError) /\
  (0 < num_one_step_obs -> critic_hidden_dims = [] -> built = Raise IndexError) /\
  (0 < num_one_step_obs -> actor_hidden_dims <> [] -> critic_hidden_dims <> [] ->
   exists shape,
     built = Ok shape /\
     history_size shape = num_actor_obs / num_one_step_obs /\
     chain (num_one_step_obs + 3 + 16) (actor shape) num_actions /\
     chain num_critic_obs (critic shape) 1 /\
     length (List.filter is_linear (actor shape)) = length actor_hidden_dims + 1 /\
     length (List.filter is_linear (critic shape)) = length critic_hidden_dims + 1 /\
     List.last (actor shape) Activation
     = Linear (List.last actor_hidden_dims 0) num_actions /\
     List.last (critic shape) Activation = Linear (List.last critic_hidden_dims 0) 1 /\
     length (Architecture.std shape) = num_actions /\
     Forall (fun s => s = init_noise_std) (Architecture.std shape)).
Proof.
  intros built. subst built. unfold Architecture.init.
  split; [|split; [|split]].
  - intros ->. reflexivity.
  - intros Hpos ->. destruct (Nat.eqb_spec num_one_step_obs 0); [lia | reflexivity].
  - intros Hpos ->. destruct (Nat.eqb_spec num_one_step_obs 0); [lia|].
    by destruct actor_hidden_dims.
  - intros Hpos Ha Hc. destruct (Nat.eqb_spec num_one_step_obs 0); [lia|].
    destruct (mlp_layers_chain (num_one_step_obs + 3 + 16) num_actions
                actor_hidden_dims Ha) as (al & -> & Hal & Hac & Hlast_a).
    destruct (mlp_layers_chain num_critic_obs 1 critic_hidden_dims Hc)
      as (cl & -> & Hcl & Hcc & Hlast_c).
    eexists. split; [reflexivity|]. cbn [history_size actor critic Architecture.std].
    repeat (split; [done|]). split.
    + by rewrite List.length_map, repeat_length.
    + apply Forall_map, Forall_forall. intros x Hx%list_elem_of_In%repeat_spec.
      subst x. cbn. ring.
Qed.

End ArchitectureFacts.

Lemma constructed_networks_chain_witness :
  exists shape,
    Architecture.init 270 238 45 12 [512; 256; 128] [512; 256; 128] 1%R = Ok shape /\
    Shapes.chain 64 (Architecture.actor shape) 12 /\
    Shapes.chain 238 (Architecture.critic shape) 1.
Proof.
  destruct (constructed_networks_chain 270 238 45 12 [512; 256; 128] [512; 256; 128] 1%R)
    as (_ & _ & _ & Hbuilt).
  destruct Hbuilt as (shape & Hrun & _ & Ha & Hc & _); [lia | done | done |].
  exists shape. split; [exact Hrun|]. by split.
Defined.

(** ** Run directories and checkpoints *)

Section HelperFacts.
Import Helpers Shapes.
Local Open Scope string_scope.

(** *** The order of [str] *)

Lemma string_leb_refl (a : string) : String.leb a a = true.
Proof. by destruct (String.leb_total a a). Qed.

Lemma string_leb_trans : forall a b c : string,
  String.leb a b = true -> String.leb b c = true -> String.leb a c = true.
Proof.
  unfold String.leb.
  induction a as [|ca a IH]; intros [|cb b] [|cc c]; cbn [String.compare];
    try done.
  destruct (Ascii.compare ca cb) eqn:E1; try done;
    destruct (Ascii.compare cb cc) eqn:E2; try done.
  - apply Ascii.compare_eq_iff in E1, E2. subst.
    rewrite (proj2 (N.compare_eq_iff _ _) eq_refl : Ascii.compare cc cc = Eq).
    apply IH.
  - apply Ascii.compare_eq_iff in E1. subst. by rewrite E2.
  - apply Ascii.compare_eq_iff in E2. subst. by rewrite E1.
  - unfold Ascii.compare in *.
    apply N.compare_lt_iff in E1, E2.
    by rewrite (proj2 (N.compare_lt_iff _ _) (N.lt_trans _ _ _ E1 E2)).
Qed.

(** *** Sorting *)

Lemma in_insert_by key x sorted z :
  In z (insert_by key x sorted) <-> z = x \/ In z sorted.
Proof.
  induction sorted as [|y rest IH]; cbn; [intuition congruence|].
  destruct (String.leb (key x) (key y)); cbn; [intuition congruence|].
  rewrite IH. intuition congruence.
Qed.

Lemma in_sort_by key l z : In z (sort_by key l) <-> In z l.
Proof.
  induction l as [|x l IH]; [done|].
  cbn [sort_by fold_right]. fold (sort_by key l).
  rewrite in_insert_by, IH. cbn. intuition congruence.
Qed.

Lemma insert_by_ordered key x sorted :
  ordered key sorted -> ordered key (insert_by key x sorted).
Proof.
  induction sorted as [|y rest IH]; intros Hord; [by cbn|].
  destruct Hord as [Hy Hrest]. cbn [insert_by].
  destruct (String.leb (key x) (key y)) eqn:Hxy.
  - split; [|by split].
    intros z [<-|Hz]; [done|].
    eapply string_leb_trans; [exact Hxy | by apply Hy].
  - split; [|by apply IH].
    intros z [->|Hz]%in_insert_by; [|by apply Hy].
    destruct (String.leb_total (key x) (key y)) as [H|H]; [congruence | done].
Qed.

Lemma sort_by_ordered key l : ordered key (sort_by key l).
Proof.
  induction l as [|x l IH]; [done|].
  cbn [sort_by fold_right]. by apply insert_by_ordered.
Qed.

Lemma in_remove_first x l z : In z (remove_first x l) -> In z l.
Proof.
  induction l as [|y rest IH]; [done|]. cbn.
  destruct (String.eqb x y); [by right|]. intros [->|Hz]; [by left|]. right. by apply IH.
Qed.

Lemma remove_first_keeps x l z : z <> x -> In z l -> In z (remove_first x l).
Proof.
  intros Hne. induction l as [|y rest IH]; [done|]. cbn.
  destruct (String.eqb_spec x y) as [->|Hxy]; intros [<-|Hz]; try done.
  - by left.
  - right. by apply IH.
Qed.

Lemma remove_first_ordered key x l :
  ordered key l -> ordered key (remove_first x l).
Proof.
  induction l as [|y rest IH]; [done|]. intros [Hy Hrest]. cbn.
  destruct (String.eqb x y); [done|].
  split; [|by apply IH]. intros z Hz%in_remove_first. by apply Hy.
Qed.

Lemma remove_first_absent x l :
  existsb (String.eqb x) l = false -> remove_first x l = l.
Proof.
  induction l as [|y rest IH]; [done|]. cbn.
  destruct (String.eqb x y); [done|]. cbn. intros H. by rewrite IH.
Qed.

(** The last entry of a list in order has the greatest key. *)
Lemma ordered_last_max key (l : list string) d :
  l <> [] -> ordered key l ->
  In (List.last l d) l /\
  forall y, In y l -> String.leb (key y) (key (List.last l d)) = true.
Proof.
  induction l as [|x [|x' rest] IH]; intros Hne Hord; [done| |].
  - split; [by left|]. intros y [<-|[]]. apply string_leb_refl.
  - destruct Hord as [Hx Hrest].
    change (List.last (x :: x' :: rest) d) with (List.last (x' :: rest) d).
    destruct IH as [Hin Hmax]; [done | done |].
    split; [by right|].
    intros y [<-|Hy]; [by apply Hx | by apply Hmax].
Qed.

Lemma last_item_return (l : list string) :
  l <> [] -> last_item l = Return (List.last l "").
Proof. by destruct l. Qed.

Lemma join_absolute a b : isabs b = true -> join a b = b.
Proof. intros H. unfold join. by rewrite H. Qed.

Section AnyFileSystem.
Variable listdir : string -> outcome (list string).

(** The list [runs] after the sort and the removal. *)
Lemma last_run_candidates (names : list string) :
  (if existsb (String.eqb "exported") (sort_by (fun name => name) names)
   then remove_first "exported" (sort_by (fun name => name) names)
   else sort_by (fun name => name) names)
  = remove_first "exported" (sort_by (fun name => name) names).
Proof.
  destruct (existsb _ _) eqn:H; [done|]. by rewrite remove_first_absent.
Qed.

(** X22: run discovery. With [load_run = -1], [get_load_path] raises
    the [ValueError] on its root when the root cannot be listed or holds
    no entry besides one ['exported']; otherwise it goes on as for the
    explicit run that is greatest in the order of [str] among the
    entries listed, one ['exported'] apart. *)
Theorem get_load_path_last_run (root : string) (checkpoint : Z) :
  (forall e, listdir root = Throw e ->
     get_load_path listdir root (inl (-1)%Z) checkpoint
     = Throw (ValueError ("No runs in this directory: " ++ root))) /\
  (forall names, listdir root = Return names ->
     let runs := remove_first "exported" (sort_by (fun name => name) names) in
     (forall run, In run runs -> In run names) /\
     (forall run, In run names -> run <> "exported" -> In run runs) /\
     (runs = [] ->
      get_load_path listdir root (inl (-1)%Z) checkpoint
      = Throw (ValueError ("No runs in this directory: " ++ root))) /\
     (runs <> [] ->
      exists run,
        In run runs /\
        (forall other, In other runs -> String.leb other run = true) /\
        get_load_path listdir root (inl (-1)%Z) checkpoint
        = get_load_path listdir root (inr run) checkpoint)).
Proof.
  split.
  - intros e He. unfold get_load_path, last_run. rewrite He. reflexivity.
  - intros names Hnames runs.
    assert (Hpath : get_load_path listdir root (inl (-1)%Z) checkpoint
              = and_then
                  (match and_then (last_item runs)
                           (fun last => Return (join root last)) with
                   | Return last_run => Return last_run
                   | Throw _ =>
                       Throw (ValueError ("No runs in this directory: " ++ root))
                   end)
                  (fun load_run =>
                     and_then
                       (if (checkpoint =? -1)%Z then
                          and_then (listdir load_run) (fun files =>
                            last_item (sort_by pad15
                                         (List.filter (contains "model") files)))
                        else Return ("model_" ++ pretty checkpoint ++ ".pt"))
                       (fun model => Return (join load_run model)))).
    { unfold get_load_path, last_run. rewrite Hnames.
      cbn [and_then Z.eqb Pos.eqb]. by rewrite last_run_candidates. }
    split; [|split; [|split]].
    + intros run Hrun%in_remove_first. by apply in_sort_by in Hrun.
    + intros run Hrun Hne. apply remove_first_keeps; [done|]. by apply in_sort_by.
    + intros Hempty. rewrite Hpath, Hempty. reflexivity.
    + intros Hne.
      destruct (ordered_last_max (fun name => name) runs "" Hne) as [Hin Hmax].
      { apply remove_first_ordered, sort_by_ordered. }
      exists (List.last runs ""). split; [exact Hin|]. split; [exact Hmax|].
      rewrite Hpath, (last_item_return runs Hne). cbn [and_then].
      unfold get_load_path.
      destruct (isabs (List.last runs "")) eqn:Habs; [|reflexivity].
      by rewrite join_absolute.
Qed.


End AnyFileSystem.

(** X24: an explicit run and checkpoint. The path is the root, the run
    and ["model_<checkpoint>.pt"] joined, whether the run is given as an
    absolute path, which then replaces the root, or not; the file system
    is not consulted. *)
Theorem get_load_path_explicit (listdir : string -> outcome (list string))
    (root name : string) (checkpoint : Z) :
  checkpoint <> (-1)%Z ->
  get_load_path listdir root (inr name) checkpoint
  = Return (join (join root name) ("model_" ++ pretty checkpoint ++ ".pt")) /\
  (isabs name = true -> join root name = name) /\
  (forall other : string -> outcome (list string),
     get_load_path other root (inr name) checkpoint
     = get_load_path listdir root (inr name) checkpoint).
Proof.
  intros Hcp.
  assert (Hrun : (if isabs name then Return name else Return (join root name))
                 = Return (join root name)).
  { destruct (isabs name) eqn:Habs; [|reflexivity]. by rewrite join_absolute. }
  assert (Hall : forall fs, get_load_path fs root (inr name) checkpoint
            = Return (join (join root name) ("model_" ++ pretty checkpoint ++ ".pt"))).
  { intros fs. unfold get_load_path. rewrite Hrun. cbn [and_then].
    destruct (Z.eqb_spec checkpoint (-1)); [done | reflexivity]. }
  split; [apply Hall|]. split; [apply join_absolute|].
  intros other. by rewrite !Hall.
Qed.

(** *** The sort key of the checkpoints *)







(** *** Command line overrides *)

(** X26: [update_cfg_from_args]. A configuration that is [None] stays
    [None]; without options nothing changes; the call is idempotent; a
    seed given on the command line goes into both configurations; a
    given [recover_mode] replaces the configured one, whereas [resume]
    can only be switched on: it ends as the configured value or the
    flag. *)
Theorem update_cfg_from_args_overrides
    (env_cfg : option EnvCfg) (cfg_train : option TrainCfg) (args : Args) :
  let updated := update_cfg_from_args env_cfg cfg_train args in
  update_cfg_from_args (fst updated) (snd updated) args = updated /\
  update_cfg_from_args env_cfg cfg_train no_args = (env_cfg, cfg_train) /\
  (fst updated = None <-> env_cfg = None) /\
  (snd updated = None <-> cfg_train = None) /\
  (forall seed env train,
     arg_seed args = Some seed -> fst updated = Some env -> snd updated = Some train ->
     env_seed env = seed /\ train_seed train = seed) /\
  (forall env mode,
     fst updated = Some env -> arg_recover_mode args = Some mode ->
     domain_rand_recover_mode env = mode) /\
  (forall before train,
     cfg_train = Some before -> snd updated = Some train ->
     resume (runner train) = resume (runner before) || truthy (arg_resume args)).
Proof.
  destruct args as [ne sd rm mi rs en rn lr cp].
  destruct env_cfg as [[e1 e2 e3]|], cfg_train as [[t1 [r1 r2 r3 r4 r5 r6]]|];
    cbn; (split; [|split; [done|]]).
  all: try (destruct ne, sd, rm, mi, rs as [[]|], en, rn, lr, cp; reflexivity).
  all: repeat split; try done; intros; simplify_eq; cbn; try done.
  all: try (destruct rs as [[]|], r2; reflexivity).
Qed.

End HelperFacts.

Lemma get_load_path_last_run_witness :
  Helpers.get_load_path Helpers.example_listdir "logs" (inl (-1)%Z) (-1)%Z
  = Helpers.get_load_path Helpers.example_listdir "logs" (inr "Nov02"%string) (-1)%Z.
Proof.
  destruct (get_load_path_last_run Helpers.example_listdir "logs" (-1)%Z) as [_ Hlist].
  destruct (Hlist ["Nov01"; "exported"; "Nov02"]%string eq_refl)
    as (_ & _ & _ & Hlast).
  destruct Hlast as (run & Hin & Hmax & ->); [done|].
  destruct Hin as [<-|[<-|[]]]; [|reflexivity].
  specialize (Hmax "Nov02"%string (or_intror (or_introl eq_refl))).
  discriminate Hmax.
Defined.


Lemma get_load_path_explicit_witness :
  Helpers.get_load_path Helpers.example_listdir "logs" (inr "Nov01"%string) 50%Z
  = Helpers.Return "logs/Nov01/model_50.pt"%string.
Proof.
  destruct (get_load_path_explicit Helpers.example_listdir "logs" "Nov01" 50%Z)
    as (-> & _); [done | reflexivity].
Defined.
